(** * Hit testing and pointer-event dispatch of the troika world facades

    A shallow embedding of [WorldBaseFacade] (pointer pipeline, bubbling
    dispatch, tap and drag recognition), of the octree changeset of
    [World3DFacade] and of [BasicThenable], with the properties the
    specification states about them. *)

From Stdlib Require Import ZArith String List Bool Lia Permutation Sorted.
From stdpp Require Import gmap.
Import ListNotations.

Open Scope string_scope.
Open Scope list_scope.
Open Scope Z_scope.

(** ** Facades, hits and events *)

(** A facade as the pipeline sees it: its [$facadeId], its [parent] (the chain
    ends at the world's child, whose parent is absent), whether it declares
    [onDragStart], and the answer of
    [facade.isPointerEventTarget && facade.interceptsPointerEvents(registry)]
    for the registry of its world. *)
#[warnings="-register-all"]
Inductive Facade : Type :=
  mkFacade (facadeId : nat) (parent : option Facade)
           (onDragStart : bool) (interceptsPointerEvents : bool).

Definition facadeId (f : Facade) : nat :=
  match f with mkFacade i _ _ _ => i end.
Definition parent (f : Facade) : option Facade :=
  match f with mkFacade _ p _ _ => p end.
Definition onDragStart (f : Facade) : bool :=
  match f with mkFacade _ _ d _ => d end.
Definition interceptsPointerEvents (f : Facade) : bool :=
  match f with mkFacade _ _ _ i => i end.

(** [a === b] on facade objects: object identity, and [$facadeId] is unique.
    On optional facades [null] and [undefined] are one: where the code tells
    them apart ([hovered !== lastHovered] on the first event), both sides are
    falsy and nothing is dispatched. *)
Definition sameFacade (a b : Facade) : bool := Nat.eqb (facadeId a) (facadeId b).

Definition sameFacadeOpt (a b : option Facade) : bool :=
  match a, b with
  | Some x, Some y => sameFacade x y
  | None, None => true
  | _, _ => false
  end.

(** The target followed by its ancestors, nearest first. *)
Fixpoint chain (f : Facade) : list Facade :=
  match f with
  | mkFacade _ (Some p) _ _ => f :: chain p
  | mkFacade _ None _ _ => [f]
  end.

(** One entry of the array [getFacadesOnRay] returns. Numbers are integers
    here; [distanceBias] may be missing on the hit object. *)
Record Hit : Type := mkHit {
  hitFacade : Facade;
  distance : Z;
  distanceBias : option Z
}.

(** [a.distanceBias || 0] *)
Definition biasOr0 (h : Hit) : Z :=
  match distanceBias h with
  | Some b => b
  | None => 0
  end.

(** The comparator of [_findHoverTarget]:
    [(a.distance - b.distance) || ((a.distanceBias || 0) - (b.distanceBias || 0))] *)
Definition compareHits (a b : Hit) : Z :=
  let d := distance a - distance b in
  if d =? 0 then biasOr0 a - biasOr0 b else d.

(** [Array.prototype.sort] with a comparator: the language requires a stable
    sort; a stable insertion sort stands for it. *)
Section ArraySort.
Context {A : Type} (cmp : A -> A -> Z).

Fixpoint sortInsert (x : A) (l : list A) : list A :=
  match l with
  | [] => [x]
  | y :: l' => if cmp x y <=? 0 then x :: y :: l' else y :: sortInsert x l'
  end.

Fixpoint arraySort (l : list A) : list A :=
  match l with
  | [] => []
  | x :: l' => sortInsert x (arraySort l')
  end.
End ArraySort.

Definition sortHits (allHits : list Hit) : list Hit := arraySort compareHits allHits.

(** [_findHoverTarget], given what [getFacadesAtEvent] returned ([None] for
    [null]): sort, then take the nearest hit that intercepts pointer events. *)
Definition findHoverTargetIn (allHits : option (list Hit)) : option Hit :=
  match allHits with
  | Some hits =>
      List.find (fun h => interceptsPointerEvents (hitFacade h)) (sortHits hits)
  | None => None
  end.

(** The order the specification gives, in its own words and apart from the
    comparator above: ascending by [distance], ties broken by ascending
    [distanceBias], a hit without one counting as bias 0. *)
Definition specBias (h : Hit) : Z := default 0 (distanceBias h).

Definition hitKey (h : Hit) : Z * Z := (distance h, specBias h).

Definition hitLe (a b : Hit) : Prop :=
  distance a < distance b \/ (distance a = distance b /\ specBias a <= specBias b).

Definition sameKey (k : Z * Z) (h : Hit) : bool :=
  (fst k =? distance h) && (snd k =? specBias h).

(** ** Native and synthetic events *)

Definition EventType : Type := string.

Record Touch : Type := mkTouch { touchClientX : Z; touchClientY : Z }.

(** A native event: its [type], its [clientX]/[clientY], its [touches] and
    [changedTouches] (both present on touch events, both undefined on the
    others), and whether [e.target] is the world's element. *)
Record NativeEvent : Type := mkNative {
  evType : EventType;
  evClientX : Z;
  evClientY : Z;
  touchLists : option (list Touch * list Touch);
  targetIsElement : bool
}.

Inductive Exn : Type :=
| TypeError
| HandlerError (code : nat).

Inductive Outcome (A : Type) : Type :=
| Returned (a : A)
| Thrown (e : Exn).
Arguments Returned {A} a.
Arguments Thrown {A} e.

Definition isTouchEndOrCancel (e : NativeEvent) : bool :=
  String.eqb (evType e) "touchend" || String.eqb (evType e) "touchcancel".

Record SyntheticEvent : Type := mkSynthetic {
  seType : EventType;
  seTarget : Facade;
  seRelatedTarget : option Facade;
  seCurrentTarget : option Facade;
  seClientX : Z;
  seClientY : Z;
  propagationStopped : bool;
  defaultPrevented : bool;
  nativeEvent : NativeEvent;
  seExtra : option Hit
}.

(** [new SyntheticEvent(nativeEvent, type, target, relatedTarget, extra)]: the
    position is taken from the single touch of a touch event. *)
Definition newSyntheticEvent (e : NativeEvent) (type : EventType) (target : Facade)
    (relatedTarget : option Facade) (extra : option Hit) : SyntheticEvent :=
  let pos :=
    match touchLists e with
    | Some (touches, changedTouches) =>
        match (if isTouchEndOrCancel e then changedTouches else touches) with
        | [t] => (touchClientX t, touchClientY t)
        | _ => (evClientX e, evClientY e)
        end
    | None => (evClientX e, evClientY e)
    end in
  {| seType := type; seTarget := target; seRelatedTarget := relatedTarget;
     seCurrentTarget := None; seClientX := fst pos; seClientY := snd pos;
     propagationStopped := false; defaultPrevented := false;
     nativeEvent := e; seExtra := extra |}.

Definition setCurrentTarget (ev : SyntheticEvent) (f : Facade) : SyntheticEvent :=
  {| seType := seType ev; seTarget := seTarget ev; seRelatedTarget := seRelatedTarget ev;
     seCurrentTarget := Some f; seClientX := seClientX ev; seClientY := seClientY ev;
     propagationStopped := propagationStopped ev; defaultPrevented := defaultPrevented ev;
     nativeEvent := nativeEvent ev; seExtra := seExtra ev |}.

Definition setPropagationStopped (ev : SyntheticEvent) : SyntheticEvent :=
  {| seType := seType ev; seTarget := seTarget ev; seRelatedTarget := seRelatedTarget ev;
     seCurrentTarget := seCurrentTarget ev; seClientX := seClientX ev; seClientY := seClientY ev;
     propagationStopped := true; defaultPrevented := defaultPrevented ev;
     nativeEvent := nativeEvent ev; seExtra := seExtra ev |}.

Definition setDefaultPrevented (ev : SyntheticEvent) : SyntheticEvent :=
  {| seType := seType ev; seTarget := seTarget ev; seRelatedTarget := seRelatedTarget ev;
     seCurrentTarget := seCurrentTarget ev; seClientX := seClientX ev; seClientY := seClientY ev;
     propagationStopped := propagationStopped ev; defaultPrevented := true;
     nativeEvent := nativeEvent ev; seExtra := seExtra ev |}.

(** ** Handlers and the listener registry *)

(** What a handler is called with: [this] and the event's [type], [target],
    [currentTarget] and [relatedTarget], facades by their id. *)
Record HandlerInput : Type := mkInput {
  hiThis : nat;
  hiType : EventType;
  hiTarget : nat;
  hiCurrentTarget : option nat;
  hiRelatedTarget : option nat
}.

(** What a handler does with the event before it returns or throws. A
    handler acts on the event it is given; it does not call back into the
    world or change the registry while the dispatch runs. *)
Record HandlerEffect : Type := mkEffect {
  callsStopPropagation : bool;
  callsPreventDefault : bool;
  throws : option Exn
}.

Record Handler : Type := mkHandler {
  handlerName : nat;
  handlerBody : HandlerInput -> HandlerEffect
}.

Record Listener : Type := mkListener {
  listenerType : EventType;
  listenerFacadeId : nat;
  listenerHandler : Handler
}.

(** Modelled from the spec: the listener registry, whose file
    [EventRegistry.js] is not among the sources. It maps an event type to a
    map from facade id to handlers, here the listeners in registration order.
    The pipeline also calls [hasFacadeListenersOfType] with the event type as
    its only argument; nothing describes that method, so the answer the
    registry gives to such a call is a field of its own. *)
Record EventRegistry : Type := mkRegistry {
  listeners : list Listener;
  hasFacadeListenersOfType : EventType -> bool
}.

Definition listensTo (type : EventType) (id : nat) (l : Listener) : bool :=
  String.eqb (listenerType l) type && Nat.eqb (listenerFacadeId l) id.

(** Modelled from the spec: the handlers
    [forEachFacadeListenerOfType(facade, type, ...)] of the missing
    [EventRegistry.js] visits, every handler of the type registered on the
    facade, in registration order. *)
Definition handlersOf (reg : EventRegistry) (type : EventType) (id : nat) : list Handler :=
  List.map listenerHandler (List.filter (listensTo type id) (listeners reg)).

(** Modelled from the spec: [hasAnyListenersOfType(type)] of the missing
    [EventRegistry.js], whether any facade has a listener of the type. *)
Definition hasAnyListenersOfType (reg : EventRegistry) (type : EventType) : bool :=
  List.existsb (fun l => String.eqb (listenerType l) type) (listeners reg).

(** Modelled from the spec: [hasFacadeListenersOfType(facade, type)] of the
    missing [EventRegistry.js], over the registry the specification
    describes, a mapping from event type to a mapping from object identifier
    to handler: whether the facade has a handler of the type. The first
    argument is a facade or, as [_hasEventHandlerInParentTree] passes it, the
    name of an event type; a second argument that is left out is
    [undefined], a type under which nothing is registered. *)
Definition hasFacadeListenersOfTypeAt (reg : EventRegistry) (facade : Facade + EventType)
    (type : option EventType) : bool :=
  match type, facade with
  | Some ty, inl f => List.existsb (listensTo ty (facadeId f)) (listeners reg)
  | Some _, inr _ => false
  | None, _ => false
  end.

(** The registry answers the call with the event type as its only argument
    as the method above does. *)
Definition answersAsSpecified (reg : EventRegistry) : Prop :=
  forall type, hasFacadeListenersOfType reg type = hasFacadeListenersOfTypeAt reg (inr type) None.

(** ** What a run of the pipeline shows from outside *)

Inductive Caller : Type :=
| ByPipeline
| ByHandler (name : nat).

Inductive Obs : Type :=
| Fired (type : EventType) (target : nat) (relatedTarget : option nat)
| Called (name : nat) (input : HandlerInput)
| NativePreventDefault (by_ : Caller)
| NativeStopPropagation (by_ : Caller).

(** ** Bubbling dispatch *)

Definition inputOf (cur : Facade) (ev : SyntheticEvent) : HandlerInput :=
  {| hiThis := facadeId cur; hiType := seType ev; hiTarget := facadeId (seTarget ev);
     hiCurrentTarget := option_map facadeId (seCurrentTarget ev);
     hiRelatedTarget := option_map facadeId (seRelatedTarget ev) |}.

(** The observations, the event afterwards and the exception, if any. *)
Definition Walk : Type := list Obs * SyntheticEvent * option Exn.

(** [handler.call(currentTarget, newEvent)] *)
Definition callHandler (cur : Facade) (h : Handler) (ev : SyntheticEvent) : Walk :=
  let input := inputOf cur ev in
  let eff := handlerBody h input in
  let ev1 := if callsStopPropagation eff then setPropagationStopped ev else ev in
  let ev2 := if callsPreventDefault eff then setDefaultPrevented ev1 else ev1 in
  ([Called (handlerName h) input]
     ++ (if callsStopPropagation eff then [NativeStopPropagation (ByHandler (handlerName h))] else [])
     ++ (if callsPreventDefault eff then [NativePreventDefault (ByHandler (handlerName h))] else []),
   ev2, throws eff).

(** Modelled from the spec: the loop inside
    [forEachFacadeListenerOfType(currentTarget, eventType, callHandler, null)]
    of the missing [EventRegistry.js], over the handlers found: each is
    called in turn, and a handler that throws ends the loop with its
    exception, which the registry does not catch (the specification's
    failure semantics: a handler throwing during dispatch propagates to the
    caller). *)
Fixpoint forEachHandler (cur : Facade) (hs : list Handler) (ev : SyntheticEvent) : Walk :=
  match hs with
  | [] => ([], ev, None)
  | h :: hs' =>
      match callHandler cur h ev with
      | (o1, ev1, Some x) => (o1, ev1, Some x)
      | (o1, ev1, None) =>
          match forEachHandler cur hs' ev1 with
          | (o2, ev2, x) => (o1 ++ o2, ev2, x)
          end
      end
  end.

(** The loop of [_firePointerEvent], entered with [currentTarget] a facade. *)
Fixpoint bubble (reg : EventRegistry) (eventType : EventType)
    (currentTarget : Facade) (newEvent : SyntheticEvent) : Walk :=
  if propagationStopped newEvent then ([], newEvent, None)
  else
    match forEachHandler currentTarget
            (handlersOf reg eventType (facadeId currentTarget))
            (setCurrentTarget newEvent currentTarget) with
    | (o1, ev1, Some x) => (o1, ev1, Some x)
    | (o1, ev1, None) =>
        match currentTarget with
        | mkFacade _ (Some p) _ _ =>
            match bubble reg eventType p ev1 with
            | (o2, ev2, x) => (o1 ++ o2, ev2, x)
            end
        | mkFacade _ None _ _ => (o1, ev1, None)
        end
    end.

(** ** The pipeline's state *)

Record DragInfo : Type := mkDragInfo {
  draggedFacade : Facade;
  dragStartFired : bool;
  dragStartEvent : SyntheticEvent
}.

Record TapInfo : Type := mkTapInfo {
  tapFacade : Facade;
  tapX : Z;
  tapY : Z;
  startTime : Z;
  isDblClick : bool
}.

(** [$hoveredFacade], [$dragInfo], [$tapInfo]; whether [_onDropEvent] is
    registered on the document and [killEvent] on the element's contextmenu;
    and everything observed so far. *)
Record World : Type := mkWorld {
  hoveredFacade : option Facade;
  dragInfo : option DragInfo;
  tapInfo : option TapInfo;
  dropListening : bool;
  contextMenuKilled : bool;
  trace : list Obs
}.

Definition initialWorld : World :=
  {| hoveredFacade := None; dragInfo := None; tapInfo := None;
     dropListening := false; contextMenuKilled := false; trace := [] |}.

(** What a world is built on. [pointerMotionEventTypes] and
    [pointerActionEventTypes] come from [PointerEventTarget.js] and
    [getFacadesAtPosition] is the abstract method the subclass implements;
    neither is among the sources read here. *)
Record Config : Type := mkConfig {
  eventRegistry : EventRegistry;
  pointerMotionEventTypes : list EventType;
  pointerActionEventTypes : list EventType;
  getFacadesAtPosition : Z -> Z -> option (list Hit)
}.

Definition TAP_DISTANCE_THRESHOLD : Z := 10.
Definition TAP_GESTURE_MAX_DUR : Z := 300.
Definition TAP_DBLCLICK_MAX_DUR : Z := 300.

(** [pointerActionEventTypeMappings[e.type] || e.type] *)
Definition mappedActionType (type : EventType) : EventType :=
  if String.eqb type "touchstart" then "mousedown"
  else if String.eqb type "touchend" then "mouseup"
  else if String.eqb type "touchcancel" then "mouseup"
  else type.

(** State and exceptions: a method takes the world and gives the world back
    with its result or with what it threw. *)
Definition M (A : Type) : Type := World -> World * Outcome A.

Definition ret {A : Type} (a : A) : M A := fun w => (w, Returned a).

Definition bind {A B : Type} (m : M A) (k : A -> M B) : M B :=
  fun w =>
    match m w with
    | (w', Returned a) => k a w'
    | (w', Thrown e) => (w', Thrown e)
    end.

Definition throw {A : Type} (e : Exn) : M A := fun w => (w, Thrown e).

Definition gets {A : Type} (f : World -> A) : M A := fun w => (w, Returned (f w)).

Definition modify (f : World -> World) : M unit := fun w => (f w, Returned tt).

Notation "x <~ m ;; k" := (bind m (fun x => k))
  (at level 100, m at next level, right associativity).
Notation "m ;;; k" := (bind m (fun _ => k))
  (at level 100, right associativity).

Definition when (b : bool) (m : M unit) : M unit := if b then m else ret tt.

Definition setHovered (h : option Facade) (w : World) : World :=
  {| hoveredFacade := h; dragInfo := dragInfo w; tapInfo := tapInfo w;
     dropListening := dropListening w; contextMenuKilled := contextMenuKilled w;
     trace := trace w |}.

Definition setDragInfo (d : option DragInfo) (w : World) : World :=
  {| hoveredFacade := hoveredFacade w; dragInfo := d; tapInfo := tapInfo w;
     dropListening := dropListening w; contextMenuKilled := contextMenuKilled w;
     trace := trace w |}.

Definition setTapInfo (t : option TapInfo) (w : World) : World :=
  {| hoveredFacade := hoveredFacade w; dragInfo := dragInfo w; tapInfo := t;
     dropListening := dropListening w; contextMenuKilled := contextMenuKilled w;
     trace := trace w |}.

Definition setDropListening (b : bool) (w : World) : World :=
  {| hoveredFacade := hoveredFacade w; dragInfo := dragInfo w; tapInfo := tapInfo w;
     dropListening := b; contextMenuKilled := contextMenuKilled w;
     trace := trace w |}.

Definition setContextMenuKilled (b : bool) (w : World) : World :=
  {| hoveredFacade := hoveredFacade w; dragInfo := dragInfo w; tapInfo := tapInfo w;
     dropListening := dropListening w; contextMenuKilled := b;
     trace := trace w |}.

Definition observe (obs : list Obs) (w : World) : World :=
  {| hoveredFacade := hoveredFacade w; dragInfo := dragInfo w; tapInfo := tapInfo w;
     dropListening := dropListening w; contextMenuKilled := contextMenuKilled w;
     trace := trace w ++ obs |}.

(** The event object held in [$dragInfo] is the one [_firePointerEvent]
    mutates when it is handed [dragInfo.dragStartEvent]. *)
Definition storeDragStartEvent (ev : SyntheticEvent) (w : World) : World :=
  setDragInfo
    (option_map (fun d => {| draggedFacade := draggedFacade d;
                             dragStartFired := dragStartFired d;
                             dragStartEvent := ev |}) (dragInfo w)) w.

Definition markDragStartFired (w : World) : World :=
  setDragInfo
    (option_map (fun d => {| draggedFacade := draggedFacade d;
                             dragStartFired := true;
                             dragStartEvent := dragStartEvent d |}) (dragInfo w)) w.

(** ** The methods of [WorldBaseFacade] *)

Section Pipeline.
Variable cfg : Config.

(** [_firePointerEvent(eventType, originalEvent, targetFacade,
    relatedTargetFacade, extra)]; [originalEvent] is a native event or the
    synthetic event kept in [$dragInfo]. *)
Definition _firePointerEvent (eventType : EventType)
    (originalEvent : NativeEvent + SyntheticEvent) (targetFacade : Facade)
    (relatedTargetFacade : option Facade) (extra : option Hit) : M unit :=
  fun w =>
    let newEvent :=
      match originalEvent with
      | inr se => se
      | inl e => newSyntheticEvent e eventType targetFacade relatedTargetFacade extra
      end in
    match bubble (eventRegistry cfg) eventType targetFacade newEvent with
    | (obs, ev', x) =>
        let w1 :=
          observe (Fired eventType (facadeId targetFacade)
                     (option_map facadeId relatedTargetFacade) :: obs) w in
        let w2 :=
          match originalEvent with
          | inr _ => storeDragStartEvent ev' w1
          | inl _ => w1
          end in
        (w2, match x with Some e => Thrown e | None => Returned tt end)
    end.

(** [_hasEventHandlerInParentTree(targetFacade, eventType)] *)
Fixpoint _hasEventHandlerInParentTree (targetFacade : Facade) (eventType : EventType) : bool :=
  if hasFacadeListenersOfType (eventRegistry cfg) eventType then true
  else
    match targetFacade with
    | mkFacade _ (Some p) _ _ => _hasEventHandlerInParentTree p eventType
    | mkFacade _ None _ _ => false
    end.

Definition _toggleDropListeners (on : bool) : M unit := modify (setDropListening on).

Definition _enableContextMenu (enable : bool) : M unit :=
  modify (setContextMenuKilled (negb enable)).

(** [e.touches] and [e.changedTouches], read where the code reads a property
    of them: a [TypeError] when the event has none. *)
Definition touchesOf (e : NativeEvent) : M (list Touch) :=
  match touchLists e with
  | Some (touches, _) => ret touches
  | None => throw TypeError
  end.

Definition changedTouchesOf (e : NativeEvent) : M (list Touch) :=
  match touchLists e with
  | Some (_, changedTouches) => ret changedTouches
  | None => throw TypeError
  end.

(** [getFacadesAtEvent(e)] *)
Definition getFacadesAtEvent (e : NativeEvent) : Outcome (option (list Hit)) :=
  match touchLists e with
  | Some (touches, changedTouches) =>
      if (1 <? length touches)%nat then Returned None
      else
        match touches, changedTouches with
        | t :: _, _ => Returned (getFacadesAtPosition cfg (touchClientX t) (touchClientY t))
        | [], t :: _ => Returned (getFacadesAtPosition cfg (touchClientX t) (touchClientY t))
        | [], [] => Thrown TypeError
        end
  | None => Returned (getFacadesAtPosition cfg (evClientX e) (evClientY e))
  end.

(** [_findHoverTarget(e)] *)
Definition hoverTarget (e : NativeEvent) : Outcome (option Hit) :=
  match getFacadesAtEvent e with
  | Returned allHits => Returned (findHoverTargetIn allHits)
  | Thrown x => Thrown x
  end.

Definition _findHoverTarget (e : NativeEvent) : M (option Hit) :=
  fun w => (w, hoverTarget e).

Definition anyListenersOfTypes (types : list EventType) : bool :=
  List.existsb (hasAnyListenersOfType (eventRegistry cfg)) types.

(** [Math.sqrt(Math.pow(dx, 2) + Math.pow(dy, 2)) > TAP_DISTANCE_THRESHOLD],
    on integers: the root rounded up exceeds the threshold exactly when the
    root does. *)
Definition movedPastThreshold (touch : Touch) (tap : TapInfo) : bool :=
  TAP_DISTANCE_THRESHOLD <?
    Z.sqrt_up ((touchClientX touch - tapX tap) ^ 2 + (touchClientY touch - tapY tap) ^ 2).

Definition isSome {A : Type} (o : option A) : bool :=
  match o with Some _ => true | None => false end.

(** [_onPointerMotionEvent(e)] *)
Definition _onPointerMotionEvent (e : NativeEvent) : M unit :=
  when (anyListenersOfTypes (pointerMotionEventTypes cfg)) (
    dragInfo0 <~ gets dragInfo ;;
    match dragInfo0 with
    | Some d =>
        when (negb (dragStartFired d)) (
          _firePointerEvent "dragstart" (inr (dragStartEvent d)) (draggedFacade d) None None ;;;
          modify markDragStartFired) ;;;
        _firePointerEvent "drag" (inl e) (draggedFacade d) None None
    | None => ret tt
    end ;;;
    lastHovered <~ gets hoveredFacade ;;
    hoverInfo <~ (if String.eqb (evType e) "mouseout" || isTouchEndOrCancel e
                  then ret None else _findHoverTarget e) ;;
    let hovered := option_map hitFacade hoverInfo in
    modify (setHovered hovered) ;;;
    when (negb (sameFacadeOpt hovered lastHovered)) (
      match lastHovered with
      | Some last =>
          _firePointerEvent "mouseout" (inl e) last hovered hoverInfo ;;;
          when (isSome dragInfo0)
            (_firePointerEvent "dragleave" (inl e) last hovered hoverInfo)
      | None => ret tt
      end ;;;
      match hovered with
      | Some h =>
          _firePointerEvent "mouseover" (inl e) h lastHovered hoverInfo ;;;
          when (isSome dragInfo0)
            (_firePointerEvent "dragenter" (inl e) h lastHovered hoverInfo)
      | None => ret tt
      end) ;;;
    match hovered with
    | Some h =>
        _firePointerEvent "mousemove" (inl e) h None hoverInfo ;;;
        when (isSome dragInfo0)
          (_firePointerEvent "dragover" (inl e) h None hoverInfo)
    | None => ret tt
    end) ;;;
  tapInfo0 <~ gets tapInfo ;;
  match tapInfo0 with
  | Some tap =>
      if String.eqb (evType e) "touchmove" then
        changedTouches <~ changedTouchesOf e ;;
        match changedTouches with
        | touch :: _ =>
            when (movedPastThreshold touch tap) (modify (setTapInfo None))
        | [] => ret tt
        end
      else ret tt
  | None => ret tt
  end.

(** The two tests that open tap recognition. *)
Definition tapGate (facade : Facade) : bool :=
  _hasEventHandlerInParentTree facade "click" || _hasEventHandlerInParentTree facade "dblclick".

(** The test that opens the handling of an action event. *)
Definition actionGate : bool :=
  hasAnyListenersOfType (eventRegistry cfg) "dragstart"
  || anyListenersOfTypes (pointerActionEventTypes cfg).

Definition motionGate : bool := anyListenersOfTypes (pointerMotionEventTypes cfg).

(** [_onPointerActionEvent(e)]; [now] is what [Date.now()] reads while the
    event is handled. *)
Definition _onPointerActionEvent (e : NativeEvent) (now : Z) : M unit :=
  when (String.eqb (evType e) "touchstart") (
    touches <~ touchesOf e ;;
    when (Nat.eqb (length touches) 1) (_onPointerMotionEvent e) ;;;
    _enableContextMenu false) ;;;
  when actionGate (
    hoverInfo <~ _findHoverTarget e ;;
    match hoverInfo with
    | Some hit =>
        let facade := hitFacade hit in
        _firePointerEvent (mappedActionType (evType e)) (inl e) facade None hoverInfo ;;;
        when (tapGate facade) (
          tapInfo0 <~ gets tapInfo ;;
          singleTouchStart <~ (if String.eqb (evType e) "touchstart"
                               then touches <~ touchesOf e ;; ret (Nat.eqb (length touches) 1)
                               else ret false) ;;
          if singleTouchStart then
            touches <~ touchesOf e ;;
            match touches with
            | t :: _ =>
                modify (setTapInfo (Some
                  {| tapFacade := facade;
                     tapX := touchClientX t;
                     tapY := touchClientY t;
                     startTime := now;
                     isDblClick :=
                       match tapInfo0 with
                       | Some tap => now - startTime tap <? TAP_DBLCLICK_MAX_DUR
                       | None => false
                       end |}))
            | [] => throw TypeError
            end
          else
            match tapInfo0 with
            | Some tap =>
                if sameFacade (tapFacade tap) facade && String.eqb (evType e) "touchend" then
                  touches <~ touchesOf e ;;
                  changedTouches <~ changedTouchesOf e ;;
                  when (Nat.eqb (length touches) 0 && Nat.eqb (length changedTouches) 1
                        && (now - startTime tap <? TAP_GESTURE_MAX_DUR)) (
                    _firePointerEvent "click" (inl e) facade None hoverInfo ;;;
                    when (isDblClick tap)
                      (_firePointerEvent "dblclick" (inl e) facade None hoverInfo))
                else ret tt
            | None => ret tt
            end) ;;;
        when (onDragStart facade
              && (String.eqb (evType e) "mousedown" || String.eqb (evType e) "touchstart")) (
          modify (setDragInfo (Some
            {| draggedFacade := facade;
               dragStartFired := false;
               dragStartEvent := newSyntheticEvent e "dragstart" facade None None |})) ;;;
          _toggleDropListeners true)
    | None => ret tt
    end ;;;
    modify (observe [NativePreventDefault ByPipeline])) ;;;
  when (isTouchEndOrCancel e) (
    changedTouches <~ changedTouchesOf e ;;
    when (Nat.eqb (length changedTouches) 1) (_onPointerMotionEvent e) ;;;
    _enableContextMenu true).

(** [_onDropEvent(e)] *)
Definition _onDropEvent (e : NativeEvent) : M unit :=
  dragInfo0 <~ gets dragInfo ;;
  match dragInfo0 with
  | Some d =>
      hoverInfo <~ (if targetIsElement e then _findHoverTarget e else ret None) ;;
      match hoverInfo with
      | Some hit => _firePointerEvent "drop" (inl e) (hitFacade hit) None hoverInfo
      | None => ret tt
      end ;;;
      _firePointerEvent "dragend" (inl e) (draggedFacade d) None hoverInfo ;;;
      _toggleDropListeners false ;;;
      modify (setDragInfo None)
  | None => ret tt
  end.

(** The listeners the world installs: motion and action events on its
    element, release events on the document while [_onDropEvent] is
    registered there. *)
Inductive Input : Type :=
| Motion (e : NativeEvent)
| Action (e : NativeEvent) (now : Z)
| Release (e : NativeEvent).

Definition deliver (i : Input) : M unit :=
  match i with
  | Motion e => _onPointerMotionEvent e
  | Action e now => _onPointerActionEvent e now
  | Release e => dl <~ gets dropListening ;; when dl (_onDropEvent e)
  end.

Fixpoint deliverAll (inputs : list Input) : M unit :=
  match inputs with
  | [] => ret tt
  | i :: rest => deliver i ;;; deliverAll rest
  end.
End Pipeline.

(** ** The walk of a dispatch, as the specification words it *)

Section WalkSpec.
Variable reg : EventRegistry.
Variable eventType : EventType.
(** The event as it enters the walk. *)
Variable ev0 : SyntheticEvent.

(** What every handler on [node] is called with. *)
Definition inputAt (node : Facade) : HandlerInput :=
  {| hiThis := facadeId node; hiType := seType ev0;
     hiTarget := facadeId (seTarget ev0);
     hiCurrentTarget := Some (facadeId node);
     hiRelatedTarget := option_map facadeId (seRelatedTarget ev0) |}.

Definition effectAt (call : Facade * Handler) : HandlerEffect :=
  handlerBody (snd call) (inputAt (fst call)).

Definition callsOn (node : Facade) : list (Facade * Handler) :=
  List.map (pair node) (handlersOf reg eventType (facadeId node)).

(** Some handler on [node] calls [stopPropagation]. *)
Definition stopsAt (node : Facade) : bool :=
  List.existsb (fun c => callsStopPropagation (effectAt c)) (callsOn node).

(** The nodes the walk reaches: up the chain, through the first node on
    which propagation is stopped. *)
Fixpoint visited (nodes : list Facade) : list Facade :=
  match nodes with
  | [] => []
  | n :: rest => n :: (if stopsAt n then [] else visited rest)
  end.

(** Every handler of every node reached, in order. *)
Definition schedule (target : Facade) : list (Facade * Handler) :=
  List.flat_map callsOn (visited (chain target)).

(** The calls made when handlers may throw: through the first that does. *)
Fixpoint cutAtThrow (calls : list (Facade * Handler)) : list (Facade * Handler) :=
  match calls with
  | [] => []
  | c :: rest =>
      match throws (effectAt c) with
      | Some _ => [c]
      | None => c :: cutAtThrow rest
      end
  end.

Fixpoint firstThrow (calls : list (Facade * Handler)) : option Exn :=
  match calls with
  | [] => None
  | c :: rest =>
      match throws (effectAt c) with
      | Some x => Some x
      | None => firstThrow rest
      end
  end.

Definition calledObs (call : Facade * Handler) : Obs :=
  Called (handlerName (snd call)) (inputAt (fst call)).
End WalkSpec.

(** The handler calls among the observations. *)
Definition isCalled (o : Obs) : bool :=
  match o with Called _ _ => true | _ => false end.

Definition calledOf (obs : list Obs) : list Obs := List.filter isCalled obs.

(** The dispatches among the observations: type and target. *)
Definition firedOf (obs : list Obs) : list (EventType * nat) :=
  List.flat_map (fun o => match o with Fired t f _ => [(t, f)] | _ => [] end) obs.

(** No registered handler throws. *)
Definition NoThrow (reg : EventRegistry) : Prop :=
  forall l input, In l (listeners reg) ->
    throws (handlerBody (listenerHandler l) input) = None.

(** What the call of one handler shows. *)
Definition obsOfCall (ev0 : SyntheticEvent) (c : Facade * Handler) : list Obs :=
  [calledObs ev0 c]
    ++ (if callsStopPropagation (effectAt ev0 c)
        then [NativeStopPropagation (ByHandler (handlerName (snd c)))] else [])
    ++ (if callsPreventDefault (effectAt ev0 c)
        then [NativePreventDefault (ByHandler (handlerName (snd c)))] else []).

(** Two events that differ at most in [currentTarget] and the two flags. *)
Definition sameStatic (a b : SyntheticEvent) : Prop :=
  seType a = seType b /\ seTarget a = seTarget b /\ seRelatedTarget a = seRelatedTarget b.


(** What one dispatch of a native event adds to the trace. *)
Definition dispatchObs (cfg : Config) (ty : EventType) (e : NativeEvent)
    (f : Facade) (rel : option Facade) (extra : option Hit) : list Obs :=
  let ev0 := newSyntheticEvent e ty f rel extra in
  Fired ty (facadeId f) (option_map facadeId rel)
    :: List.flat_map (obsOfCall ev0)
         (cutAtThrow ev0 (schedule (eventRegistry cfg) ty ev0 f)).


(** An observation made from inside a handler call. *)
Definition fromHandler (o : Obs) : bool :=
  match o with
  | Called _ _ => true
  | NativePreventDefault (ByHandler _) => true
  | NativeStopPropagation (ByHandler _) => true
  | _ => false
  end.

(** The calls of [e.preventDefault()] the pipeline makes itself. *)
Definition isPipelinePrevent (o : Obs) : bool :=
  match o with NativePreventDefault ByPipeline => true | _ => false end.

Definition pipelinePreventsOf (obs : list Obs) : list Obs := List.filter isPipelinePrevent obs.

(** What the dispatch of the synthetic event kept in [$dragInfo] adds. *)
Definition syntheticDispatchObs (cfg : Config) (ty : EventType) (se : SyntheticEvent)
    (f : Facade) : list Obs :=
  Fired ty (facadeId f) None :: fst (fst (bubble (eventRegistry cfg) ty f se)).

(** The specification's "the hover target is unchanged", apart from the
    identity test of the code: the previous and the new target are both
    absent, or both are the object with the same identifier. *)
Definition unchangedTarget (prev new : option Facade) : bool :=
  match option_map facadeId prev, option_map facadeId new with
  | Some p, Some n => Nat.eqb p n
  | None, None => true
  | _, _ => false
  end.

(** ** The motion handler, block by block *)

Section MotionBlocks.
Variable cfg : Config.

(** The drag block of [_onPointerMotionEvent]. *)
Definition motionDrag (dragInfo0 : option DragInfo) (e : NativeEvent) : M unit :=
  match dragInfo0 with
  | Some d =>
      when (negb (dragStartFired d)) (
        _firePointerEvent cfg "dragstart" (inr (dragStartEvent d)) (draggedFacade d) None None ;;;
        modify markDragStartFired) ;;;
      _firePointerEvent cfg "drag" (inl e) (draggedFacade d) None None
  | None => ret tt
  end.

(** Its hover block. *)
Definition motionHover (dragInfo0 : option DragInfo) (e : NativeEvent) : M unit :=
  lastHovered <~ gets hoveredFacade ;;
  hoverInfo <~ (if String.eqb (evType e) "mouseout" || isTouchEndOrCancel e
                then ret None else _findHoverTarget cfg e) ;;
  let hovered := option_map hitFacade hoverInfo in
  modify (setHovered hovered) ;;;
  when (negb (sameFacadeOpt hovered lastHovered)) (
    match lastHovered with
    | Some last =>
        _firePointerEvent cfg "mouseout" (inl e) last hovered hoverInfo ;;;
        when (isSome dragInfo0)
          (_firePointerEvent cfg "dragleave" (inl e) last hovered hoverInfo)
    | None => ret tt
    end ;;;
    match hovered with
    | Some h =>
        _firePointerEvent cfg "mouseover" (inl e) h lastHovered hoverInfo ;;;
        when (isSome dragInfo0)
          (_firePointerEvent cfg "dragenter" (inl e) h lastHovered hoverInfo)
    | None => ret tt
    end) ;;;
  match hovered with
  | Some h =>
      _firePointerEvent cfg "mousemove" (inl e) h None hoverInfo ;;;
      when (isSome dragInfo0)
        (_firePointerEvent cfg "dragover" (inl e) h None hoverInfo)
  | None => ret tt
  end.

(** Its last block, which drops a pending tap. *)
Definition motionTapCancel (e : NativeEvent) : M unit :=
  tapInfo0 <~ gets tapInfo ;;
  match tapInfo0 with
  | Some tap =>
      if String.eqb (evType e) "touchmove" then
        changedTouches <~ changedTouchesOf e ;;
        match changedTouches with
        | touch :: _ =>
            when (movedPastThreshold touch tap) (modify (setTapInfo None))
        | [] => ret tt
        end
      else ret tt
  | None => ret tt
  end.

(** What the hit test of a motion event gives: none is made on [mouseout]
    and on the end of a touch. *)
Definition motionHoverInfo (e : NativeEvent) : Outcome (option Hit) :=
  if String.eqb (evType e) "mouseout" || isTouchEndOrCancel e
  then Returned None else hoverTarget cfg e.

(** The hover transition in the specification's words: when the target
    changed, [mouseout] (and [dragleave] while dragging) on the previous
    target if there is one, then [mouseover] (and [dragenter]) on the new
    one if there is one; then [mousemove] (and [dragover]) on the target
    now hovered. *)
Definition hoverObs (e : NativeEvent) (prev : option Facade) (hoverInfo : option Hit)
    (dragging : bool) : list Obs :=
  let hovered := option_map hitFacade hoverInfo in
  (if unchangedTarget prev hovered then []
   else
     match prev with
     | Some last =>
         dispatchObs cfg "mouseout" e last hovered hoverInfo
         ++ (if dragging then dispatchObs cfg "dragleave" e last hovered hoverInfo else [])
     | None => []
     end
     ++
     match hovered with
     | Some h =>
         dispatchObs cfg "mouseover" e h prev hoverInfo
         ++ (if dragging then dispatchObs cfg "dragenter" e h prev hoverInfo else [])
     | None => []
     end)
  ++
  match hovered with
  | Some h =>
      dispatchObs cfg "mousemove" e h None hoverInfo
      ++ (if dragging then dispatchObs cfg "dragover" e h None hoverInfo else [])
  | None => []
  end.

(** What the drag block adds: [dragstart] if it was not fired yet, then
    [drag]. *)
Definition dragObs (e : NativeEvent) (dragInfo0 : option DragInfo) : list Obs :=
  match dragInfo0 with
  | Some d =>
      (if dragStartFired d then []
       else syntheticDispatchObs cfg "dragstart" (dragStartEvent d) (draggedFacade d))
      ++ dispatchObs cfg "drag" e (draggedFacade d) None None
  | None => []
  end.

Definition dragAfterMotion (dragInfo0 : option DragInfo) : option DragInfo :=
  match dragInfo0 with
  | Some d =>
      if dragStartFired d then Some d
      else Some {| draggedFacade := draggedFacade d;
                   dragStartFired := true;
                   dragStartEvent :=
                     snd (fst (bubble (eventRegistry cfg) "dragstart"
                                 (draggedFacade d) (dragStartEvent d))) |}
  | None => None
  end.

Definition tapAfterMotion (e : NativeEvent) (tapInfo0 : option TapInfo) : option TapInfo :=
  match tapInfo0 with
  | Some tap =>
      if String.eqb (evType e) "touchmove" then
        match touchLists e with
        | Some (_, touch :: _) => if movedPastThreshold touch tap then None else Some tap
        | _ => Some tap
        end
      else Some tap
  | None => None
  end.

(** A touch-typed event carries its touch lists, with a touch to take the
    position from. *)
Definition isTouchType (type : EventType) : bool :=
  String.eqb type "touchstart" || String.eqb type "touchmove"
  || String.eqb type "touchend" || String.eqb type "touchcancel".

Definition wellFormedEvent (e : NativeEvent) : bool :=
  match touchLists e with
  | Some ([], []) => false
  | Some _ => true
  | None => negb (isTouchType (evType e))
  end.

(** The world a motion event leaves, when no handler throws. *)
Definition worldAfterMotion (e : NativeEvent) (hoverInfo : option Hit) (w : World) : World :=
  if motionGate cfg then
    {| hoveredFacade := option_map hitFacade hoverInfo;
       dragInfo := dragAfterMotion (dragInfo w);
       tapInfo := tapAfterMotion e (tapInfo w);
       dropListening := dropListening w;
       contextMenuKilled := contextMenuKilled w;
       trace := trace w ++ dragObs e (dragInfo w)
                  ++ hoverObs e (hoveredFacade w) hoverInfo (isSome (dragInfo w)) |}
  else setTapInfo (tapAfterMotion e (tapInfo w)) w.
End MotionBlocks.

(** ** The action handler, block by block *)

Section ActionBlocks.
Variable cfg : Config.

(** A touch start is first handled as a motion. *)
Definition actionTouchStart (e : NativeEvent) : M unit :=
  when (String.eqb (evType e) "touchstart") (
    touches <~ touchesOf e ;;
    when (Nat.eqb (length touches) 1) (_onPointerMotionEvent cfg e) ;;;
    _enableContextMenu false).

(** The tap block, entered with the target found. *)
Definition actionTap (e : NativeEvent) (now : Z) (hoverInfo : option Hit)
    (facade : Facade) : M unit :=
  when (tapGate cfg facade) (
    tapInfo0 <~ gets tapInfo ;;
    singleTouchStart <~ (if String.eqb (evType e) "touchstart"
                         then touches <~ touchesOf e ;; ret (Nat.eqb (length touches) 1)
                         else ret false) ;;
    if singleTouchStart then
      touches <~ touchesOf e ;;
      match touches with
      | t :: _ =>
          modify (setTapInfo (Some
            {| tapFacade := facade;
               tapX := touchClientX t;
               tapY := touchClientY t;
               startTime := now;
               isDblClick :=
                 match tapInfo0 with
                 | Some tap => now - startTime tap <? TAP_DBLCLICK_MAX_DUR
                 | None => false
                 end |}))
      | [] => throw TypeError
      end
    else
      match tapInfo0 with
      | Some tap =>
          if sameFacade (tapFacade tap) facade && String.eqb (evType e) "touchend" then
            touches <~ touchesOf e ;;
            changedTouches <~ changedTouchesOf e ;;
            when (Nat.eqb (length touches) 0 && Nat.eqb (length changedTouches) 1
                  && (now - startTime tap <? TAP_GESTURE_MAX_DUR)) (
              _firePointerEvent cfg "click" (inl e) facade None hoverInfo ;;;
              when (isDblClick tap)
                (_firePointerEvent cfg "dblclick" (inl e) facade None hoverInfo))
          else ret tt
      | None => ret tt
      end).

(** The drag block. *)
Definition actionDrag (e : NativeEvent) (facade : Facade) : M unit :=
  when (onDragStart facade
        && (String.eqb (evType e) "mousedown" || String.eqb (evType e) "touchstart")) (
    modify (setDragInfo (Some
      {| draggedFacade := facade;
         dragStartFired := false;
         dragStartEvent := newSyntheticEvent e "dragstart" facade None None |})) ;;;
    _toggleDropListeners true).

(** The part behind the listener test. *)
Definition actionMain (e : NativeEvent) (now : Z) : M unit :=
  when (actionGate cfg) (
    hoverInfo <~ _findHoverTarget cfg e ;;
    match hoverInfo with
    | Some hit =>
        _firePointerEvent cfg (mappedActionType (evType e)) (inl e) (hitFacade hit) None hoverInfo ;;;
        actionTap e now hoverInfo (hitFacade hit) ;;;
        actionDrag e (hitFacade hit)
    | None => ret tt
    end ;;;
    modify (observe [NativePreventDefault ByPipeline])).

(** The end of a touch is also handled as a motion. *)
Definition actionTouchEnd (e : NativeEvent) : M unit :=
  when (isTouchEndOrCancel e) (
    changedTouches <~ changedTouchesOf e ;;
    when (Nat.eqb (length changedTouches) 1) (_onPointerMotionEvent cfg e) ;;;
    _enableContextMenu true).

(** [e.type === 'touchstart' && e.touches.length === 1] *)
Definition singleTouchStart (e : NativeEvent) : bool :=
  String.eqb (evType e) "touchstart"
  && match touchLists e with
     | Some (touches, _) => Nat.eqb (length touches) 1
     | None => false
     end.

(** The test a touch end passes to be the end of the pending tap. *)
Definition endsTap (e : NativeEvent) (now : Z) (facade : Facade) (tap : TapInfo) : bool :=
  sameFacade (tapFacade tap) facade && String.eqb (evType e) "touchend"
  && match touchLists e with
     | Some (touches, changedTouches) =>
         Nat.eqb (length touches) 0 && Nat.eqb (length changedTouches) 1
     | None => false
     end
  && (now - startTime tap <? TAP_GESTURE_MAX_DUR).

Definition tapObs (e : NativeEvent) (now : Z) (hit : Hit) (tapInfo0 : option TapInfo) : list Obs :=
  if tapGate cfg (hitFacade hit) && negb (singleTouchStart e) then
    match tapInfo0 with
    | Some tap =>
        if endsTap e now (hitFacade hit) tap then
          dispatchObs cfg "click" e (hitFacade hit) None (Some hit)
          ++ (if isDblClick tap
              then dispatchObs cfg "dblclick" e (hitFacade hit) None (Some hit) else [])
        else []
    | None => []
    end
  else [].

Definition tapAfterAction (e : NativeEvent) (now : Z) (hit : Hit)
    (tapInfo0 : option TapInfo) : option TapInfo :=
  if tapGate cfg (hitFacade hit) && singleTouchStart e then
    match touchLists e with
    | Some (t :: _, _) =>
        Some {| tapFacade := hitFacade hit;
                tapX := touchClientX t;
                tapY := touchClientY t;
                startTime := now;
                isDblClick :=
                  match tapInfo0 with
                  | Some tap => now - startTime tap <? TAP_DBLCLICK_MAX_DUR
                  | None => false
                  end |}
    | _ => tapInfo0
    end
  else tapInfo0.

Definition startsDrag (e : NativeEvent) (facade : Facade) : bool :=
  onDragStart facade
  && (String.eqb (evType e) "mousedown" || String.eqb (evType e) "touchstart").

(** The world the part behind the listener test leaves. *)
Definition worldAfterMain (e : NativeEvent) (now : Z) (hoverInfo : option Hit) (w : World) : World :=
  if actionGate cfg then
    match hoverInfo with
    | Some hit =>
        {| hoveredFacade := hoveredFacade w;
           dragInfo :=
             if startsDrag e (hitFacade hit)
             then Some {| draggedFacade := hitFacade hit;
                          dragStartFired := false;
                          dragStartEvent :=
                            newSyntheticEvent e "dragstart" (hitFacade hit) None None |}
             else dragInfo w;
           tapInfo := tapAfterAction e now hit (tapInfo w);
           dropListening := if startsDrag e (hitFacade hit) then true else dropListening w;
           contextMenuKilled := contextMenuKilled w;
           trace := trace w
                      ++ dispatchObs cfg (mappedActionType (evType e)) e (hitFacade hit) None (Some hit)
                      ++ tapObs e now hit (tapInfo w)
                      ++ [NativePreventDefault ByPipeline] |}
    | None => observe [NativePreventDefault ByPipeline] w
    end
  else w.

Definition worldAfterTouchStart (e : NativeEvent) (hoverInfo : option Hit) (w : World) : World :=
  if String.eqb (evType e) "touchstart" then
    setContextMenuKilled true
      (if singleTouchStart e then worldAfterMotion cfg e hoverInfo w else w)
  else w.

Definition worldAfterTouchEnd (e : NativeEvent) (w : World) : World :=
  if isTouchEndOrCancel e then
    setContextMenuKilled false
      (match touchLists e with
       | Some (_, [_]) => worldAfterMotion cfg e None w
       | _ => w
       end)
  else w.

(** The world an action event leaves, when no handler throws. *)
Definition worldAfterAction (e : NativeEvent) (now : Z) (hoverInfo : option Hit) (w : World) : World :=
  worldAfterTouchEnd e (worldAfterMain e now hoverInfo (worldAfterTouchStart e hoverInfo w)).

(** The world a release leaves while a drag is pending. *)
Definition worldAfterDrop (e : NativeEvent) (hoverInfo : option Hit) (w : World) : World :=
  match dragInfo w with
  | Some d =>
      let found := if targetIsElement e then hoverInfo else None in
      {| hoveredFacade := hoveredFacade w;
         dragInfo := None;
         tapInfo := tapInfo w;
         dropListening := false;
         contextMenuKilled := contextMenuKilled w;
         trace := trace w
                    ++ match found with
                       | Some hit => dispatchObs cfg "drop" e (hitFacade hit) None found
                       | None => []
                       end
                    ++ dispatchObs cfg "dragend" e (draggedFacade d) None found |}
  | None => w
  end.
End ActionBlocks.

(** ** What a run fires, event by event *)

Section Fired.
Variable cfg : Config.

Definition idOf (f : Facade) : nat := facadeId f.

(** The dispatches of a hover transition: type and target. *)
Definition hoverFired (prev : option Facade) (hoverInfo : option Hit) (dragging : bool)
    : list (EventType * nat) :=
  let hovered := option_map hitFacade hoverInfo in
  (if unchangedTarget prev hovered then []
   else
     match prev with
     | Some last => ("mouseout", idOf last) :: (if dragging then [("dragleave", idOf last)] else [])
     | None => []
     end
     ++
     match hovered with
     | Some h => ("mouseover", idOf h) :: (if dragging then [("dragenter", idOf h)] else [])
     | None => []
     end)
  ++
  match hovered with
  | Some h => ("mousemove", idOf h) :: (if dragging then [("dragover", idOf h)] else [])
  | None => []
  end.

Definition dragFired (dragInfo0 : option DragInfo) : list (EventType * nat) :=
  match dragInfo0 with
  | Some d =>
      (if dragStartFired d then [] else [("dragstart", idOf (draggedFacade d))])
      ++ [("drag", idOf (draggedFacade d))]
  | None => []
  end.

(** What a motion event adds to the trace. *)
Definition motionObs (e : NativeEvent) (hoverInfo : option Hit) (w : World) : list Obs :=
  if motionGate cfg then
    dragObs cfg e (dragInfo w)
    ++ hoverObs cfg e (hoveredFacade w) hoverInfo (isSome (dragInfo w))
  else [].

Definition motionFired (hoverInfo : option Hit) (w : World) : list (EventType * nat) :=
  if motionGate cfg then
    dragFired (dragInfo w) ++ hoverFired (hoveredFacade w) hoverInfo (isSome (dragInfo w))
  else [].

(** What the part of an action event behind the listener test adds. *)
Definition mainObs (e : NativeEvent) (now : Z) (hoverInfo : option Hit) (w : World) : list Obs :=
  if actionGate cfg then
    match hoverInfo with
    | Some hit =>
        dispatchObs cfg (mappedActionType (evType e)) e (hitFacade hit) None (Some hit)
        ++ tapObs cfg e now hit (tapInfo w)
        ++ [NativePreventDefault ByPipeline]
    | None => [NativePreventDefault ByPipeline]
    end
  else [].

(** What an action event adds to the trace. *)
Definition actionObs (e : NativeEvent) (now : Z) (hoverInfo : option Hit) (w : World) : list Obs :=
  let w1 := worldAfterTouchStart cfg e hoverInfo w in
  let w2 := worldAfterMain cfg e now hoverInfo w1 in
  (if String.eqb (evType e) "touchstart" && singleTouchStart e
   then motionObs e hoverInfo w else [])
  ++ mainObs e now hoverInfo w1
  ++ (if isTouchEndOrCancel e
      then match touchLists e with
           | Some (_, [_]) => motionObs e None w2
           | _ => []
           end
      else []).

Definition isClickType (type : EventType) : bool :=
  String.eqb type "click" || String.eqb type "dblclick".

(** The [click] and [dblclick] dispatches among the observations. *)
Definition clicksOf (obs : list Obs) : list (EventType * nat) :=
  List.filter (fun p => isClickType (fst p)) (firedOf obs).

(** The life cycle of a drag, and every drag-class event. *)
Definition isDragLifecycle (type : EventType) : bool :=
  String.eqb type "dragstart" || String.eqb type "drag"
  || String.eqb type "drop" || String.eqb type "dragend".

Definition isDragType (type : EventType) : bool :=
  isDragLifecycle type
  || String.eqb type "dragenter" || String.eqb type "dragleave" || String.eqb type "dragover".

Definition lifecycleOf (obs : list Obs) : list (EventType * nat) :=
  List.filter (fun p => isDragLifecycle (fst p)) (firedOf obs).

Definition dragEventsOf (obs : list Obs) : list (EventType * nat) :=
  List.filter (fun p => isDragType (fst p)) (firedOf obs).
End Fired.

(** ** Taps, in the specification's words *)

(** More than 10 pixels away from the point [(x0, y0)]: the squared distance
    exceeds 100. *)
Definition farFrom (x0 y0 : Z) (t : Touch) : bool :=
  100 <? (touchClientX t - x0) ^ 2 + (touchClientY t - y0) ^ 2.

(** The facade has a registered listener of the type. *)
Definition hasListenerOn (reg : EventRegistry) (type : EventType) (f : Facade) : bool :=
  match handlersOf reg type (facadeId f) with
  | [] => false
  | _ :: _ => true
  end.

(** The target or one of its ancestors has a registered listener of the
    type. *)
Definition listenerOnChain (reg : EventRegistry) (type : EventType) (target : Facade) : bool :=
  List.existsb (hasListenerOn reg type) (chain target).

(** ** A small scene for the examples *)

Module Scene.
Definition root : Facade := mkFacade 1 None false false.
Definition panel : Facade := mkFacade 2 (Some root) true true.
Definition button : Facade := mkFacade 3 (Some root) false true.

Definition effect (stop prevent : bool) (x : option Exn) : HandlerEffect :=
  {| callsStopPropagation := stop; callsPreventDefault := prevent; throws := x |}.

Definition quiet (name : nat) : Handler :=
  {| handlerName := name; handlerBody := fun _ => effect false false None |}.
Definition stopper (name : nat) : Handler :=
  {| handlerName := name; handlerBody := fun _ => effect true false None |}.
Definition thrower (name : nat) : Handler :=
  {| handlerName := name; handlerBody := fun _ => effect false false (Some (HandlerError 7)) |}.

Definition on (type : EventType) (f : Facade) (h : Handler) : Listener :=
  {| listenerType := type; listenerFacadeId := facadeId f; listenerHandler := h |}.

Definition sceneListeners : list Listener :=
  [ on "click" panel (quiet 10);
    on "mouseover" button (stopper 11);
    on "mouseover" root (quiet 12);
    on "mousedown" root (quiet 13);
    on "dragstart" panel (quiet 14);
    on "mouseout" panel (quiet 15) ].

(** The scene's registry, for an answer [q] to the one-argument query. *)
Definition registryWith (q : EventType -> bool) : EventRegistry :=
  {| listeners := sceneListeners; hasFacadeListenersOfType := q |}.

(** The scene's registry: the query with the event type as its only
    argument is answered as [hasFacadeListenersOfTypeAt] answers it. *)
Definition registry : EventRegistry := registryWith (fun _ => false).

Definition hitOn (f : Facade) (d : Z) : Hit :=
  {| hitFacade := f; distance := d; distanceBias := None |}.

(** The panel fills the left of the element, the button the middle. *)
Definition pick (x y : Z) : option (list Hit) :=
  if x <? 100 then Some [hitOn panel 5]
  else if x <? 200 then Some [hitOn button 7]
  else None.

Definition motionTypes : list EventType :=
  ["mouseover"; "mouseout"; "mousemove"; "dragstart"; "drag";
   "dragenter"; "dragover"; "dragleave"].
Definition actionTypes : list EventType :=
  ["mousedown"; "mouseup"; "click"; "dblclick"; "drop"; "dragend"; "wheel"].

Definition configWith (q : EventType -> bool) : Config :=
  {| eventRegistry := registryWith q;
     pointerMotionEventTypes := motionTypes;
     pointerActionEventTypes := actionTypes;
     getFacadesAtPosition := pick |}.

Definition config : Config :=
  {| eventRegistry := registry;
     pointerMotionEventTypes := motionTypes;
     pointerActionEventTypes := actionTypes;
     getFacadesAtPosition := pick |}.

Definition mouse (type : EventType) (x y : Z) : NativeEvent :=
  {| evType := type; evClientX := x; evClientY := y;
     touchLists := None; targetIsElement := true |}.

Definition touch (type : EventType) (touches changedTouches : list Touch) : NativeEvent :=
  {| evType := type; evClientX := 0; evClientY := 0;
     touchLists := Some (touches, changedTouches); targetIsElement := true |}.

(** The same scene, one handler of which throws. *)
Definition throwingRegistry : EventRegistry :=
  {| listeners :=
       [ on "click" panel (quiet 20);
         on "click" panel (thrower 21);
         on "click" panel (quiet 22);
         on "click" root (quiet 23) ];
     hasFacadeListenersOfType := fun _ => false |}.

Definition throwingConfig : Config :=
  {| eventRegistry := throwingRegistry;
     pointerMotionEventTypes := motionTypes;
     pointerActionEventTypes := actionTypes;
     getFacadesAtPosition := pick |}.
End Scene.

(** The events of the examples. *)
Module Demo.
Import Scene.

Definition overButton : NativeEvent := mouse "mousemove" 150 10.
Definition pressPanel : NativeEvent := mouse "mousedown" 50 10.
Definition dragOnPanel : NativeEvent := mouse "mousemove" 60 10.
Definition dragToButton : NativeEvent := mouse "mousemove" 150 10.
Definition releaseOnButton : NativeEvent := mouse "mouseup" 150 10.
Definition clickPanel : NativeEvent := mouse "click" 50 10.
Definition pressNowhere : NativeEvent := mouse "mousedown" 250 10.

Definition tapStart : NativeEvent := touch "touchstart" [mkTouch 50 50] [mkTouch 50 50].
Definition tapMove : NativeEvent := touch "touchmove" [mkTouch 52 51] [mkTouch 52 51].
Definition tapEnd : NativeEvent := touch "touchend" [] [mkTouch 52 51].
End Demo.

(** ** The octree changeset of [World3DFacade] *)

Module World3D.
Record Sphere : Type := mkSphere { centerX : Z; centerY : Z; centerZ : Z; radius : Z }.

(** A 3D facade as the flush reads it: its id, [isDestroying], and what
    [facade.getBoundingSphere && facade.getBoundingSphere()] gives. The world
    keeps the facade objects themselves and reads them when it flushes, not
    when it is notified; a record stands for the object as it is read then,
    so the notifications one facade sends before a flush all carry the same
    record. *)
Record Object3D : Type := mkObject3D {
  objectId : nat;
  isDestroying : bool;
  boundingSphere : option Sphere
}.

(** Modelled from the spec: the bounding volume index, whose file
    [BoundingSphereOctree.js] is not among the sources. It holds one sphere
    per identifier; [putSphere] records or updates the sphere of an id and
    [removeSphere] deletes any entry of an id. *)
Definition putSphere (facadeId : nat) (sphere : Sphere) (octree : gmap nat Sphere)
    : gmap nat Sphere :=
  <[facadeId := sphere]> octree.

(** Modelled from the spec: [removeSphere] of the missing
    [BoundingSphereOctree.js], which deletes any entry of the id. *)
Definition removeSphere (facadeId : nat) (octree : gmap nat Sphere) : gmap nat Sphere :=
  delete facadeId octree.

(** [{remove, put}], each a map from facade id to facade, or missing. *)
Record Changeset : Type := mkChangeset {
  remove : option (gmap nat Object3D);
  put : option (gmap nat Object3D)
}.

Record State : Type := mkState {
  _boundingSphereOctree : option (gmap nat Sphere);
  _octreeChangeset : option Changeset;
  _object3DFacadesById : gmap nat Object3D
}.

Inductive ChangeType : Type := Put | Remove.

(** [_queueForOctreeChange(changeType, facade)] *)
Definition _queueForOctreeChange (changeType : ChangeType) (facade : Object3D) (s : State)
    : State :=
  let changes := default (mkChangeset None None) (_octreeChangeset s) in
  let changes' :=
    match changeType with
    | Put =>
        mkChangeset (remove changes)
          (Some (<[objectId facade := facade]> (default ∅ (put changes))))
    | Remove =>
        mkChangeset (Some (<[objectId facade := facade]> (default ∅ (remove changes))))
          (put changes)
    end in
  mkState (_boundingSphereOctree s) (Some changes') (_object3DFacadesById s).

(** The handlers of [object3DAdded], [object3DBoundsChanged] and
    [object3DRemoved]. *)
Definition object3DAdded (source : Object3D) (s : State) : State :=
  _queueForOctreeChange Put source
    (mkState (_boundingSphereOctree s) (_octreeChangeset s)
       (<[objectId source := source]> (_object3DFacadesById s))).

Definition object3DBoundsChanged (source : Object3D) (s : State) : State :=
  _queueForOctreeChange Put source s.

Definition object3DRemoved (source : Object3D) (s : State) : State :=
  _queueForOctreeChange Remove source
    (mkState (_boundingSphereOctree s) (_octreeChangeset s)
       (delete (objectId source) (_object3DFacadesById s))).

(** The keys a [for ... in] loop visits. *)
Definition keysOf (m : option (gmap nat Object3D)) : list nat :=
  match m with
  | Some m => List.map fst (map_to_list m)
  | None => []
  end.

(** The map is there and has the key: [remove && remove[facadeId]]. *)
Definition queuedIn (m : option (gmap nat Object3D)) (facadeId : nat) : bool :=
  match m with
  | Some m => bool_decide (is_Some (m !! facadeId))
  | None => false
  end.

Definition inRemove (rm : option (gmap nat Object3D)) (facadeId : nat) : bool :=
  queuedIn rm facadeId.

(** The body of the loop over [put]. *)
Definition applyPut (byId : gmap nat Object3D) (rm : option (gmap nat Object3D))
    (octree : gmap nat Sphere) (facadeId : nat) : gmap nat Sphere :=
  match byId !! facadeId with
  | Some facade =>
      if negb (isDestroying facade) && negb (inRemove rm facadeId) then
        match boundingSphere facade with
        | Some sphere => putSphere facadeId sphere octree
        | None => removeSphere facadeId octree
        end
      else octree
  | None => octree
  end.

Definition applyChanges (byId : gmap nat Object3D) (changes : Changeset)
    (octree : gmap nat Sphere) : gmap nat Sphere :=
  let octree1 :=
    List.fold_left (fun o facadeId => removeSphere facadeId o) (keysOf (remove changes)) octree in
  List.fold_left (applyPut byId (remove changes)) (keysOf (put changes)) octree1.

(** [_updateOctree()]: the state afterwards and the octree returned. *)
Definition _updateOctree (s : State) : State * option (gmap nat Sphere) :=
  match _octreeChangeset s with
  | Some changes =>
      let octree := default ∅ (_boundingSphereOctree s) in
      let octree' := applyChanges (_object3DFacadesById s) changes octree in
      (mkState (Some octree') None (_object3DFacadesById s), Some octree')
  | None => (s, _boundingSphereOctree s)
  end.

(** What the flush makes of the entry of one id that is queued as put and
    not as remove. *)
Definition putAt (byId : gmap nat Object3D) (facadeId : nat) (before : option Sphere)
    : option Sphere :=
  match byId !! facadeId with
  | Some facade => if isDestroying facade then before else boundingSphere facade
  | None => before
  end.

(** The spheres a ray query sees: [getFacadesOnRay] flushes first. *)
Definition octreeAtQuery (s : State) : State * option (gmap nat Sphere) := _updateOctree s.

(** An index that holds facade 1, which is then marked as destroying while
    a bounds change is queued for it. *)
Definition unitSphere : Sphere := mkSphere 0 0 0 1.

Definition staleState : State :=
  object3DBoundsChanged (mkObject3D 1 true (Some unitSphere))
    (mkState (Some {[ 1%nat := unitSphere ]}) None
       {[ 1%nat := mkObject3D 1 true (Some unitSphere) ]}).

(** Facade 1 removed, facade 2 without a sphere, facade 3 moved, all three
    queued as put. *)
Definition busyState : State :=
  object3DBoundsChanged (mkObject3D 3 false (Some (mkSphere 5 5 5 2)))
    (object3DBoundsChanged (mkObject3D 2 false None)
       (object3DRemoved (mkObject3D 1 false (Some unitSphere))
          (object3DBoundsChanged (mkObject3D 1 false (Some unitSphere))
             (mkState (Some {[ 1%nat := unitSphere; 2%nat := unitSphere ]}) None
                {[ 1%nat := mkObject3D 1 false (Some unitSphere);
                   2%nat := mkObject3D 2 false None;
                   3%nat := mkObject3D 3 false (Some (mkSphere 5 5 5 2)) ]})))).
End World3D.

(** ** [BasicThenable] *)

Module Thenable.
(** The values a thenable is settled with: a plain value, the [TypeError]
    of [recursiveError], the thenable itself, or a foreign object with a
    callable [then]. The script of a foreign [then] says what it does with
    the two callbacks it is handed: call the first or the second with a
    value, throw, stop, or return and go on in a later task. *)
Inductive Value : Type :=
| Plain (n : Z)
| TypeErrorValue
| Self
| Foreign (then_ : Script)
with Script : Type :=
| Done
| CallFirst (v : Value) (rest : Script)
| CallSecond (v : Value) (rest : Script)
| Throw (e : Value)
| Later (rest : Script).

(** The variables closed over by the two callbacks [complete] hands to a
    foreign [then]: the [called] counter of each [oneTime] wrapper and the
    [ignoreThrow] they share. *)
Record Closure : Type := mkClosure {
  firstCalled : nat;
  secondCalled : nat;
  ignoreThrow : nat
}.

(** [then(onResolve, onReject)] as seen from this thenable: which of the
    two arguments are functions, by name. *)
Record Callbacks : Type := mkCallbacks {
  onResolve : option nat;
  onReject : option nat
}.

(** The variables of one [BasicThenable()], the [called] counters of its
    [resolve] and [reject], the foreign scripts still to run, and two
    records kept for the proofs: each assignment of [state] and [value],
    and each call of a callback with the state it found. *)
Record State : Type := mkState {
  state : Z;
  value : option Value;
  queue : list Callbacks;
  scheduled : nat;
  completeCalled : nat;
  resolveCalled : nat;
  rejectCalled : nat;
  pending : list (Script * Closure);
  settlements : list (Z * Value);
  observed : list (nat * Z * option Value)
}.

Definition initial : State :=
  {| state := 0; value := None; queue := []; scheduled := 0; completeCalled := 0;
     resolveCalled := 0; rejectCalled := 0; pending := [];
     settlements := []; observed := [] |}.

(** [completeCalled++] *)
Definition countComplete (s : State) : State :=
  {| state := state s; value := value s; queue := queue s; scheduled := scheduled s;
     completeCalled := S (completeCalled s);
     resolveCalled := resolveCalled s; rejectCalled := rejectCalled s;
     pending := pending s; settlements := settlements s; observed := observed s |}.

(** [state = st; value = val; scheduleQueueFlush()] *)
Definition settle (st : Z) (val : Value) (s : State) : State :=
  {| state := st; value := Some val; queue := queue s; scheduled := 1;
     completeCalled := completeCalled s;
     resolveCalled := resolveCalled s; rejectCalled := rejectCalled s;
     pending := pending s;
     settlements := settlements s ++ [(st, val)]; observed := observed s |}.

Definition defer (script : Script) (c : Closure) (s : State) : State :=
  {| state := state s; value := value s; queue := queue s; scheduled := scheduled s;
     completeCalled := completeCalled s;
     resolveCalled := resolveCalled s; rejectCalled := rejectCalled s;
     pending := pending s ++ [(script, c)];
     settlements := settlements s; observed := observed s |}.

(** [complete(st, val)], and the run of a foreign [then] inside its [try]. *)
Fixpoint complete (st : Z) (val : Value) (s : State) {struct val} : State :=
  let s := countComplete s in
  match val with
  | Self =>
      (* recursiveError() throws; nothing was called back, so ignoreThrow is 0 *)
      if state s =? 0 then settle (-1) TypeErrorValue (countComplete s) else s
  | Foreign then_ =>
      if 0 <? st then fst (runThen then_ (mkClosure 0 0 0) s)
      else settle st val s
  | Plain _ | TypeErrorValue => settle st val s
  end
with runThen (script : Script) (c : Closure) (s : State) {struct script} : State * Closure :=
  match script with
  | Done => (s, c)
  | CallFirst v rest =>
      let c1 := mkClosure (S (firstCalled c)) (secondCalled c) (ignoreThrow c) in
      if Nat.eqb (firstCalled c) 0 then
        let c2 := mkClosure (firstCalled c1) (secondCalled c1) (S (ignoreThrow c1)) in
        runThen rest c2 (complete 1 v s)
      else runThen rest c1 s
  | CallSecond v rest =>
      let c1 := mkClosure (firstCalled c) (S (secondCalled c)) (ignoreThrow c) in
      if Nat.eqb (secondCalled c) 0 then
        let c2 := mkClosure (firstCalled c1) (secondCalled c1) (S (ignoreThrow c1)) in
        runThen rest c2 (complete (-1) v s)
      else runThen rest c1 s
  | Throw e =>
      (* caught by complete: if (!state && !ignoreThrow) complete(-1, e) *)
      if (state s =? 0) && Nat.eqb (ignoreThrow c) 0 then (complete (-1) e s, c)
      else (s, c)
  | Later rest => (defer rest c s, c)
  end.

(** A foreign script going on in a later task: nothing catches its throw. *)
Fixpoint runDetached (script : Script) (c : Closure) (s : State) : State :=
  match script with
  | Done => s
  | CallFirst v rest =>
      let c1 := mkClosure (S (firstCalled c)) (secondCalled c) (ignoreThrow c) in
      if Nat.eqb (firstCalled c) 0 then
        runDetached rest (mkClosure (firstCalled c1) (secondCalled c1) (S (ignoreThrow c1)))
          (complete 1 v s)
      else runDetached rest c1 s
  | CallSecond v rest =>
      let c1 := mkClosure (firstCalled c) (S (secondCalled c)) (ignoreThrow c) in
      if Nat.eqb (secondCalled c) 0 then
        runDetached rest (mkClosure (firstCalled c1) (secondCalled c1) (S (ignoreThrow c1)))
          (complete (-1) v s)
      else runDetached rest c1 s
  | Throw _ => s
  | Later rest => defer rest c s
  end.

(** [resolve] and [reject]: [oneTime] around the test of [completeCalled]. *)
Definition resolve (val : Value) (s : State) : State :=
  let s1 :=
    {| state := state s; value := value s; queue := queue s; scheduled := scheduled s;
       completeCalled := completeCalled s;
       resolveCalled := S (resolveCalled s); rejectCalled := rejectCalled s;
       pending := pending s; settlements := settlements s; observed := observed s |} in
  if Nat.eqb (resolveCalled s) 0 && Nat.eqb (completeCalled s) 0
  then complete 1 val s1 else s1.

Definition reject (reason : Value) (s : State) : State :=
  let s1 :=
    {| state := state s; value := value s; queue := queue s; scheduled := scheduled s;
       completeCalled := completeCalled s;
       resolveCalled := resolveCalled s; rejectCalled := S (rejectCalled s);
       pending := pending s; settlements := settlements s; observed := observed s |} in
  if Nat.eqb (rejectCalled s) 0 && Nat.eqb (completeCalled s) 0
  then complete (-1) reason s1 else s1.

(** [then(onResolve, onReject)]: [queue.push(handleNext)], and a flush is
    scheduled when the thenable is settled. *)
Definition then_ (cbs : Callbacks) (s : State) : State :=
  {| state := state s; value := value s; queue := queue s ++ [cbs];
     scheduled := if state s =? 0 then scheduled s else 1;
     completeCalled := completeCalled s;
     resolveCalled := resolveCalled s; rejectCalled := rejectCalled s;
     pending := pending s; settlements := settlements s; observed := observed s |}.

(** [handleNext]: the callback chosen by the state is called with the
    value, if it is a function. *)
Definition handleNext (cbs : Callbacks) (s : State) : State :=
  match (if 0 <? state s then onResolve cbs else onReject cbs) with
  | Some cb =>
      {| state := state s; value := value s; queue := queue s; scheduled := scheduled s;
         completeCalled := completeCalled s;
         resolveCalled := resolveCalled s; rejectCalled := rejectCalled s;
         pending := pending s; settlements := settlements s;
         observed := observed s ++ [(cb, state s, value s)] |}
  | None => s
  end.

(** [flushQueue], run by the tick that [scheduleQueueFlush] asked for. *)
Definition flushQueue (s : State) : State :=
  let q := queue s in
  List.fold_left (fun s cbs => handleNext cbs s) q
    {| state := state s; value := value s; queue := []; scheduled := 0;
       completeCalled := completeCalled s;
       resolveCalled := resolveCalled s; rejectCalled := rejectCalled s;
       pending := pending s; settlements := settlements s; observed := observed s |}.

Definition tick (s : State) : State :=
  if Nat.eqb (scheduled s) 0 then s else flushQueue s.

(** The later task of the first foreign script waiting. *)
Definition later (s : State) : State :=
  match pending s with
  | (script, c) :: rest =>
      runDetached script c
        {| state := state s; value := value s; queue := queue s; scheduled := scheduled s;
           completeCalled := completeCalled s;
           resolveCalled := resolveCalled s; rejectCalled := rejectCalled s;
           pending := rest; settlements := settlements s; observed := observed s |}
  | [] => s
  end.

(** A foreign thenable that calls both callbacks at once, and one that
    calls the second in a later task. *)
Definition callsBoth : Value := Foreign (CallFirst (Plain 1) (CallSecond (Plain 2) Done)).
Definition callsSecondLater : Value :=
  Foreign (CallFirst (Plain 1) (Later (CallSecond (Plain 2) Done))).
End Thenable.


(** ** More of the pipeline: event histories and what they keep *)

(** The world after a history of inputs: every input is handled in the world
    the one before it left, also when that one ended with an exception. *)
Definition afterInputs (cfg : Config) (inputs : list Input) (w : World) : World :=
  List.fold_left (fun w i => fst (deliver cfg i w)) inputs w.

(** A drag is pending exactly while [_onDropEvent] is registered on the
    document. *)
Definition dragConsistent (w : World) : Prop :=
  isSome (dragInfo w) = dropListening w.

(** The hovered facade and the facade of the pending tap intercept pointer
    events. *)
Definition targetsIntercept (w : World) : Prop :=
  match hoveredFacade w with
  | Some f => interceptsPointerEvents f = true
  | None => True
  end /\
  match tapInfo w with
  | Some tap => interceptsPointerEvents (tapFacade tap) = true
  | None => True
  end.

(** The dragged facade declares [onDragStart] and intercepts pointer events,
    and the event kept for [dragstart] has that type and that facade as
    target. *)
Definition dragWellFormed (w : World) : Prop :=
  match dragInfo w with
  | Some d =>
      onDragStart (draggedFacade d) = true /\
      interceptsPointerEvents (draggedFacade d) = true /\
      seType (dragStartEvent d) = "dragstart" /\
      seTarget (dragStartEvent d) = draggedFacade d
  | None => True
  end.

Definition Invariant (w : World) : Prop :=
  dragConsistent w /\ targetsIntercept w /\ dragWellFormed w.

(** A method run from a world in [P] ends in a world in [Q] with its result,
    or throws and leaves a world in [I]. *)
Definition Triple {A : Type} (I P : World -> Prop) (m : M A) (Q : A -> World -> Prop) : Prop :=
  forall w, P w ->
    match m w with
    | (w', Returned a) => Q a w'
    | (w', Thrown _) => I w'
    end.

(** No registered handler calls [stopPropagation]. *)
Definition NoStop (reg : EventRegistry) : Prop :=
  forall l input, In l (listeners reg) ->
    callsStopPropagation (handlerBody (listenerHandler l) input) = false.

(** ** More of [BasicThenable]: histories of calls *)

Module ThenableOps.
Import Thenable.

(** What can happen to a thenable from outside. *)
Inductive Op : Type :=
| Resolve (v : Value)
| Reject (v : Value)
| Then (cbs : Callbacks)
| Tick
| RunLater.

Definition apply (op : Op) (s : State) : State :=
  match op with
  | Resolve v => resolve v s
  | Reject v => reject v s
  | Then cbs => then_ cbs s
  | Tick => tick s
  | RunLater => later s
  end.

Definition run (ops : list Op) (s : State) : State :=
  List.fold_left (fun s op => apply op s) ops s.

(** A call that hands the thenable no foreign thenable to follow: any
    [reject], and a [resolve] with a value that has no callable [then]. *)
Definition inert (op : Op) : bool :=
  match op with
  | Resolve (Foreign _) => false
  | _ => true
  end.

(** Two states that agree on everything but the [called] counters of
    [resolve] and [reject]. *)
Definition sameButCalls (s s' : State) : Prop :=
  state s = state s' /\ value s = value s' /\ queue s = queue s' /\
  scheduled s = scheduled s' /\ completeCalled s = completeCalled s' /\
  pending s = pending s' /\ settlements s = settlements s' /\ observed s = observed s'.

(** What [complete] and the run of a foreign [then] leave alone. *)
Definition Untouched (s s' : State) : Prop :=
  observed s' = observed s /\ queue s' = queue s /\
  resolveCalled s' = resolveCalled s /\ rejectCalled s' = rejectCalled s /\
  (completeCalled s <= completeCalled s')%nat.

(** What a flush calls: for each queued pair the callback the state picks,
    if it is a function, with the state and value of the flush. *)
Definition callsOfFlush (s : State) : list (nat * Z * option Value) :=
  List.flat_map
    (fun cbs =>
       match (if 0 <? state s then onResolve cbs else onReject cbs) with
       | Some cb => [(cb, state s, value s)]
       | None => []
       end) (queue s).
End ThenableOps.

Module ThenableSettled.
Import Thenable.

(** Settled never, or once with the state and value it now has, and with no
    foreign script waiting. *)
Definition SettledAtMostOnce (s : State) : Prop :=
  pending s = [] /\
  ((settlements s = [] /\ state s = 0 /\ value s = None /\ completeCalled s = 0%nat) \/
   (exists st v, settlements s = [(st, v)] /\ state s = st /\ value s = Some v /\
                 st <> 0 /\ (0 < completeCalled s)%nat)).

(** A thenable on which neither [resolve] nor [reject] nor [complete] has
    run yet. *)
Definition Fresh (s : State) : Prop :=
  state s = 0 /\ completeCalled s = 0%nat /\ resolveCalled s = 0%nat /\
  rejectCalled s = 0%nat.
End ThenableSettled.

(** ** Histories of the 3D world's index *)

Module World3DHistory.
Import World3D.

(** What the constructor leaves: no octree, no changeset, and an empty
    [_object3DFacadesById]. *)
Definition initial : State := mkState None None ∅.

(** What reaches the index: the three notifications, and a ray query, which
    flushes. *)
Inductive Notice : Type :=
| Added (source : Object3D)
| BoundsChanged (source : Object3D)
| Removed (source : Object3D)
| Query.

Definition notice (n : Notice) (s : State) : State :=
  match n with
  | Added source => object3DAdded source s
  | BoundsChanged source => object3DBoundsChanged source s
  | Removed source => object3DRemoved source s
  | Query => fst (_updateOctree s)
  end.

Definition after (ns : list Notice) (s : State) : State :=
  List.fold_left (fun s n => notice n s) ns s.

Definition isQuery (n : Notice) : bool :=
  match n with Query => true | _ => false end.

Definition removes (facadeId : nat) (n : Notice) : bool :=
  match n with
  | Removed source => Nat.eqb (objectId source) facadeId
  | _ => false
  end.

Definition adds (facadeId : nat) (n : Notice) : bool :=
  match n with
  | Added source => Nat.eqb (objectId source) facadeId
  | _ => false
  end.

(** A notification that is no query and neither adds nor removes the id. *)
Definition keeps (facadeId : nat) (n : Notice) : bool :=
  negb (isQuery n) && negb (removes facadeId n) && negb (adds facadeId n).

(** A notification that leaves the facade registered and is no query; where
    it tells of a bounds change of the facade's id, it comes from the facade
    itself, the object the flush will read. *)
Definition besideOrFrom (source : Object3D) (n : Notice) : Prop :=
  keeps (objectId source) n = true /\
  forall o, n = BoundsChanged o -> objectId o = objectId source -> o = source.

Definition removeQueue (s : State) : option (gmap nat Object3D) :=
  match _octreeChangeset s with
  | Some changes => remove changes
  | None => None
  end.

Definition putQueue (s : State) : option (gmap nat Object3D) :=
  match _octreeChangeset s with
  | Some changes => put changes
  | None => None
  end.

Definition indexedAt (s : State) (facadeId : nat) : option Sphere :=
  default ∅ (_boundingSphereOctree s) !! facadeId.

(** Every indexed id is registered or waits in the remove queue. *)
Definition IndexWithinRegistry (s : State) : Prop :=
  forall facadeId sphere,
    indexedAt s facadeId = Some sphere ->
    is_Some (_object3DFacadesById s !! facadeId) \/
    queuedIn (removeQueue s) facadeId = true.

Definition box (facadeId : nat) : Object3D := mkObject3D facadeId false (Some unitSphere).
End World3DHistory.

(** ** [getFacadesOnRay] *)

Module RayQuery.
Import World3D.

Section OnRay.
Context {RayHit : Type}.

(** Modelled from the spec: [forEachSphereOnRay] of the missing
    [BoundingSphereOctree.js] calls back once for every indexed sphere the
    ray meets; [onRay] is that test for the ray at hand. *)
Variable onRay : Sphere -> bool.

(** [facade.raycast && facade.raycast(raycaster)]: nothing where the facade
    has no [raycast], else the array it returns. *)
Variable raycast : Object3D -> option (list RayHit).

Definition forEachSphereOnRay (octree : gmap nat Sphere) : list (nat * Sphere) :=
  List.filter (fun entry => onRay (snd entry)) (map_to_list octree).

(** The callback of the traversal: the closest hit of the facade, if any, is
    tagged with the facade and pushed. *)
Definition visitSphere (facadesById : gmap nat Object3D)
    (allHits : option (list (Object3D * RayHit))) (entry : nat * Sphere)
    : option (list (Object3D * RayHit)) :=
  match facadesById !! fst entry with
  | Some facade =>
      match raycast facade with
      | Some (hit :: _) => Some (default [] allHits ++ [(facade, hit)])
      | _ => allHits
      end
  | None => allHits
  end.

Definition getFacadesOnRay (s : State) : State * option (list (Object3D * RayHit)) :=
  let (s', octree) := _updateOctree s in
  (s',
   match octree with
   | Some octree =>
       List.fold_left (visitSphere (_object3DFacadesById s')) (forEachSphereOnRay octree) None
   | None => None
   end).

(** The hit a visited entry contributes. *)
Definition hitOf (facadesById : gmap nat Object3D) (entry : nat * Sphere)
    : option (Object3D * RayHit) :=
  match facadesById !! fst entry with
  | Some facade =>
      match raycast facade with
      | Some (hit :: _) => Some (facade, hit)
      | _ => None
      end
  | None => None
  end.
End OnRay.
End RayQuery.

(** ** The render loop of [WorldBaseFacade] *)

Module RenderLoop.

(** Which of the calls a frame makes throws: [onBeforeRender], [doRender],
    or one of those after it ([onStatsUpdate], [_doRenderHtmlItems],
    [onAfterRender]). *)
Record FrameCalls : Type := mkFrameCalls {
  beforeThrows : bool;
  renderThrows : bool;
  afterThrows : bool
}.

Definition throwsIn (calls : FrameCalls) : bool :=
  beforeThrows calls || renderThrows calls || afterThrows calls.

(** [_nextFrameTimer] and [continuousRender], the callbacks the frame
    scheduler holds, by the handle [_requestRenderFrame] returned for them
    (a positive number, as [requestAnimationFrame] gives), and the calls of
    [_requestRenderFrame] and of [doRender] so far. *)
Record State : Type := mkState {
  _nextFrameTimer : option nat;
  continuousRender : bool;
  scheduledFrames : list nat;
  lastHandle : nat;
  requests : nat;
  renders : nat
}.

Definition initial : State := mkState None false [] 0 0 0.

(** [_queueRender()] *)
Definition _queueRender (s : State) : State :=
  match _nextFrameTimer s with
  | None =>
      let handle := S (lastHandle s) in
      mkState (Some handle) (continuousRender s) (scheduledFrames s ++ [handle]) handle
        (S (requests s)) (renders s)
  | Some _ => s
  end.

(** [_nextFrameHandler]: the state it leaves, and whether it threw. *)
Definition _nextFrameHandler (calls : FrameCalls) (s : State) : State * bool :=
  if beforeThrows calls then (s, true)
  else
    let s1 := mkState (_nextFrameTimer s) (continuousRender s) (scheduledFrames s)
                (lastHandle s) (requests s) (S (renders s)) in
    if renderThrows calls || afterThrows calls then (s1, true)
    else
      let s2 := mkState None (continuousRender s1) (scheduledFrames s1)
                  (lastHandle s1) (requests s1) (renders s1) in
      (if continuousRender s2 then _queueRender s2 else s2, false).

(** What happens to a world: it is asked to render ([needsRender],
    [afterUpdate]), the scheduler runs the callback it holds, or
    [continuousRender] is set. *)
Inductive Op : Type :=
| NeedsRender
| Frame (calls : FrameCalls)
| SetContinuous (on : bool).

Definition apply (op : Op) (s : State) : State :=
  match op with
  | NeedsRender => _queueRender s
  | Frame calls =>
      match scheduledFrames s with
      | _ :: rest =>
          fst (_nextFrameHandler calls
                 (mkState (_nextFrameTimer s) (continuousRender s) rest (lastHandle s)
                    (requests s) (renders s)))
      | [] => s
      end
  | SetContinuous on =>
      mkState (_nextFrameTimer s) on (scheduledFrames s) (lastHandle s)
        (requests s) (renders s)
  end.

Definition run (ops : list Op) (s : State) : State :=
  List.fold_left (fun s op => apply op s) ops s.

Definition quiet (op : Op) : bool :=
  match op with
  | Frame calls => negb (throwsIn calls)
  | _ => true
  end.

(** At most one frame is held, and only while the timer is set. *)
Definition OneFrame (s : State) : Prop :=
  (length (scheduledFrames s) <= 1)%nat /\
  (scheduledFrames s <> [] -> _nextFrameTimer s <> None) /\
  (renders s + length (scheduledFrames s) <= requests s)%nat.

(** The timer is set and no frame is held. *)
Definition Stalled (s : State) : Prop :=
  _nextFrameTimer s <> None /\ scheduledFrames s = [].

Definition fine : FrameCalls := mkFrameCalls false false false.
Definition failing : FrameCalls := mkFrameCalls false true false.
End RenderLoop.

(** ** The earlier [World] class: one handler per facade and type, no bubbling *)

Module LegacyWorld.

(** A handler as [handleMouseMove] and [handleClick] see it: whether the
    call throws. *)
Record Handler : Type := mkHandler {
  handlerName : nat;
  throws : bool
}.

(** A call [handler(e)]: [e.target] and [e.currentTarget] are one facade. *)
Record Call : Type := mkCall {
  callHandler : nat;
  callTarget : nat;
  callRelatedTarget : option nat
}.

(** [$eventRegistry] (absent until the first listener), from event type to
    facade id to [data.handler], which may be no function; [$hoveredFacade];
    the [onClick] of the scene and the scene's id; the calls made. *)
Record State : Type := mkState {
  eventRegistry : option (gmap string (gmap nat (option Handler)));
  hoveredFacade : option nat;
  sceneId : nat;
  sceneOnClick : option Handler;
  calls : list Call
}.

(** [onNotify(source, 'addEventListener', {type, handler})] *)
Definition addEventListener (source : nat) (type : string) (handler : option Handler)
    (s : State) : State :=
  let registry := default ∅ (eventRegistry s) in
  let listeners := default ∅ (registry !! type) in
  mkState (Some (<[type := <[source := handler]> listeners]> registry))
    (hoveredFacade s) (sceneId s) (sceneOnClick s) (calls s).

(** [registry[type] && registry[type][facadeId]], where it is a function. *)
Definition listenerOf (registry : gmap string (gmap nat (option Handler)))
    (type : string) (facadeId : nat) : option Handler :=
  match registry !! type with
  | Some listeners =>
      match listeners !! facadeId with
      | Some handler => handler
      | None => None
      end
  | None => None
  end.

Definition hasType (registry : gmap string (gmap nat (option Handler))) (type : string)
    : bool :=
  match registry !! type with
  | Some _ => true
  | None => false
  end.

(** [if (handler) { e = _.clone(e); ...; handler(e) }]: the state after the
    call and whether it threw. *)
Definition callIfHandler (handler : option Handler) (target : nat)
    (relatedTarget : option nat) (s : State) : State * bool :=
  match handler with
  | Some h =>
      (mkState (eventRegistry s) (hoveredFacade s) (sceneId s) (sceneOnClick s)
         (calls s ++ [mkCall (handlerName h) target relatedTarget]),
       throws h)
  | None => (s, false)
  end.

Definition sameFacadeId (a b : option nat) : bool :=
  match a, b with
  | Some x, Some y => Nat.eqb x y
  | None, None => true
  | _, _ => false
  end.

(** [handleMouseMove(e)], given what [findHoveredFacade(e)] returns: the
    state afterwards and whether a handler threw. *)
Definition handleMouseMove (found : option nat) (s : State) : State * bool :=
  match eventRegistry s with
  | Some registry =>
      if hasType registry "onMouseOver" || hasType registry "onMouseOut" then
        let lastHovered := hoveredFacade s in
        let s1 := mkState (eventRegistry s) found (sceneId s) (sceneOnClick s) (calls s) in
        if negb (sameFacadeId found lastHovered) then
          let out :=
            match lastHovered with
            | Some last => callIfHandler (listenerOf registry "onMouseOut" last) last found s1
            | None => (s1, false)
            end in
          if snd out then out
          else
            match found with
            | Some hovered =>
                callIfHandler (listenerOf registry "onMouseOver" hovered) hovered
                  lastHovered (fst out)
            | None => (fst out, false)
            end
        else (s1, false)
      else (s, false)
  | None => (s, false)
  end.

(** [handleClick(e)], given what [findHoveredFacade(e)] returns. *)
Definition handleClick (found : option nat) (s : State) : State * bool :=
  match eventRegistry s with
  | Some registry =>
      if hasType registry "onClick" then
        match found with
        | None => callIfHandler (sceneOnClick s) (sceneId s) None s
        | Some clicked => callIfHandler (listenerOf registry "onClick" clicked) clicked None s
        end
      else (s, false)
  | None => (s, false)
  end.

(** A world with the scene as facade 0. *)
Definition initial (sceneOnClick : option Handler) : State :=
  mkState None None 0 sceneOnClick [].

End LegacyWorld.

Module LegacyHistory.
Import LegacyWorld.

Inductive Op : Type :=
| Listen (source : nat) (type : string) (handler : option Handler)
| Move (found : option nat)
| Click (found : option nat).

Definition apply (op : Op) (s : State) : State :=
  match op with
  | Listen source type handler => addEventListener source type handler s
  | Move found => fst (handleMouseMove found s)
  | Click found => fst (handleClick found s)
  end.

Definition run (ops : list Op) (s : State) : State :=
  List.fold_left (fun s op => apply op s) ops s.

Definition isClick (op : Op) : bool :=
  match op with Click _ => true | _ => false end.

Definition listensForClick (op : Op) : bool :=
  match op with
  | Listen _ type _ => String.eqb type "onClick"
  | _ => false
  end.

Definition noClickType (s : State) : Prop :=
  match eventRegistry s with
  | Some registry => hasType registry "onClick" = false
  | None => True
  end.
End LegacyHistory.
(** ** Sorting of the hits *)

(** The bias the comparator reads is the bias the specification counts. *)
Lemma biasOr0_specBias h : biasOr0 h = specBias h.
Proof. unfold biasOr0, specBias. now destruct (distanceBias h). Qed.

Lemma compareHits_le a b : compareHits a b <= 0 <-> hitLe a b.
Proof.
  unfold compareHits, hitLe. rewrite (biasOr0_specBias a), (biasOr0_specBias b).
  destruct (Z.eqb_spec (distance a - distance b) 0); lia.
Qed.

Lemma hitLe_trans a b c : hitLe a b -> hitLe b c -> hitLe a c.
Proof. unfold hitLe. lia. Qed.

Lemma hitLe_total a b : hitLe a b \/ hitLe b a.
Proof. unfold hitLe. lia. Qed.

Lemma hitLe_antisym_key a b : hitLe a b -> hitLe b a -> hitKey a = hitKey b.
Proof. unfold hitLe, hitKey. intros H1 H2. f_equal; lia. Qed.

Lemma sortInsert_perm x l : Permutation (x :: l) (sortInsert compareHits x l).
Proof.
  induction l as [|y l IH]; simpl; [reflexivity|].
  destruct (compareHits x y <=? 0); [reflexivity|].
  rewrite perm_swap. now constructor.
Qed.

Lemma sortHits_perm l : Permutation l (sortHits l).
Proof.
  unfold sortHits. induction l as [|x l IH]; simpl; [constructor|].
  rewrite <- sortInsert_perm. now constructor.
Qed.

Lemma sortInsert_sorted x l :
  StronglySorted hitLe l -> StronglySorted hitLe (sortInsert compareHits x l).
Proof.
  induction 1 as [|y l Hs IH Hall]; simpl.
  - repeat constructor.
  - destruct (Z.leb_spec (compareHits x y) 0) as [Hle|Hgt].
    + apply compareHits_le in Hle.
      constructor; [now constructor|].
      constructor; [exact Hle|].
      eapply List.Forall_impl; [|exact Hall].
      intros z Hz. eapply hitLe_trans; eassumption.
    + assert (Hyx : hitLe y x).
      { destruct (hitLe_total x y) as [H|H]; [|exact H].
        apply compareHits_le in H. lia. }
      constructor; [exact IH|].
      rewrite <- sortInsert_perm. now constructor.
Qed.

Lemma sortHits_sorted l : StronglySorted hitLe (sortHits l).
Proof.
  unfold sortHits. induction l as [|x l IH]; simpl; [constructor|].
  now apply sortInsert_sorted.
Qed.

Lemma sortInsert_filter k x l :
  StronglySorted hitLe l ->
  List.filter (sameKey k) (sortInsert compareHits x l) =
  List.filter (sameKey k) (x :: l).
Proof.
  induction 1 as [|y l Hs IH Hall]; [reflexivity|].
  cbn [sortInsert].
  destruct (Z.leb_spec (compareHits x y) 0) as [Hle|Hgt]; [reflexivity|].
  cbn [List.filter]. cbn [List.filter] in IH. rewrite IH.
  destruct (sameKey k x) eqn:Hx, (sameKey k y) eqn:Hy; try reflexivity.
  exfalso. unfold sameKey in Hx, Hy.
  apply andb_true_iff in Hx as [Hx1 Hx2]. apply andb_true_iff in Hy as [Hy1 Hy2].
  apply Z.eqb_eq in Hx1, Hx2, Hy1, Hy2.
  assert (Hxy : hitLe x y) by (unfold hitLe; lia).
  apply compareHits_le in Hxy. lia.
Qed.

Lemma sortHits_stable k l :
  List.filter (sameKey k) (sortHits l) = List.filter (sameKey k) l.
Proof.
  unfold sortHits. induction l as [|x l IH]; [reflexivity|].
  cbn [arraySort]. rewrite sortInsert_filter by apply sortHits_sorted.
  cbn [List.filter]. fold (sortHits l). unfold sortHits. now rewrite IH.
Qed.

(** C1. The hits [_findHoverTarget] selects from are the candidate hits
    reordered ascending by distance, equal distances ascending by
    [distanceBias] with a missing bias counted as 0; hits equal in both keep
    the order the candidate list had, so the same input gives the same order
    at every call. *)
Theorem findHoverTarget_sorts_hits_C1 (allHits : list Hit) :
  Permutation allHits (sortHits allHits) /\
  StronglySorted hitLe (sortHits allHits) /\
  (forall k, List.filter (sameKey k) (sortHits allHits) = List.filter (sameKey k) allHits) /\
  findHoverTargetIn (Some allHits) =
    List.find (fun h => interceptsPointerEvents (hitFacade h)) (sortHits allHits).
Proof.
  split; [apply sortHits_perm|].
  split; [apply sortHits_sorted|].
  split; [intro k; apply sortHits_stable|reflexivity].
Qed.

(** ** Bubbling *)

Lemma Facade_chain_ind (P : Facade -> Prop) :
  (forall i d c, P (mkFacade i None d c)) ->
  (forall i p d c, P p -> P (mkFacade i (Some p) d c)) ->
  forall f, P f.
Proof.
  intros Hroot Hstep.
  fix IH 1. intros [i [p|] d c].
  - apply Hstep. apply IH.
  - apply Hroot.
Qed.

Lemma sameStatic_refl a : sameStatic a a.
Proof. repeat split. Qed.

Lemma inputOf_inputAt ev0 cur ev :
  sameStatic ev ev0 -> seCurrentTarget ev = Some cur ->
  inputOf cur ev = inputAt ev0 cur.
Proof.
  intros (Ht & Htg & Hr) Hc. unfold inputOf, inputAt.
  rewrite Ht, Htg, Hr, Hc. reflexivity.
Qed.

Section WalkFacts.
Variable reg : EventRegistry.
Variable eventType : EventType.
Variable ev0 : SyntheticEvent.

Lemma callHandler_spec cur h ev :
  sameStatic ev ev0 -> seCurrentTarget ev = Some cur ->
  exists ev',
    callHandler cur h ev = (obsOfCall ev0 (cur, h), ev', throws (effectAt ev0 (cur, h))) /\
    sameStatic ev' ev0 /\ seCurrentTarget ev' = Some cur /\
    propagationStopped ev' =
      propagationStopped ev || callsStopPropagation (effectAt ev0 (cur, h)).
Proof.
  intros Hs Hc. unfold callHandler, obsOfCall, effectAt, calledObs. cbn [fst snd].
  rewrite (inputOf_inputAt ev0 cur ev Hs Hc).
  destruct Hs as (Ht & Htg & Hr).
  eexists. split; [reflexivity|].
  destruct (callsStopPropagation _), (callsPreventDefault _); cbn;
    repeat split; try assumption; try (now rewrite orb_true_r);
    now rewrite orb_false_r.
Qed.

Lemma forEachHandler_spec cur hs : forall ev,
  sameStatic ev ev0 -> seCurrentTarget ev = Some cur ->
  exists ev',
    forEachHandler cur hs ev =
      (List.flat_map (obsOfCall ev0) (cutAtThrow ev0 (List.map (pair cur) hs)), ev',
       firstThrow ev0 (List.map (pair cur) hs)) /\
    sameStatic ev' ev0 /\
    (firstThrow ev0 (List.map (pair cur) hs) = None ->
     propagationStopped ev' =
       propagationStopped ev
       || List.existsb (fun c => callsStopPropagation (effectAt ev0 c)) (List.map (pair cur) hs)).
Proof.
  induction hs as [|h hs IH]; intros ev Hs Hc.
  - exists ev. cbn. repeat split; try apply Hs. now rewrite orb_false_r.
  - destruct (callHandler_spec cur h ev Hs Hc) as (ev1 & Hcall & Hs1 & Hc1 & Hp1).
    cbn [forEachHandler List.map cutAtThrow firstThrow]. rewrite Hcall.
    destruct (throws (effectAt ev0 (cur, h))) as [x|] eqn:Hx.
    + exists ev1. cbn [List.flat_map]. rewrite app_nil_r.
      split; [reflexivity|]. split; [exact Hs1|]. discriminate.
    + destruct (IH ev1 Hs1 Hc1) as (ev2 & Hrest & Hs2 & Hp2).
      rewrite Hrest. exists ev2. cbn [List.flat_map List.existsb].
      split; [reflexivity|]. split; [exact Hs2|].
      intro Hn. rewrite (Hp2 Hn), Hp1. now rewrite orb_assoc.
Qed.

Lemma cutAtThrow_app l1 l2 :
  cutAtThrow ev0 (l1 ++ l2) =
  match firstThrow ev0 l1 with
  | Some _ => cutAtThrow ev0 l1
  | None => l1 ++ cutAtThrow ev0 l2
  end.
Proof.
  induction l1 as [|c l1 IH]; [reflexivity|].
  cbn [app cutAtThrow firstThrow].
  destruct (throws (effectAt ev0 c)); [reflexivity|].
  rewrite IH. now destruct (firstThrow ev0 l1).
Qed.

Lemma firstThrow_app l1 l2 :
  firstThrow ev0 (l1 ++ l2) =
  match firstThrow ev0 l1 with
  | Some x => Some x
  | None => firstThrow ev0 l2
  end.
Proof.
  induction l1 as [|c l1 IH]; [reflexivity|].
  cbn [app firstThrow]. now destruct (throws (effectAt ev0 c)).
Qed.

Lemma cutAtThrow_none l : firstThrow ev0 l = None -> cutAtThrow ev0 l = l.
Proof.
  induction l as [|c l IH]; [reflexivity|].
  cbn [cutAtThrow firstThrow]. destruct (throws (effectAt ev0 c)); [discriminate|].
  intro H. now rewrite IH.
Qed.

Lemma schedule_unfold f :
  schedule reg eventType ev0 f =
  callsOn reg eventType f ++
  (if stopsAt reg eventType ev0 f then []
   else match parent f with
        | Some p => schedule reg eventType ev0 p
        | None => []
        end).
Proof.
  unfold schedule. destruct f as [i [p|] d c]; cbn [chain visited List.flat_map parent];
    destruct (stopsAt reg eventType ev0 _); reflexivity.
Qed.

Lemma bubble_unfold f ev :
  bubble reg eventType f ev =
  if propagationStopped ev then ([], ev, None)
  else
    match forEachHandler f (handlersOf reg eventType (facadeId f)) (setCurrentTarget ev f) with
    | (o1, ev1, Some x) => (o1, ev1, Some x)
    | (o1, ev1, None) =>
        match parent f with
        | Some p =>
            match bubble reg eventType p ev1 with
            | (o2, ev2, x) => (o1 ++ o2, ev2, x)
            end
        | None => (o1, ev1, None)
        end
    end.
Proof. destruct f as [i [p|] d c]; reflexivity. Qed.

Lemma bubble_stopped f ev :
  propagationStopped ev = true -> bubble reg eventType f ev = ([], ev, None).
Proof. intro H. rewrite bubble_unfold, H. reflexivity. Qed.

Lemma bubble_spec : forall f ev,
  sameStatic ev ev0 -> propagationStopped ev = false ->
  exists ev',
    bubble reg eventType f ev =
      (List.flat_map (obsOfCall ev0) (cutAtThrow ev0 (schedule reg eventType ev0 f)), ev',
       firstThrow ev0 (schedule reg eventType ev0 f)) /\
    sameStatic ev' ev0.
Proof.
  induction f as [i d c|i p d c IH] using Facade_chain_ind; intros ev Hs Hp;
    [ set (F := mkFacade i None d c); assert (HF : parent F = None) by reflexivity
    | set (F := mkFacade i (Some p) d c); assert (HF : parent F = Some p) by reflexivity ];
    clearbody F;
    rewrite schedule_unfold, bubble_unfold, Hp, HF;
    destruct (forEachHandler_spec F (handlersOf reg eventType (facadeId F))
                (setCurrentTarget ev F) Hs eq_refl) as (ev1 & Hrun & Hs1 & Hp1);
    rewrite Hrun;
    change (List.map (pair F) (handlersOf reg eventType (facadeId F)))
      with (callsOn reg eventType F) in *;
    rewrite cutAtThrow_app, firstThrow_app;
    destruct (firstThrow ev0 (callsOn reg eventType F)) as [x|] eqn:Hx;
    try (exists ev1; split; [reflexivity|exact Hs1]).
  - rewrite (cutAtThrow_none _ Hx). exists ev1. split; [|exact Hs1].
    destruct (stopsAt reg eventType ev0 F); cbn [cutAtThrow firstThrow];
      rewrite app_nil_r; reflexivity.
  - rewrite (cutAtThrow_none _ Hx). specialize (Hp1 eq_refl). cbn [propagationStopped setCurrentTarget] in Hp1.
    rewrite Hp, orb_false_l in Hp1.
    change (List.existsb _ (callsOn reg eventType F))
      with (stopsAt reg eventType ev0 F) in Hp1.
    destruct (stopsAt reg eventType ev0 F) eqn:Hstop.
    + rewrite (bubble_stopped p ev1 Hp1). cbn [cutAtThrow firstThrow].
      rewrite !app_nil_r. exists ev1. split; [reflexivity|exact Hs1].
    + destruct (IH ev1 Hs1 Hp1) as (ev2 & Hrec & Hs2).
      rewrite Hrec. exists ev2. split; [|exact Hs2].
      rewrite flat_map_app. reflexivity.
Qed.

Lemma bubble_no_throw f :
  NoThrow reg -> firstThrow ev0 (schedule reg eventType ev0 f) = None.
Proof.
  intro Hn. unfold schedule.
  induction (visited reg eventType ev0 (chain f)) as [|n ns IH]; [reflexivity|].
  cbn [List.flat_map]. rewrite firstThrow_app, IH.
  unfold callsOn, handlersOf.
  assert (Hall : forall ls, (forall l, In l ls -> In l (listeners reg)) ->
            firstThrow ev0 (List.map (pair n) (List.map listenerHandler ls)) = None).
  { induction ls as [|l ls IHl]; intro Hin; [reflexivity|].
    cbn [List.map firstThrow]. unfold effectAt at 1. cbn [fst snd].
    rewrite (Hn l _ (Hin l (or_introl eq_refl))).
    apply IHl. intros l' Hl'. apply Hin. now right. }
  rewrite Hall; [reflexivity|].
  intros l Hl. apply List.filter_In in Hl. tauto.
Qed.
End WalkFacts.

Lemma calledOf_obsOfCall ev0 l :
  calledOf (List.flat_map (obsOfCall ev0) l) = List.map (calledObs ev0) l.
Proof.
  unfold calledOf. induction l as [|c l IH]; [reflexivity|].
  cbn [List.flat_map List.map]. rewrite List.filter_app, IH.
  unfold obsOfCall.
  destruct (callsStopPropagation _), (callsPreventDefault _); reflexivity.
Qed.

Lemma firedOf_obsOfCall ev0 l : firedOf (List.flat_map (obsOfCall ev0) l) = [].
Proof.
  unfold firedOf. induction l as [|c l IH]; [reflexivity|].
  cbn [List.flat_map]. rewrite flat_map_app, IH.
  unfold obsOfCall.
  destruct (callsStopPropagation _), (callsPreventDefault _); reflexivity.
Qed.

Lemma firedOf_app a b : firedOf (a ++ b) = firedOf a ++ firedOf b.
Proof. apply flat_map_app. Qed.

Lemma newSyntheticEvent_not_stopped e ty f rel extra :
  propagationStopped (newSyntheticEvent e ty f rel extra) = false.
Proof. reflexivity. Qed.

Lemma fire_native_spec cfg ty e f rel extra w :
  let ev0 := newSyntheticEvent e ty f rel extra in
  _firePointerEvent cfg ty (inl e) f rel extra w =
  (observe (dispatchObs cfg ty e f rel extra) w,
   match firstThrow ev0 (schedule (eventRegistry cfg) ty ev0 f) with
   | Some x => Thrown x
   | None => Returned tt
   end).
Proof.
  intro ev0. unfold _firePointerEvent, dispatchObs. fold ev0.
  destruct (bubble_spec (eventRegistry cfg) ty ev0 f ev0 (sameStatic_refl ev0) eq_refl)
    as (ev' & Hb & _).
  rewrite Hb. reflexivity.
Qed.

Lemma fire_native_ok cfg ty e f rel extra w :
  NoThrow (eventRegistry cfg) ->
  _firePointerEvent cfg ty (inl e) f rel extra w =
  (observe (dispatchObs cfg ty e f rel extra) w, Returned tt).
Proof.
  intro Hn. rewrite fire_native_spec.
  now rewrite (bubble_no_throw (eventRegistry cfg) ty _ f Hn).
Qed.

Lemma firedOf_dispatchObs cfg ty e f rel extra :
  firedOf (dispatchObs cfg ty e f rel extra) = [(ty, facadeId f)].
Proof.
  unfold dispatchObs. cbn zeta.
  change (firedOf (?o :: ?l)) with (firedOf [o] ++ firedOf l).
  now rewrite firedOf_obsOfCall.
Qed.

Lemma visited_prefix reg ty ev0 nodes :
  exists rest,
    nodes = visited reg ty ev0 nodes ++ rest /\
    Forall (fun n => stopsAt reg ty ev0 n = false)
           (List.removelast (visited reg ty ev0 nodes)) /\
    (rest <> [] ->
     forall d, stopsAt reg ty ev0 (List.last (visited reg ty ev0 nodes) d) = true).
Proof.
  induction nodes as [|n ns IH].
  - exists []. repeat split; [constructor|]. now intros [].
  - cbn [visited]. destruct (stopsAt reg ty ev0 n) eqn:Hs.
    + exists ns. repeat split; [constructor|].
      intros _ d. exact Hs.
    + destruct IH as (rest & Heq & Hall & Hlast).
      exists rest. split; [cbn; now rewrite <- Heq|].
      destruct (visited reg ty ev0 ns) as [|m ms] eqn:Hv.
      * split; [constructor|]. intros Hr d. specialize (Hlast Hr n).
        cbn in Hlast. congruence.
      * split.
        -- change (List.removelast (n :: m :: ms)) with (n :: List.removelast (m :: ms)).
           now constructor.
        -- intros Hr d. exact (Hlast Hr d).
Qed.

(** C3. A dispatch calls the handlers registered for the event type on the
    target, then on each successive parent, every handler of each node; the
    walk goes no further than the first node on which a handler stops
    propagation and otherwise ends with the chain; each handler sees [target]
    equal to the dispatch target and [currentTarget] (and [this]) equal to
    the node it is called on; a handler on the target that stops propagation
    leaves every ancestor's handlers uncalled. *)
Theorem firePointerEvent_bubbles_C3 (cfg : Config) (ty : EventType) (e : NativeEvent)
    (target : Facade) (rel : option Facade) (extra : option Hit) (w : World) :
  NoThrow (eventRegistry cfg) ->
  let reg := eventRegistry cfg in
  let ev0 := newSyntheticEvent e ty target rel extra in
  exists obs,
    _firePointerEvent cfg ty (inl e) target rel extra w =
      (observe (Fired ty (facadeId target) (option_map facadeId rel) :: obs) w, Returned tt) /\
    calledOf obs =
      List.map (calledObs ev0) (List.flat_map (callsOn reg ty) (visited reg ty ev0 (chain target))) /\
    (exists rest,
       chain target = visited reg ty ev0 (chain target) ++ rest /\
       Forall (fun n => stopsAt reg ty ev0 n = false)
              (List.removelast (visited reg ty ev0 (chain target))) /\
       (rest <> [] ->
        forall d, stopsAt reg ty ev0 (List.last (visited reg ty ev0 (chain target)) d) = true)) /\
    (forall node, hiTarget (inputAt ev0 node) = facadeId target /\
                  hiCurrentTarget (inputAt ev0 node) = Some (facadeId node) /\
                  hiThis (inputAt ev0 node) = facadeId node) /\
    (stopsAt reg ty ev0 target = true ->
     calledOf obs = List.map (calledObs ev0) (callsOn reg ty target)).
Proof.
  intros Hn reg ev0.
  pose proof (bubble_no_throw reg ty ev0 target Hn) as Hnone.
  exists (List.flat_map (obsOfCall ev0) (schedule reg ty ev0 target)).
  split.
  { rewrite fire_native_ok by exact Hn. unfold dispatchObs. fold ev0 reg.
    now rewrite (cutAtThrow_none ev0 _ Hnone). }
  split; [apply calledOf_obsOfCall|].
  split; [apply visited_prefix|].
  split; [intro node; repeat split|].
  intro Hstop. rewrite calledOf_obsOfCall. f_equal.
  rewrite schedule_unfold, Hstop. apply app_nil_r.
Qed.

(** C9. When a handler throws during a dispatch, the dispatch ends with that
    exception, whatever the pipeline would have run after the dispatch is
    skipped, and the handlers called are those up to the one that threw:
    neither the remaining handlers of its node nor those of the ancestors
    are called. *)
Theorem handler_exception_escapes_C9 (cfg : Config) (ty : EventType) (e : NativeEvent)
    (target : Facade) (rel : option Facade) (extra : option Hit) (w : World)
    (pre post : list (Facade * Handler)) (c : Facade * Handler) (x : Exn) :
  let reg := eventRegistry cfg in
  let ev0 := newSyntheticEvent e ty target rel extra in
  schedule reg ty ev0 target = pre ++ c :: post ->
  firstThrow ev0 pre = None ->
  throws (effectAt ev0 c) = Some x ->
  exists obs,
    _firePointerEvent cfg ty (inl e) target rel extra w =
      (observe (Fired ty (facadeId target) (option_map facadeId rel) :: obs) w, Thrown x) /\
    calledOf obs = List.map (calledObs ev0) (pre ++ [c]) /\
    forall (B : Type) (k : unit -> M B),
      bind (_firePointerEvent cfg ty (inl e) target rel extra) k w =
      (observe (Fired ty (facadeId target) (option_map facadeId rel) :: obs) w, Thrown x).
Proof.
  intros reg ev0 Hsch Hpre Hc.
  assert (Hcut : cutAtThrow ev0 (schedule reg ty ev0 target) = pre ++ [c]).
  { rewrite Hsch, cutAtThrow_app, Hpre. cbn [cutAtThrow]. now rewrite Hc. }
  assert (Hfirst : firstThrow ev0 (schedule reg ty ev0 target) = Some x).
  { rewrite Hsch, firstThrow_app, Hpre. cbn [firstThrow]. now rewrite Hc. }
  assert (Hfire : _firePointerEvent cfg ty (inl e) target rel extra w =
            (observe (Fired ty (facadeId target) (option_map facadeId rel)
                        :: List.flat_map (obsOfCall ev0) (pre ++ [c])) w, Thrown x)).
  { rewrite fire_native_spec. unfold dispatchObs. fold ev0 reg.
    now rewrite Hcut, Hfirst. }
  exists (List.flat_map (obsOfCall ev0) (pre ++ [c])).
  split; [exact Hfire|]. split; [apply calledOf_obsOfCall|].
  intros B k. unfold bind. now rewrite Hfire.
Qed.

(** ** The motion handler *)

Ltac unfold_world :=
  unfold observe, markDragStartFired, storeDragStartEvent, setDragInfo, setHovered,
    setTapInfo, setDropListening, setContextMenuKilled in *;
  cbn [hoveredFacade dragInfo tapInfo dropListening contextMenuKilled trace
       draggedFacade dragStartFired dragStartEvent option_map] in *.

Lemma observe_nil w : observe [] w = w.
Proof. destruct w. unfold observe. cbn. now rewrite app_nil_r. Qed.

Lemma bind_returned {A B : Type} (m : M A) (k : A -> M B) w w1 a :
  m w = (w1, Returned a) -> bind m k w = k a w1.
Proof. intro H. unfold bind. now rewrite H. Qed.

Lemma bind_thrown {A B : Type} (m : M A) (k : A -> M B) w w1 x :
  m w = (w1, Thrown x) -> bind m k w = (w1, Thrown x).
Proof. intro H. unfold bind. now rewrite H. Qed.

Lemma bubble_ok reg ty f ev :
  NoThrow reg -> snd (bubble reg ty f ev) = None.
Proof.
  intro Hn. destruct (propagationStopped ev) eqn:Hp.
  - now rewrite bubble_stopped.
  - destruct (bubble_spec reg ty ev f ev (sameStatic_refl ev) Hp) as (ev' & Hb & _).
    rewrite Hb. cbn. now apply bubble_no_throw.
Qed.

Lemma forEachHandler_fromHandler cur hs : forall ev,
  forallb fromHandler (fst (fst (forEachHandler cur hs ev))) = true.
Proof.
  induction hs as [|h hs IH]; intro ev; [reflexivity|].
  cbn [forEachHandler]. unfold callHandler.
  destruct (throws _).
  - cbn. destruct (callsStopPropagation _), (callsPreventDefault _); reflexivity.
  - specialize (IH (if callsPreventDefault (handlerBody h (inputOf cur ev))
                    then setDefaultPrevented
                           (if callsStopPropagation (handlerBody h (inputOf cur ev))
                            then setPropagationStopped ev else ev)
                    else if callsStopPropagation (handlerBody h (inputOf cur ev))
                         then setPropagationStopped ev else ev)).
    destruct (forEachHandler cur hs _) as [[o2 ev2] x2]. cbn [fst] in *.
    rewrite forallb_app, IH.
    destruct (callsStopPropagation _), (callsPreventDefault _); reflexivity.
Qed.

Lemma bubble_fromHandler reg ty : forall f ev,
  forallb fromHandler (fst (fst (bubble reg ty f ev))) = true.
Proof.
  induction f as [i d c|i p d c IH] using Facade_chain_ind; intro ev;
    rewrite bubble_unfold; cbn [parent];
    (destruct (propagationStopped ev); [reflexivity|]);
    match goal with
    | |- context [forEachHandler ?cur ?hs ?e] =>
        pose proof (forEachHandler_fromHandler cur hs e) as Hh;
        destruct (forEachHandler cur hs e) as [[o1 ev1] [x|]]
    end; cbn [fst] in *; try exact Hh.
  specialize (IH ev1). destruct (bubble reg ty p ev1) as [[o2 ev2] x2].
  cbn [fst] in *. now rewrite forallb_app, Hh, IH.
Qed.

Lemma fromHandler_not_fired obs : forallb fromHandler obs = true -> firedOf obs = [].
Proof.
  unfold firedOf. induction obs as [|o obs IH]; [reflexivity|].
  cbn [forallb List.flat_map]. intro H. apply andb_true_iff in H as [Ho Hr].
  rewrite (IH Hr). destruct o as [| | [|]| [|]]; try discriminate; reflexivity.
Qed.

Lemma fromHandler_not_pipeline obs :
  forallb fromHandler obs = true -> pipelinePreventsOf obs = [].
Proof.
  unfold pipelinePreventsOf. induction obs as [|o obs IH]; [reflexivity|].
  cbn [forallb List.filter]. intro H. apply andb_true_iff in H as [Ho Hr].
  rewrite (IH Hr). destruct o as [| | [|]| [|]]; try discriminate; reflexivity.
Qed.

Lemma fire_synthetic_ok cfg ty se f w :
  NoThrow (eventRegistry cfg) ->
  _firePointerEvent cfg ty (inr se) f None None w =
  (storeDragStartEvent (snd (fst (bubble (eventRegistry cfg) ty f se)))
     (observe (syntheticDispatchObs cfg ty se f) w), Returned tt).
Proof.
  intro Hn. unfold _firePointerEvent, syntheticDispatchObs.
  pose proof (bubble_ok (eventRegistry cfg) ty f se Hn) as Hx.
  destruct (bubble (eventRegistry cfg) ty f se) as [[obs ev'] x].
  cbn in Hx. subst x. reflexivity.
Qed.

Lemma motion_blocks cfg e :
  _onPointerMotionEvent cfg e =
  (when (motionGate cfg)
     (d <~ gets dragInfo ;; motionDrag cfg d e ;;; motionHover cfg d e) ;;;
   motionTapCancel e).
Proof. reflexivity. Qed.

Lemma motionDrag_ok cfg e w :
  NoThrow (eventRegistry cfg) ->
  motionDrag cfg (dragInfo w) e w =
  ({| hoveredFacade := hoveredFacade w;
      dragInfo := dragAfterMotion cfg (dragInfo w);
      tapInfo := tapInfo w;
      dropListening := dropListening w;
      contextMenuKilled := contextMenuKilled w;
      trace := trace w ++ dragObs cfg e (dragInfo w) |}, Returned tt).
Proof.
  intro Hn. destruct w as [hov [d|] tap dl cm tr]; cbn [dragInfo motionDrag].
  - destruct d as [f fired se]. cbn [dragStartFired draggedFacade dragStartEvent].
    destruct fired; cbn [negb when].
    + unfold bind at 1. unfold ret at 1.
      rewrite fire_native_ok by exact Hn. unfold_world. reflexivity.
    + unfold bind at 1. unfold bind at 1.
      rewrite fire_synthetic_ok by exact Hn.
      unfold modify at 1. rewrite fire_native_ok by exact Hn.
      unfold_world. unfold syntheticDispatchObs.
      rewrite <- app_assoc. reflexivity.
  - cbn. now rewrite app_nil_r.
Qed.

(** The identity test of the code is the specification's "unchanged". *)
Lemma sameFacadeOpt_unchanged (hovered lastHovered : option Facade) :
  sameFacadeOpt hovered lastHovered = unchangedTarget lastHovered hovered.
Proof.
  unfold sameFacadeOpt, sameFacade, unchangedTarget.
  destruct hovered, lastHovered; cbn [option_map]; try reflexivity. apply Nat.eqb_sym.
Qed.

Lemma unchangedTarget_spec (prev new : option Facade) :
  unchangedTarget prev new = true <-> option_map facadeId prev = option_map facadeId new.
Proof.
  unfold unchangedTarget.
  destruct (option_map facadeId prev) as [p|], (option_map facadeId new) as [n|];
    try (split; [discriminate|discriminate]); [|tauto].
  rewrite Nat.eqb_eq. split; [now intros ->|now intros [= ->]].
Qed.

Lemma motionHover_ok cfg d0 e hi w :
  NoThrow (eventRegistry cfg) ->
  motionHoverInfo cfg e = Returned hi ->
  motionHover cfg d0 e w =
  ({| hoveredFacade := option_map hitFacade hi;
      dragInfo := dragInfo w;
      tapInfo := tapInfo w;
      dropListening := dropListening w;
      contextMenuKilled := contextMenuKilled w;
      trace := trace w ++ hoverObs cfg e (hoveredFacade w) hi (isSome d0) |}, Returned tt).
Proof.
  intros Hn Hhi. unfold motionHover, motionHoverInfo in *.
  unfold bind at 1. unfold gets at 1.
  assert (Hinfo : (if String.eqb (evType e) "mouseout" || isTouchEndOrCancel e
                   then ret None else _findHoverTarget cfg e) w = (w, Returned hi)).
  { destruct (String.eqb (evType e) "mouseout" || isTouchEndOrCancel e).
    - now inversion Hhi.
    - unfold _findHoverTarget. now rewrite Hhi. }
  rewrite (bind_returned _ _ _ _ _ Hinfo).
  unfold bind at 1. unfold modify at 1.
  unfold hoverObs.
  destruct w as [prev d tap dl cm tr]. cbn [hoveredFacade setHovered dragInfo tapInfo
    dropListening contextMenuKilled trace].
  rewrite (sameFacadeOpt_unchanged (option_map hitFacade hi) prev).
  destruct (unchangedTarget prev (option_map hitFacade hi)) eqn:Hsame;
    cbn [negb when]; unfold bind, ret;
    destruct prev as [last|], hi as [hit|]; cbn [option_map];
    destruct d0 as [d0|]; cbn [isSome when];
    repeat first [ rewrite fire_native_ok by exact Hn
                 | progress (unfold ret, when; cbn beta iota)
                 | progress unfold_world ];
    rewrite <- ?app_assoc, ?app_nil_r; reflexivity.
Qed.

Lemma motionTapCancel_ok e w :
  wellFormedEvent e = true ->
  motionTapCancel e w = (setTapInfo (tapAfterMotion e (tapInfo w)) w, Returned tt).
Proof.
  intro Hwf. unfold motionTapCancel, tapAfterMotion, wellFormedEvent in *.
  destruct w as [hov d [tap|] dl cm tr]; cbn; [|reflexivity].
  destruct (String.eqb (evType e) "touchmove") eqn:Ht; [|reflexivity].
  unfold changedTouchesOf, isTouchType in *. rewrite Ht in Hwf.
  destruct (touchLists e) as [[ts cs]|].
  - cbn. destruct cs as [|c cs]; [reflexivity|].
    cbn. destruct (movedPastThreshold c tap); reflexivity.
  - rewrite orb_true_r in Hwf. discriminate.
Qed.

Lemma motion_ok cfg e hi w :
  NoThrow (eventRegistry cfg) ->
  wellFormedEvent e = true ->
  motionHoverInfo cfg e = Returned hi ->
  _onPointerMotionEvent cfg e w = (worldAfterMotion cfg e hi w, Returned tt).
Proof.
  intros Hn Hwf Hhi. rewrite motion_blocks. unfold worldAfterMotion.
  destruct (motionGate cfg); cbn [when].
  - unfold bind at 1. unfold bind at 1. unfold gets at 1.
    unfold bind at 1. rewrite motionDrag_ok by exact Hn.
    rewrite (motionHover_ok cfg (dragInfo w) e hi _ Hn Hhi).
    rewrite motionTapCancel_ok by exact Hwf.
    unfold_world. rewrite <- app_assoc. reflexivity.
  - unfold bind at 1. unfold ret at 1.
    now rewrite motionTapCancel_ok.
Qed.

(** ** The action handler and the release handler *)

Lemma action_blocks cfg e now :
  _onPointerActionEvent cfg e now =
  (actionTouchStart cfg e ;;; actionMain cfg e now ;;; actionTouchEnd cfg e).
Proof. reflexivity. Qed.

Lemma wellFormed_hoverTarget cfg e :
  wellFormedEvent e = true -> exists hi, hoverTarget cfg e = Returned hi.
Proof.
  unfold wellFormedEvent, hoverTarget, getFacadesAtEvent.
  destruct (touchLists e) as [[[|t ts] [|c cs]]|]; intro H; try discriminate;
    try destruct (1 <? _)%nat; eauto.
Qed.

Lemma hoverTarget_motion cfg e hi :
  hoverTarget cfg e = Returned hi ->
  motionHoverInfo cfg e =
  Returned (if String.eqb (evType e) "mouseout" || isTouchEndOrCancel e then None else hi).
Proof.
  intro H. unfold motionHoverInfo. now destruct (_ || _).
Qed.

Lemma wellFormed_touchLists e :
  wellFormedEvent e = true -> isTouchType (evType e) = true ->
  exists ts cs, touchLists e = Some (ts, cs).
Proof.
  unfold wellFormedEvent. destruct (touchLists e) as [[ts cs]|]; [eauto|].
  intros H1 H2. rewrite H2 in H1. discriminate.
Qed.

Lemma length_one {A : Type} (l : list A) :
  Nat.eqb (length l) 1 = true -> exists a, l = [a].
Proof. destruct l as [|a [|b l]]; try discriminate. eauto. Qed.

Lemma actionTouchStart_ok cfg e hi w :
  NoThrow (eventRegistry cfg) ->
  wellFormedEvent e = true ->
  hoverTarget cfg e = Returned hi ->
  actionTouchStart cfg e w = (worldAfterTouchStart cfg e hi w, Returned tt).
Proof.
  intros Hn Hwf Hhi. unfold actionTouchStart, worldAfterTouchStart, singleTouchStart.
  destruct (String.eqb (evType e) "touchstart") eqn:Ht; cbn [when andb]; [|reflexivity].
  destruct (wellFormed_touchLists e Hwf) as (ts & cs & Hl).
  { unfold isTouchType. now rewrite Ht. }
  unfold touchesOf. rewrite Hl. unfold bind at 1. unfold ret at 1.
  assert (Hm : motionHoverInfo cfg e = Returned hi).
  { rewrite (hoverTarget_motion cfg e hi Hhi). apply String.eqb_eq in Ht.
    unfold isTouchEndOrCancel. now rewrite Ht. }
  destruct (Nat.eqb (length ts) 1); cbn [when].
  - unfold bind. rewrite (motion_ok cfg e hi w Hn Hwf Hm). reflexivity.
  - reflexivity.
Qed.

Lemma actionTouchEnd_ok cfg e w :
  NoThrow (eventRegistry cfg) ->
  wellFormedEvent e = true ->
  actionTouchEnd cfg e w = (worldAfterTouchEnd cfg e w, Returned tt).
Proof.
  intros Hn Hwf. unfold actionTouchEnd, worldAfterTouchEnd.
  destruct (isTouchEndOrCancel e) eqn:Ht; cbn [when]; [|reflexivity].
  destruct (wellFormed_touchLists e Hwf) as (ts & cs & Hl).
  { unfold isTouchType. unfold isTouchEndOrCancel in Ht.
    apply orb_true_iff in Ht as [Ht|Ht]; rewrite Ht; now rewrite ?orb_true_r. }
  unfold changedTouchesOf. rewrite Hl. unfold bind at 1. unfold ret at 1.
  assert (Hm : motionHoverInfo cfg e = Returned None).
  { unfold motionHoverInfo. now rewrite Ht, orb_true_r. }
  destruct cs as [|c [|c' cs]]; cbn [length Nat.eqb when]; try reflexivity.
  unfold bind. rewrite (motion_ok cfg e None w Hn Hwf Hm). reflexivity.
Qed.

Lemma actionDrag_ok e f w :
  actionDrag e f w =
  ({| hoveredFacade := hoveredFacade w;
      dragInfo :=
        if startsDrag e f
        then Some {| draggedFacade := f; dragStartFired := false;
                     dragStartEvent := newSyntheticEvent e "dragstart" f None None |}
        else dragInfo w;
      tapInfo := tapInfo w;
      dropListening := if startsDrag e f then true else dropListening w;
      contextMenuKilled := contextMenuKilled w;
      trace := trace w |}, Returned tt).
Proof.
  unfold actionDrag, startsDrag.
  destruct (onDragStart f && _); cbn [when]; destruct w; reflexivity.
Qed.

Lemma actionTap_ok cfg e now hit w :
  NoThrow (eventRegistry cfg) ->
  wellFormedEvent e = true ->
  actionTap cfg e now (Some hit) (hitFacade hit) w =
  ({| hoveredFacade := hoveredFacade w;
      dragInfo := dragInfo w;
      tapInfo := tapAfterAction cfg e now hit (tapInfo w);
      dropListening := dropListening w;
      contextMenuKilled := contextMenuKilled w;
      trace := trace w ++ tapObs cfg e now hit (tapInfo w) |}, Returned tt).
Proof.
  intros Hn Hwf. unfold actionTap, tapObs, tapAfterAction, singleTouchStart, endsTap.
  destruct w as [hov d tap dl cm tr].
  cbn [hoveredFacade dragInfo tapInfo dropListening contextMenuKilled trace].
  destruct (tapGate cfg (hitFacade hit)); cbn [when andb];
    [|unfold ret; now rewrite app_nil_r].
  unfold bind at 1. unfold gets at 1. cbn [tapInfo].
  destruct (String.eqb (evType e) "touchstart") eqn:Ht.
  - destruct (wellFormed_touchLists e Hwf) as (ts & cs & Hl).
    { unfold isTouchType. now rewrite Ht. }
    unfold touchesOf. rewrite Hl. unfold bind, ret. cbn [andb].
    destruct (Nat.eqb (length ts) 1) eqn:Hlen; cbn [negb].
    + destruct (length_one ts Hlen) as (t & ->).
      unfold modify, setTapInfo. cbn. now rewrite app_nil_r.
    + apply String.eqb_eq in Ht.
      destruct tap as [tap|]; [|now rewrite app_nil_r].
      rewrite Ht. cbn [String.eqb Ascii.eqb Bool.eqb andb].
      rewrite andb_false_r. cbn. now rewrite app_nil_r.
  - unfold bind at 1. unfold ret at 1. cbn [andb negb].
    destruct tap as [tap|]; [|unfold ret; now rewrite app_nil_r].
    destruct (sameFacade (tapFacade tap) (hitFacade hit)); cbn [andb];
      [|unfold ret; now rewrite app_nil_r].
    destruct (String.eqb (evType e) "touchend") eqn:Hte; cbn [andb];
      [|unfold ret; now rewrite app_nil_r].
    destruct (wellFormed_touchLists e Hwf) as (ts & cs & Hl).
    { unfold isTouchType. now rewrite Hte, !orb_true_r. }
    unfold touchesOf, changedTouchesOf. rewrite Hl. unfold bind, ret.
    destruct (Nat.eqb (length ts) 0 && Nat.eqb (length cs) 1); cbn [andb when];
      [|now rewrite app_nil_r].
    destruct (now - startTime tap <? TAP_GESTURE_MAX_DUR); cbn [when];
      [|now rewrite app_nil_r].
    rewrite fire_native_ok by exact Hn.
    destruct (isDblClick tap); cbn [when].
    + rewrite fire_native_ok by exact Hn. unfold_world.
      now rewrite <- app_assoc.
    + unfold_world. now rewrite app_nil_r.
Qed.

Lemma actionMain_ok cfg e now hi w :
  NoThrow (eventRegistry cfg) ->
  wellFormedEvent e = true ->
  hoverTarget cfg e = Returned hi ->
  actionMain cfg e now w = (worldAfterMain cfg e now hi w, Returned tt).
Proof.
  intros Hn Hwf Hhi. unfold actionMain, worldAfterMain.
  destruct (actionGate cfg); cbn [when]; [|reflexivity].
  unfold bind at 1. unfold bind at 1. unfold _findHoverTarget at 1. rewrite Hhi.
  destruct hi as [hit|].
  - unfold bind at 1. rewrite fire_native_ok by exact Hn.
    unfold bind at 1. rewrite actionTap_ok by assumption.
    rewrite actionDrag_ok. unfold modify. unfold_world.
    now rewrite <- !app_assoc.
  - reflexivity.
Qed.

Lemma action_ok cfg e now hi w :
  NoThrow (eventRegistry cfg) ->
  wellFormedEvent e = true ->
  hoverTarget cfg e = Returned hi ->
  _onPointerActionEvent cfg e now w = (worldAfterAction cfg e now hi w, Returned tt).
Proof.
  intros Hn Hwf Hhi. rewrite action_blocks. unfold worldAfterAction.
  unfold bind at 1. rewrite (actionTouchStart_ok cfg e hi w Hn Hwf Hhi).
  unfold bind at 1. rewrite (actionMain_ok cfg e now hi _ Hn Hwf Hhi).
  now rewrite actionTouchEnd_ok.
Qed.

Lemma drop_ok cfg e hi w :
  NoThrow (eventRegistry cfg) ->
  hoverTarget cfg e = Returned hi ->
  _onDropEvent cfg e w = (worldAfterDrop cfg e hi w, Returned tt).
Proof.
  intros Hn Hhi. unfold _onDropEvent, worldAfterDrop.
  unfold bind at 1. unfold gets at 1.
  destruct (dragInfo w) as [d|] eqn:Hd; [|reflexivity].
  unfold bind at 1.
  assert (Hinfo : (if targetIsElement e then _findHoverTarget cfg e else ret None) w =
                  (w, Returned (if targetIsElement e then hi else None))).
  { destruct (targetIsElement e); [|reflexivity].
    unfold _findHoverTarget. now rewrite Hhi. }
  rewrite Hinfo.
  destruct (if targetIsElement e then hi else None) as [hit|].
  - unfold bind at 1. unfold bind at 1. rewrite fire_native_ok by exact Hn.
    unfold bind at 1. rewrite fire_native_ok by exact Hn.
    unfold bind, _toggleDropListeners, modify. unfold_world.
    now rewrite <- app_assoc.
  - unfold bind at 1. unfold bind at 1. unfold ret at 1.
    unfold bind at 1. rewrite fire_native_ok by exact Hn.
    unfold bind, _toggleDropListeners, modify. unfold_world. reflexivity.
Qed.

(** ** What the handlers fire *)

Lemma obsOfCall_fromHandler ev0 l :
  forallb fromHandler (List.flat_map (obsOfCall ev0) l) = true.
Proof.
  induction l as [|c l IH]; [reflexivity|].
  cbn [List.flat_map]. rewrite forallb_app, IH. unfold obsOfCall.
  destruct (callsStopPropagation _), (callsPreventDefault _); reflexivity.
Qed.

Lemma pipelinePreventsOf_app a b :
  pipelinePreventsOf (a ++ b) = pipelinePreventsOf a ++ pipelinePreventsOf b.
Proof. apply List.filter_app. Qed.

Lemma pipelinePreventsOf_dispatchObs cfg ty e f rel extra :
  pipelinePreventsOf (dispatchObs cfg ty e f rel extra) = [].
Proof.
  unfold dispatchObs. cbn zeta.
  change (pipelinePreventsOf (?o :: ?l)) with (pipelinePreventsOf l).
  apply fromHandler_not_pipeline, obsOfCall_fromHandler.
Qed.

Lemma firedOf_syntheticDispatchObs cfg ty se f :
  firedOf (syntheticDispatchObs cfg ty se f) = [(ty, facadeId f)].
Proof.
  unfold syntheticDispatchObs.
  change (firedOf (?o :: ?l)) with (firedOf [o] ++ firedOf l).
  now rewrite (fromHandler_not_fired _ (bubble_fromHandler _ _ _ _)).
Qed.

Lemma pipelinePreventsOf_syntheticDispatchObs cfg ty se f :
  pipelinePreventsOf (syntheticDispatchObs cfg ty se f) = [].
Proof.
  unfold syntheticDispatchObs.
  change (pipelinePreventsOf (?o :: ?l)) with (pipelinePreventsOf l).
  apply fromHandler_not_pipeline, bubble_fromHandler.
Qed.

Ltac fired_simpl :=
  repeat first
    [ rewrite firedOf_app
    | rewrite firedOf_dispatchObs
    | rewrite firedOf_syntheticDispatchObs
    | rewrite pipelinePreventsOf_app
    | rewrite pipelinePreventsOf_dispatchObs
    | rewrite pipelinePreventsOf_syntheticDispatchObs ].

Lemma firedOf_hoverObs cfg e prev hi dragging :
  firedOf (hoverObs cfg e prev hi dragging) = hoverFired prev hi dragging.
Proof.
  unfold hoverObs, hoverFired, idOf.
  destruct (unchangedTarget prev _), prev, hi, dragging; cbn [option_map];
    fired_simpl; reflexivity.
Qed.

Lemma pipelinePreventsOf_hoverObs cfg e prev hi dragging :
  pipelinePreventsOf (hoverObs cfg e prev hi dragging) = [].
Proof.
  unfold hoverObs.
  destruct (unchangedTarget prev _), prev, hi, dragging; cbn [option_map];
    fired_simpl; reflexivity.
Qed.

Lemma firedOf_dragObs cfg e d0 : firedOf (dragObs cfg e d0) = dragFired d0.
Proof.
  unfold dragObs, dragFired, idOf. destruct d0 as [d|]; [|reflexivity].
  destruct (dragStartFired d); fired_simpl; reflexivity.
Qed.

Lemma pipelinePreventsOf_dragObs cfg e d0 : pipelinePreventsOf (dragObs cfg e d0) = [].
Proof.
  unfold dragObs. destruct d0 as [d|]; [|reflexivity].
  destruct (dragStartFired d); fired_simpl; reflexivity.
Qed.

Lemma firedOf_motionObs cfg e hi w : firedOf (motionObs cfg e hi w) = motionFired cfg hi w.
Proof.
  unfold motionObs, motionFired. destruct (motionGate cfg); [|reflexivity].
  now rewrite firedOf_app, firedOf_dragObs, firedOf_hoverObs.
Qed.

Lemma pipelinePreventsOf_motionObs cfg e hi w : pipelinePreventsOf (motionObs cfg e hi w) = [].
Proof.
  unfold motionObs. destruct (motionGate cfg); [|reflexivity].
  now rewrite pipelinePreventsOf_app, pipelinePreventsOf_dragObs, pipelinePreventsOf_hoverObs.
Qed.

Lemma trace_worldAfterMotion cfg e hi w :
  trace (worldAfterMotion cfg e hi w) = trace w ++ motionObs cfg e hi w.
Proof.
  unfold worldAfterMotion, motionObs. destruct (motionGate cfg); cbn.
  - reflexivity.
  - now rewrite app_nil_r.
Qed.

Lemma trace_worldAfterMain cfg e now hi w :
  trace (worldAfterMain cfg e now hi w) = trace w ++ mainObs cfg e now hi w.
Proof.
  unfold worldAfterMain, mainObs. destruct (actionGate cfg); [|now rewrite app_nil_r].
  destruct hi; reflexivity.
Qed.

Lemma trace_worldAfterAction cfg e now hi w :
  trace (worldAfterAction cfg e now hi w) = trace w ++ actionObs cfg e now hi w.
Proof.
  unfold worldAfterAction, actionObs.
  set (w1 := worldAfterTouchStart cfg e hi w).
  set (w2 := worldAfterMain cfg e now hi w1).
  assert (H1 : trace w1 = trace w ++
            (if String.eqb (evType e) "touchstart" && singleTouchStart e
             then motionObs cfg e hi w else [])).
  { unfold w1, worldAfterTouchStart.
    destruct (String.eqb (evType e) "touchstart"); cbn [andb]; [|now rewrite app_nil_r].
    destruct (singleTouchStart e); cbn; [apply trace_worldAfterMotion|now rewrite app_nil_r]. }
  assert (H2 : trace w2 = trace w1 ++ mainObs cfg e now hi w1)
    by apply trace_worldAfterMain.
  unfold worldAfterTouchEnd.
  destruct (isTouchEndOrCancel e).
  - destruct (touchLists e) as [[ts [|c [|c' cs]]]|]; cbn [setContextMenuKilled trace];
      rewrite ?trace_worldAfterMotion, H2, H1, <- ?app_assoc, ?app_nil_r; reflexivity.
  - rewrite H2, H1, <- ?app_assoc, ?app_nil_r; reflexivity.
Qed.

Lemma sceneWith_NoThrow q : NoThrow (Scene.registryWith q).
Proof.
  intros l input Hin. cbn in Hin.
  repeat (destruct Hin as [<-|Hin]; [reflexivity|]). destruct Hin.
Qed.

Lemma scene_NoThrow : NoThrow Scene.registry.
Proof. apply sceneWith_NoThrow. Qed.

(** C2. While a motion-class listener is registered, a motion event whose
    hit test gives a target different from the hovered facade dispatches
    [mouseout] on the previous target, if there is one, and, after the whole
    of that dispatch ([dragleave] included while dragging), [mouseover] on
    the new target, if there is one; an unchanged target gets neither; and
    the target hovered afterwards gets [mousemove], followed by [dragover]
    while a drag is pending. Two targets are the same when both are absent
    or both have the same facade id. *)
Theorem hover_transition_C2 (cfg : Config) (e : NativeEvent) (hi : option Hit) (w : World) :
  NoThrow (eventRegistry cfg) ->
  motionGate cfg = true ->
  wellFormedEvent e = true ->
  motionHoverInfo cfg e = Returned hi ->
  let prev := hoveredFacade w in
  let new := option_map hitFacade hi in
  let dragging := isSome (dragInfo w) in
  let moved :=
    match new with
    | Some h => ("mousemove", facadeId h)
                  :: (if dragging then [("dragover", facadeId h)] else [])
    | None => []
    end in
  exists w' hoverPart,
    _onPointerMotionEvent cfg e w = (w', Returned tt) /\
    hoveredFacade w' = new /\
    trace w' = trace w ++ dragObs cfg e (dragInfo w) ++ hoverPart /\
    firedOf (dragObs cfg e (dragInfo w)) = dragFired (dragInfo w) /\
    (option_map facadeId prev = option_map facadeId new ->
     firedOf hoverPart = moved) /\
    (option_map facadeId prev <> option_map facadeId new ->
     hoverPart =
       match prev with
       | Some last =>
           dispatchObs cfg "mouseout" e last new hi
           ++ (if dragging then dispatchObs cfg "dragleave" e last new hi else [])
       | None => []
       end
       ++ match new with
          | Some h =>
              dispatchObs cfg "mouseover" e h prev hi
              ++ (if dragging then dispatchObs cfg "dragenter" e h prev hi else [])
          | None => []
          end
       ++ match new with
          | Some h =>
              dispatchObs cfg "mousemove" e h None hi
              ++ (if dragging then dispatchObs cfg "dragover" e h None hi else [])
          | None => []
          end /\
     firedOf hoverPart =
       match prev with
       | Some last => ("mouseout", facadeId last)
                        :: (if dragging then [("dragleave", facadeId last)] else [])
       | None => []
       end
       ++ match new with
          | Some h => ("mouseover", facadeId h)
                        :: (if dragging then [("dragenter", facadeId h)] else [])
          | None => []
          end
       ++ moved).
Proof.
  intros Hn Hg Hwf Hhi prev new dragging moved.
  exists (worldAfterMotion cfg e hi w), (hoverObs cfg e prev hi dragging).
  split; [now apply motion_ok|].
  unfold worldAfterMotion. rewrite Hg. cbn [hoveredFacade trace].
  split; [reflexivity|]. split; [reflexivity|].
  split; [apply firedOf_dragObs|].
  split.
  - intro Hsame. apply unchangedTarget_spec in Hsame.
    rewrite firedOf_hoverObs. unfold hoverFired. fold new. rewrite Hsame. reflexivity.
  - intro Hdiff.
    assert (Hch : unchangedTarget prev new = false).
    { destruct (unchangedTarget prev new) eqn:Hu; [|reflexivity].
      apply unchangedTarget_spec in Hu. contradiction. }
    split.
    + unfold hoverObs. fold new. rewrite Hch. now rewrite <- app_assoc.
    + rewrite firedOf_hoverObs. unfold hoverFired, idOf. fold new. rewrite Hch.
      now rewrite <- app_assoc.
Qed.

Lemma hover_transition_C2_witness :
  let overPanel := fst (_onPointerMotionEvent Scene.config (Scene.mouse "mousemove" 50 10)
                          initialWorld) in
  NoThrow (eventRegistry Scene.config) /\
  motionGate Scene.config = true /\
  wellFormedEvent (Scene.mouse "mousemove" 150 10) = true /\
  motionHoverInfo Scene.config (Scene.mouse "mousemove" 150 10)
    = Returned (Some (Scene.hitOn Scene.button 7)) /\
  hoveredFacade overPanel = Some Scene.panel /\
  exists w' hoverPart,
    _onPointerMotionEvent Scene.config (Scene.mouse "mousemove" 150 10) overPanel
      = (w', Returned tt) /\
    trace w' = trace overPanel ++ hoverPart /\
    firedOf hoverPart = [("mouseout", 2%nat); ("mouseover", 3%nat); ("mousemove", 3%nat)] /\
    hoveredFacade w' = Some Scene.button.
Proof.
  intro overPanel.
  split; [exact scene_NoThrow|]. split; [reflexivity|].
  split; [reflexivity|]. split; [reflexivity|]. split; [reflexivity|].
  destruct (hover_transition_C2 Scene.config (Scene.mouse "mousemove" 150 10)
              (Some (Scene.hitOn Scene.button 7)) overPanel
              scene_NoThrow eq_refl eq_refl eq_refl)
    as (w' & hoverPart & Hrun & Hhov & Htr & _ & _ & Hchanged).
  exists w', hoverPart. split; [exact Hrun|]. split; [exact Htr|].
  split; [|exact Hhov].
  apply Hchanged. discriminate.
Defined.

(** C8, as the code has it. An action event handled while an action-class
    listener is registered, and during which no handler throws, makes the
    pipeline call [preventDefault] on the native event once, whether the hit
    test finds a target or not; with no such listener the pipeline does not
    call it. *)
Theorem action_prevents_default_C8 (cfg : Config) (e : NativeEvent) (now : Z)
    (hi : option Hit) (w : World) :
  NoThrow (eventRegistry cfg) ->
  wellFormedEvent e = true ->
  hoverTarget cfg e = Returned hi ->
  exists w' obs,
    _onPointerActionEvent cfg e now w = (w', Returned tt) /\
    trace w' = trace w ++ obs /\
    pipelinePreventsOf obs =
      if actionGate cfg then [NativePreventDefault ByPipeline] else [].
Proof.
  intros Hn Hwf Hhi.
  exists (worldAfterAction cfg e now hi w), (actionObs cfg e now hi w).
  split; [now apply action_ok|]. split; [apply trace_worldAfterAction|].
  unfold actionObs, mainObs, tapObs.
  rewrite !pipelinePreventsOf_app.
  assert (H1 : forall (b : bool) h v,
            pipelinePreventsOf (if b then motionObs cfg e h v else []) = []).
  { intros [] h v; [apply pipelinePreventsOf_motionObs|reflexivity]. }
  rewrite H1.
  assert (H3 : forall v,
            pipelinePreventsOf
              (if isTouchEndOrCancel e
               then match touchLists e with
                    | Some (_, [_]) => motionObs cfg e None v
                    | _ => []
                    end
               else []) = []).
  { intro v. destruct (isTouchEndOrCancel e); [|reflexivity].
    destruct (touchLists e) as [[ts [|c [|c' cs]]]|]; try reflexivity.
    apply pipelinePreventsOf_motionObs. }
  rewrite H3, app_nil_r. cbn [app].
  destruct (actionGate cfg); [|reflexivity].
  destruct hi as [hit|]; [|reflexivity].
  fired_simpl. cbn [app].
  destruct (tapGate cfg (hitFacade hit) && negb (singleTouchStart e)); [|reflexivity].
  destruct (tapInfo _) as [tap|]; [|reflexivity].
  destruct (endsTap e now (hitFacade hit) tap); [|reflexivity].
  destruct (isDblClick tap); fired_simpl; reflexivity.
Qed.

Lemma action_prevents_default_C8_witness :
  NoThrow (eventRegistry Scene.config) /\
  wellFormedEvent (Scene.mouse "mousedown" 250 10) = true /\
  hoverTarget Scene.config (Scene.mouse "mousedown" 250 10) = Returned None /\
  exists w' obs,
    _onPointerActionEvent Scene.config (Scene.mouse "mousedown" 250 10) 0 initialWorld
      = (w', Returned tt) /\
    trace w' = trace initialWorld ++ obs /\
    pipelinePreventsOf obs = [NativePreventDefault ByPipeline].
Proof.
  split; [exact scene_NoThrow|]. split; [reflexivity|]. split; [reflexivity|].
  exact (action_prevents_default_C8 Scene.config (Scene.mouse "mousedown" 250 10) 0 None
           initialWorld scene_NoThrow eq_refl eq_refl).
Defined.

(** The claim C8 as stated fails: a [mousedown] that hits nothing still has
    its default prevented by the pipeline. *)
Lemma preventDefault_without_target_C8_counterexample :
  ~ ((exists hit, hoverTarget Scene.config (Scene.mouse "mousedown" 250 10)
                    = Returned (Some hit)) <->
     In (NativePreventDefault ByPipeline)
        (trace (fst (_onPointerActionEvent Scene.config
                       (Scene.mouse "mousedown" 250 10) 0 initialWorld)))).
Proof.
  intros [_ H].
  assert (Hin : In (NativePreventDefault ByPipeline)
            (trace (fst (_onPointerActionEvent Scene.config
                           (Scene.mouse "mousedown" 250 10) 0 initialWorld))))
    by (vm_compute; auto).
  destruct (H Hin) as [hit Hhit]. vm_compute in Hhit. discriminate.
Qed.

(** ** Drags *)

Lemma wellFormed_motionHoverInfo cfg e :
  wellFormedEvent e = true -> exists hi, motionHoverInfo cfg e = Returned hi.
Proof.
  intro Hwf. destruct (wellFormed_hoverTarget cfg e Hwf) as (hi & Hhi).
  rewrite (hoverTarget_motion cfg e hi Hhi). eauto.
Qed.

Lemma lifecycle_hoverFired prev hi dragging :
  List.filter (fun p => isDragLifecycle (fst p)) (hoverFired prev hi dragging) = [].
Proof.
  unfold hoverFired.
  destruct (unchangedTarget prev _), prev, hi, dragging; reflexivity.
Qed.

Lemma lifecycle_dragFired d0 :
  List.filter (fun p => isDragLifecycle (fst p)) (dragFired d0) = dragFired d0.
Proof.
  unfold dragFired. destruct d0 as [d|]; [|reflexivity].
  destruct (dragStartFired d); reflexivity.
Qed.

Lemma lifecycleOf_motionObs cfg e hi w :
  motionGate cfg = true ->
  lifecycleOf (motionObs cfg e hi w) = dragFired (dragInfo w).
Proof.
  intro Hg. unfold lifecycleOf. rewrite firedOf_motionObs.
  unfold motionFired. rewrite Hg, List.filter_app.
  now rewrite lifecycle_dragFired, lifecycle_hoverFired, app_nil_r.
Qed.

Lemma lifecycleOf_app a b : lifecycleOf (a ++ b) = lifecycleOf a ++ lifecycleOf b.
Proof. unfold lifecycleOf. now rewrite firedOf_app, List.filter_app. Qed.

Lemma motions_during_drag cfg moves : forall w d,
  NoThrow (eventRegistry cfg) ->
  motionGate cfg = true ->
  Forall (fun e => wellFormedEvent e = true) moves ->
  dragInfo w = Some d ->
  exists w' obs d',
    deliverAll cfg (List.map Motion moves) w = (w', Returned tt) /\
    trace w' = trace w ++ obs /\
    lifecycleOf obs =
      (if dragStartFired d then []
       else match moves with
            | [] => []
            | _ :: _ => [("dragstart", facadeId (draggedFacade d))]
            end)
      ++ List.repeat ("drag", facadeId (draggedFacade d)) (length moves) /\
    dragInfo w' = Some d' /\
    draggedFacade d' = draggedFacade d /\
    dragStartFired d' = (dragStartFired d || match moves with [] => false | _ => true end) /\
    dropListening w' = dropListening w.
Proof.
  induction moves as [|m moves IH]; intros w d Hn Hg Hwf Hd.
  - exists w, [], d. cbn. rewrite app_nil_r, orb_false_r.
    repeat split; try assumption. now destruct (dragStartFired d).
  - inversion Hwf as [|? ? Hm Hrest]; subst.
    destruct (wellFormed_motionHoverInfo cfg m Hm) as (hi & Hhi).
    pose proof (motion_ok cfg m hi w Hn Hm Hhi) as Hrun.
    set (w1 := worldAfterMotion cfg m hi w) in *.
    assert (Hd1 : dragInfo w1 = dragAfterMotion cfg (Some d)).
    { unfold w1, worldAfterMotion. rewrite Hg. cbn. now rewrite Hd. }
    assert (Hdl : dropListening w1 = dropListening w).
    { unfold w1, worldAfterMotion. now rewrite Hg. }
    cbn [dragAfterMotion] in Hd1.
    destruct (dragStartFired d) eqn:Hf.
    + destruct (IH w1 d Hn Hg Hrest Hd1) as (w' & obs & d' & Hall & Htr & Hlc & Hd' & Hfac & Hfl & Hdrop).
      exists w', (motionObs cfg m hi w ++ obs), d'.
      cbn [List.map deliverAll deliver]. unfold bind at 1. rewrite Hrun.
      split; [exact Hall|].
      split; [rewrite Htr; unfold w1; rewrite trace_worldAfterMotion; now rewrite app_assoc|].
      split.
      { rewrite lifecycleOf_app, Hlc, (lifecycleOf_motionObs cfg m hi w Hg), Hd, Hf.
        cbn. rewrite Hf. reflexivity. }
      rewrite Hf in Hfl. cbn in Hfl.
      repeat split; try assumption. congruence.
    + match type of Hd1 with _ = Some ?x => set (d1 := x) in * end.
      destruct (IH w1 d1 Hn Hg Hrest Hd1) as (w' & obs & d' & Hall & Htr & Hlc & Hd' & Hfac & Hfl & Hdrop).
      exists w', (motionObs cfg m hi w ++ obs), d'.
      cbn [List.map deliverAll deliver]. unfold bind at 1. rewrite Hrun.
      split; [exact Hall|].
      split; [rewrite Htr; unfold w1; rewrite trace_worldAfterMotion; now rewrite app_assoc|].
      split.
      { rewrite lifecycleOf_app, Hlc, (lifecycleOf_motionObs cfg m hi w Hg), Hd.
        unfold dragFired, idOf. rewrite Hf. reflexivity. }
      cbn in Hfl.
      repeat split; try assumption. congruence.
Qed.

Lemma dragEvents_hoverFired prev hi :
  List.filter (fun p => isDragType (fst p)) (hoverFired prev hi false) = [].
Proof.
  unfold hoverFired.
  destruct (unchangedTarget prev _), prev, hi; reflexivity.
Qed.

(** C5. After a press on a facade that declares [onDragStart], the motion
    events that follow fire [dragstart] once, on the first of them, and
    [drag] on each; the release fires [drop] on the target it resolves, if
    any, and then [dragend] on the dragged facade, clears the drag state and
    takes the release listeners off the document; a later motion fires no
    drag event and a later release is not handled. *)
Theorem drag_round_trip_C5 (cfg : Config) (press : NativeEvent) (nowp : Z) (hit : Hit)
    (m : NativeEvent) (moves : list NativeEvent) (rel : NativeEvent)
    (hiR : option Hit) (w0 : World) :
  NoThrow (eventRegistry cfg) ->
  motionGate cfg = true ->
  actionGate cfg = true ->
  evType press = "mousedown" \/ evType press = "touchstart" ->
  wellFormedEvent press = true ->
  hoverTarget cfg press = Returned (Some hit) ->
  onDragStart (hitFacade hit) = true ->
  Forall (fun e => wellFormedEvent e = true) (m :: moves) ->
  hoverTarget cfg rel = Returned hiR ->
  let f := hitFacade hit in
  let found := if targetIsElement rel then hiR else None in
  exists w1 w2 w3 obsM obsR,
    _onPointerActionEvent cfg press nowp w0 = (w1, Returned tt) /\
    deliverAll cfg (List.map Motion (m :: moves)) w1 = (w2, Returned tt) /\
    trace w2 = trace w1 ++ obsM /\
    lifecycleOf obsM =
      ("dragstart", facadeId f) :: ("drag", facadeId f)
        :: List.repeat ("drag", facadeId f) (length moves) /\
    deliver cfg (Release rel) w2 = (w3, Returned tt) /\
    trace w3 = trace w2 ++ obsR /\
    firedOf obsR =
      match found with
      | Some target => [("drop", facadeId (hitFacade target))]
      | None => []
      end ++ [("dragend", facadeId f)] /\
    dragInfo w3 = None /\
    dropListening w3 = false /\
    (forall later hiL,
       wellFormedEvent later = true ->
       motionHoverInfo cfg later = Returned hiL ->
       exists w4 obsL,
         _onPointerMotionEvent cfg later w3 = (w4, Returned tt) /\
         trace w4 = trace w3 ++ obsL /\
         dragEventsOf obsL = []) /\
    (forall rel', deliver cfg (Release rel') w3 = (w3, Returned tt)).
Proof.
  intros Hn Hmg Hag Hty Hwfp Hhp Hds Hwfm Hhr f found.
  pose proof (action_ok cfg press nowp (Some hit) w0 Hn Hwfp Hhp) as Hpress.
  set (w1 := worldAfterAction cfg press nowp (Some hit) w0) in *.
  assert (Hnotend : isTouchEndOrCancel press = false).
  { unfold isTouchEndOrCancel. destruct Hty as [H|H]; now rewrite H. }
  assert (Hstarts : startsDrag press f = true).
  { unfold startsDrag, f. rewrite Hds. destruct Hty as [H|H]; now rewrite H. }
  set (d1 := {| draggedFacade := f; dragStartFired := false;
                dragStartEvent := newSyntheticEvent press "dragstart" f None None |}).
  assert (Hd1 : dragInfo w1 = Some d1).
  { unfold w1, worldAfterAction, worldAfterTouchEnd. rewrite Hnotend.
    unfold worldAfterMain. rewrite Hag. cbn [dragInfo]. fold f. now rewrite Hstarts. }
  assert (Hl1 : dropListening w1 = true).
  { unfold w1, worldAfterAction, worldAfterTouchEnd. rewrite Hnotend.
    unfold worldAfterMain. rewrite Hag. cbn [dropListening]. fold f. now rewrite Hstarts. }
  destruct (motions_during_drag cfg (m :: moves) w1 d1 Hn Hmg Hwfm Hd1)
    as (w2 & obsM & d2 & Hmoves & Htr2 & Hlc & Hd2 & Hfac & Hfl & Hdl2).
  pose proof (drop_ok cfg rel hiR w2 Hn Hhr) as Hdrop.
  set (w3 := worldAfterDrop cfg rel hiR w2) in *.
  assert (Hw3 : w3 =
            {| hoveredFacade := hoveredFacade w2; dragInfo := None; tapInfo := tapInfo w2;
               dropListening := false; contextMenuKilled := contextMenuKilled w2;
               trace := trace w2
                 ++ match found with
                    | Some t => dispatchObs cfg "drop" rel (hitFacade t) None found
                    | None => []
                    end
                 ++ dispatchObs cfg "dragend" rel (draggedFacade d2) None found |}).
  { unfold w3, worldAfterDrop. now rewrite Hd2. }
  exists w1, w2, w3, obsM,
    (match found with
     | Some t => dispatchObs cfg "drop" rel (hitFacade t) None found
     | None => []
     end ++ dispatchObs cfg "dragend" rel (draggedFacade d2) None found).
  split; [exact Hpress|]. split; [exact Hmoves|]. split; [exact Htr2|].
  split; [exact Hlc|].
  split.
  { cbn [deliver]. unfold bind at 1. unfold gets at 1. rewrite Hdl2, Hl1.
    cbn [when]. exact Hdrop. }
  split; [now rewrite Hw3|].
  split.
  { rewrite Hfac. cbn [d1 draggedFacade]. destruct found; fired_simpl; reflexivity. }
  split; [now rewrite Hw3|]. split; [now rewrite Hw3|].
  split.
  - intros later hiL Hwfl Hhl.
    exists (worldAfterMotion cfg later hiL w3), (motionObs cfg later hiL w3).
    split; [now apply motion_ok|]. split; [apply trace_worldAfterMotion|].
    unfold dragEventsOf. rewrite firedOf_motionObs. unfold motionFired.
    rewrite Hmg, Hw3. cbn [dragInfo hoveredFacade dragFired isSome app].
    apply dragEvents_hoverFired.
  - intro rel'. cbn [deliver]. unfold bind, gets. rewrite Hw3. reflexivity.
Qed.

(** ** Taps *)

Lemma hasEventHandlerInParentTree_answer cfg ty : forall f,
  _hasEventHandlerInParentTree cfg f ty = hasFacadeListenersOfType (eventRegistry cfg) ty.
Proof.
  induction f as [i d c|i p d c IH] using Facade_chain_ind; cbn [_hasEventHandlerInParentTree].
  - now destruct (hasFacadeListenersOfType _ ty).
  - rewrite IH. now destruct (hasFacadeListenersOfType _ ty).
Qed.

Lemma tapGate_any cfg f g : tapGate cfg f = tapGate cfg g.
Proof. unfold tapGate. now rewrite !hasEventHandlerInParentTree_answer. Qed.

Lemma tapInfo_worldAfterMotion cfg e hi w :
  tapInfo (worldAfterMotion cfg e hi w) = tapAfterMotion e (tapInfo w).
Proof. unfold worldAfterMotion. now destruct (motionGate cfg). Qed.

Lemma touchstart_tapInfo cfg e now t cs hit w :
  actionGate cfg = true ->
  evType e = "touchstart" ->
  touchLists e = Some ([t], cs) ->
  tapInfo (worldAfterAction cfg e now (Some hit) w) =
  if tapGate cfg (hitFacade hit)
  then Some {| tapFacade := hitFacade hit; tapX := touchClientX t; tapY := touchClientY t;
               startTime := now;
               isDblClick := match tapInfo w with
                             | Some prev => now - startTime prev <? TAP_DBLCLICK_MAX_DUR
                             | None => false
                             end |}
  else tapInfo w.
Proof.
  intros Hag Hty Hl.
  assert (Hsingle : singleTouchStart e = true).
  { unfold singleTouchStart. now rewrite Hty, Hl. }
  assert (Hw1 : tapInfo (worldAfterTouchStart cfg e (Some hit) w) = tapInfo w).
  { unfold worldAfterTouchStart. rewrite Hty, Hsingle. cbn.
    rewrite tapInfo_worldAfterMotion. unfold tapAfterMotion.
    rewrite Hty. cbn. now destruct (tapInfo w). }
  unfold worldAfterAction, worldAfterTouchEnd, isTouchEndOrCancel. rewrite Hty. cbn [String.eqb
    Ascii.eqb Bool.eqb orb andb].
  unfold worldAfterMain. rewrite Hag. cbn [tapInfo]. rewrite Hw1.
  unfold tapAfterAction. rewrite Hsingle, Hl, andb_true_r. reflexivity.
Qed.

Lemma sqrt_up_threshold v : (10 <? Z.sqrt_up v) = (10 ^ 2 <? v).
Proof.
  pose proof (Z.sqrt_up_nonneg v) as Hnn.
  change (10 ^ 2) with 100.
  destruct (Z.ltb_spec 100 v) as [H|H].
  - apply Z.ltb_lt. apply Z.nle_gt. intro Hle.
    destruct (Z.sqrt_up_spec v) as [_ Hu]; [lia|].
    unfold Z.square in Hu. nia.
  - apply Z.ltb_ge. destruct (Z.le_gt_cases v 0) as [H0|H0].
    + rewrite Z.sqrt_up_eqn0 by exact H0. lia.
    + destruct (Z.sqrt_up_spec v) as [Hl _]; [lia|].
      unfold Z.square in Hl. apply Z.nlt_ge. intro Hgt.
      assert (10 <= Z.pred (Z.sqrt_up v)) by lia. nia.
Qed.

Lemma movedPastThreshold_far t tap :
  movedPastThreshold t tap = farFrom (tapX tap) (tapY tap) t.
Proof. unfold movedPastThreshold, farFrom, TAP_DISTANCE_THRESHOLD. apply sqrt_up_threshold. Qed.

Lemma clicksOf_app a b : clicksOf (a ++ b) = clicksOf a ++ clicksOf b.
Proof. unfold clicksOf. now rewrite firedOf_app, List.filter_app. Qed.

Lemma clicksOf_dispatchObs cfg ty e f rel extra :
  clicksOf (dispatchObs cfg ty e f rel extra) =
  if isClickType ty then [(ty, facadeId f)] else [].
Proof. unfold clicksOf. rewrite firedOf_dispatchObs. reflexivity. Qed.

Lemma clicksOf_motionObs cfg e hi w : clicksOf (motionObs cfg e hi w) = [].
Proof.
  unfold clicksOf. rewrite firedOf_motionObs. unfold motionFired.
  destruct (motionGate cfg); [|reflexivity].
  rewrite List.filter_app.
  assert (Hd : List.filter (fun p => isClickType (fst p)) (dragFired (dragInfo w)) = []).
  { unfold dragFired. destruct (dragInfo w) as [d|]; [|reflexivity].
    destruct (dragStartFired d); reflexivity. }
  rewrite Hd. unfold hoverFired.
  destruct (unchangedTarget (hoveredFacade w) _), (hoveredFacade w), hi,
    (isSome (dragInfo w)); reflexivity.
Qed.

(** What the code makes of the test that opens tap recognition. *)

Lemma answersAsSpecified_tapGate cfg f :
  answersAsSpecified (eventRegistry cfg) -> tapGate cfg f = false.
Proof.
  intro Ha. unfold tapGate. rewrite !hasEventHandlerInParentTree_answer.
  now rewrite !Ha.
Qed.

Lemma mapped_not_click type :
  isClickType type = false -> isClickType (mappedActionType type) = false.
Proof.
  intro H. unfold mappedActionType.
  destruct (String.eqb type "touchstart"); [reflexivity|].
  destruct (String.eqb type "touchend"); [reflexivity|].
  destruct (String.eqb type "touchcancel"); [reflexivity|exact H].
Qed.

Lemma clicksOf_actionObs_closed cfg e now hi w :
  (forall f, tapGate cfg f = false) ->
  isClickType (evType e) = false ->
  clicksOf (actionObs cfg e now hi w) = [].
Proof.
  intros Hgate Hty. unfold actionObs. rewrite !clicksOf_app.
  assert (H1 : clicksOf (if String.eqb (evType e) "touchstart" && singleTouchStart e
                         then motionObs cfg e hi w else []) = []).
  { destruct (String.eqb (evType e) "touchstart" && singleTouchStart e); [|reflexivity].
    apply clicksOf_motionObs. }
  assert (H3 : forall w2, clicksOf
            (if isTouchEndOrCancel e
             then match touchLists e with
                  | Some (_, [_]) => motionObs cfg e None w2
                  | _ => []
                  end
             else []) = []).
  { intro w2. destruct (isTouchEndOrCancel e); [|reflexivity].
    destruct (touchLists e) as [[ts [|c [|c' cs]]]|]; try reflexivity.
    apply clicksOf_motionObs. }
  rewrite H1, H3. cbn [app]. rewrite app_nil_r.
  unfold mainObs. destruct (actionGate cfg); [|reflexivity].
  destruct hi as [hit|]; [|reflexivity].
  rewrite !clicksOf_app, clicksOf_dispatchObs, (mapped_not_click _ Hty).
  unfold tapObs. rewrite Hgate. reflexivity.
Qed.

Lemma tapInfo_action_closed cfg e now hi w :
  (forall f, tapGate cfg f = false) ->
  tapInfo w = None ->
  tapInfo (worldAfterAction cfg e now hi w) = None.
Proof.
  intros Hgate Hnone.
  assert (H1 : tapInfo (worldAfterTouchStart cfg e hi w) = None).
  { unfold worldAfterTouchStart. destruct (String.eqb (evType e) "touchstart"); [|exact Hnone].
    destruct (singleTouchStart e); cbn; [|exact Hnone].
    rewrite tapInfo_worldAfterMotion, Hnone. reflexivity. }
  assert (H2 : tapInfo (worldAfterMain cfg e now hi (worldAfterTouchStart cfg e hi w)) = None).
  { unfold worldAfterMain. destruct (actionGate cfg); [|exact H1].
    destruct hi as [hit|]; cbn [tapInfo]; [|exact H1].
    unfold tapAfterAction. rewrite Hgate. exact H1. }
  unfold worldAfterAction, worldAfterTouchEnd.
  destruct (isTouchEndOrCancel e); [|exact H2].
  destruct (touchLists e) as [[ts [|c [|c' cs]]]|]; cbn; try exact H2.
  rewrite tapInfo_worldAfterMotion, H2. reflexivity.
Qed.

(** C4, where the code departs from it. The test that opens tap
    recognition, [_hasEventHandlerInParentTree], calls
    [hasFacadeListenersOfType] with the event type alone: the facade is
    left out, so the test is the registry's answer to that call, the same
    for every target: in the scene, whatever the registry answers, a touch
    start on the panel, which has a [click] listener, records a tap
    candidate exactly when one on the button does, on whose chain nothing
    listens. The registry of the specification has nothing
    registered under a missing type and answers no; then no action event
    records a tap candidate or dispatches a [click] that the native event
    is not itself. In the scene the panel has a [click] listener and is
    tapped as the claim asks (one touch, released on the panel after 150 ms,
    moved by 2 pixels): the touch start records no tap, and the events
    dispatched are those of the press, the move and the release (the panel
    can be dragged, so those of a drag are among them), with no [click]. *)
Theorem tap_never_clicks_C4 :
  (forall cfg facade type,
     _hasEventHandlerInParentTree cfg facade type
     = hasFacadeListenersOfType (eventRegistry cfg) type) /\
  (forall cfg e now hi w,
     answersAsSpecified (eventRegistry cfg) ->
     NoThrow (eventRegistry cfg) ->
     wellFormedEvent e = true ->
     hoverTarget cfg e = Returned hi ->
     exists w' obs,
       _onPointerActionEvent cfg e now w = (w', Returned tt) /\
       trace w' = trace w ++ obs /\
       (isClickType (evType e) = false -> clicksOf obs = []) /\
       (tapInfo w = None -> tapInfo w' = None)) /\
  (forall q : EventType -> bool,
     let cfg := Scene.configWith q in
     let onPanel := Scene.touch "touchstart" [mkTouch 50 10] [mkTouch 50 10] in
     let onButton := Scene.touch "touchstart" [mkTouch 150 10] [mkTouch 150 10] in
     hoverTarget cfg onPanel = Returned (Some (Scene.hitOn Scene.panel 5)) /\
     hoverTarget cfg onButton = Returned (Some (Scene.hitOn Scene.button 7)) /\
     hasListenerOn (eventRegistry cfg) "click" Scene.panel = true /\
     listenerOnChain (eventRegistry cfg) "click" Scene.button = false /\
     listenerOnChain (eventRegistry cfg) "dblclick" Scene.button = false /\
     isSome (tapInfo (fst (_onPointerActionEvent cfg onPanel 0 initialWorld))) =
     isSome (tapInfo (fst (_onPointerActionEvent cfg onButton 0 initialWorld)))) /\
  (answersAsSpecified (eventRegistry Scene.config) /\
   hasListenerOn (eventRegistry Scene.config) "click" Scene.panel = true /\
   hoverTarget Scene.config Demo.tapStart = Returned (Some (Scene.hitOn Scene.panel 5)) /\
   hoverTarget Scene.config Demo.tapEnd = Returned (Some (Scene.hitOn Scene.panel 5)) /\
   exists w1 w2 w3,
     _onPointerActionEvent Scene.config Demo.tapStart 1000 initialWorld = (w1, Returned tt) /\
     deliverAll Scene.config [Motion Demo.tapMove] w1 = (w2, Returned tt) /\
     _onPointerActionEvent Scene.config Demo.tapEnd 1150 w2 = (w3, Returned tt) /\
     tapInfo w1 = None /\
     clicksOf (trace w3) = [] /\
     firedOf (trace w3) =
       [("mouseover", 2%nat); ("mousemove", 2%nat); ("mousedown", 2%nat);
        ("dragstart", 2%nat); ("drag", 2%nat); ("mousemove", 2%nat);
        ("dragover", 2%nat); ("mouseup", 2%nat); ("drag", 2%nat);
        ("mouseout", 2%nat); ("dragleave", 2%nat)]).
Proof.
  split; [intros cfg facade type; apply hasEventHandlerInParentTree_answer|].
  split.
  - intros cfg e now hi w Ha Hn Hwf Hhi.
    exists (worldAfterAction cfg e now hi w), (actionObs cfg e now hi w).
    split; [now apply action_ok|]. split; [apply trace_worldAfterAction|].
    split.
    + apply clicksOf_actionObs_closed. intro f. now apply answersAsSpecified_tapGate.
    + apply tapInfo_action_closed. intro f. now apply answersAsSpecified_tapGate.
  - split.
    { intros q cfg onPanel onButton.
      split; [reflexivity|]. split; [reflexivity|]. split; [reflexivity|].
      split; [reflexivity|]. split; [reflexivity|].
      assert (Hn : NoThrow (eventRegistry cfg)) by apply sceneWith_NoThrow.
      rewrite (action_ok cfg onButton 0 (Some (Scene.hitOn Scene.button 7)) initialWorld
                 Hn eq_refl eq_refl).
      rewrite (action_ok cfg onPanel 0 (Some (Scene.hitOn Scene.panel 5)) initialWorld
                 Hn eq_refl eq_refl).
      cbn [fst].
      rewrite (touchstart_tapInfo cfg onButton 0 (mkTouch 150 10) [mkTouch 150 10] _
                 initialWorld eq_refl eq_refl eq_refl).
      rewrite (touchstart_tapInfo cfg onPanel 0 (mkTouch 50 10) [mkTouch 50 10] _
                 initialWorld eq_refl eq_refl eq_refl).
      rewrite (tapGate_any cfg (hitFacade (Scene.hitOn Scene.button 7))
                 (hitFacade (Scene.hitOn Scene.panel 5))).
      now destruct (tapGate cfg _). }
    split; [intro type; reflexivity|]. split; [reflexivity|].
    split; [reflexivity|]. split; [reflexivity|].
    eexists _, _, _.
    split; [vm_compute; reflexivity|]. split; [vm_compute; reflexivity|].
    split; [vm_compute; reflexivity|]. split; [vm_compute; reflexivity|].
    split; vm_compute; reflexivity.
Qed.

(** C7. With the registry of the specification, an action event on a target
    on whose ancestor chain nothing listens to [click] or [dblclick]
    records no tap candidate, so the pending tap is what it was or none, and
    dispatches no [click] or [dblclick], unless it is itself a native event
    of that type, which is passed on as every action event is. (The test in
    the code is closed for every target, see C4; so it is for this one.) *)
Theorem tap_only_with_listener_C7 (cfg : Config) (e : NativeEvent) (now : Z) (hit : Hit)
    (w : World) :
  answersAsSpecified (eventRegistry cfg) ->
  NoThrow (eventRegistry cfg) ->
  wellFormedEvent e = true ->
  hoverTarget cfg e = Returned (Some hit) ->
  listenerOnChain (eventRegistry cfg) "click" (hitFacade hit) = false ->
  listenerOnChain (eventRegistry cfg) "dblclick" (hitFacade hit) = false ->
  isClickType (evType e) = false ->
  exists w' obs,
    _onPointerActionEvent cfg e now w = (w', Returned tt) /\
    trace w' = trace w ++ obs /\
    clicksOf obs = [] /\
    (tapInfo w' = tapInfo w \/ tapInfo w' = None).
Proof.
  intros Ha Hn Hwf Hhi _ _ Hty.
  assert (Hgate : forall f, tapGate cfg f = false)
    by (intro f; now apply answersAsSpecified_tapGate).
  exists (worldAfterAction cfg e now (Some hit) w), (actionObs cfg e now (Some hit) w).
  split; [now apply action_ok|]. split; [apply trace_worldAfterAction|].
  split; [now apply clicksOf_actionObs_closed|].
  assert (H1 : tapInfo (worldAfterTouchStart cfg e (Some hit) w) = tapInfo w \/
               tapInfo (worldAfterTouchStart cfg e (Some hit) w) = None).
  { unfold worldAfterTouchStart.
    destruct (String.eqb (evType e) "touchstart") eqn:Hts; [|now left].
    destruct (singleTouchStart e); cbn; [|now left].
    rewrite tapInfo_worldAfterMotion. unfold tapAfterMotion.
    destruct (tapInfo w) as [tap|]; [|now left].
    apply String.eqb_eq in Hts. rewrite Hts. now left. }
  assert (H2 : tapInfo (worldAfterMain cfg e now (Some hit)
                          (worldAfterTouchStart cfg e (Some hit) w))
               = tapInfo (worldAfterTouchStart cfg e (Some hit) w)).
  { unfold worldAfterMain. destruct (actionGate cfg); [|reflexivity].
    cbn [tapInfo]. unfold tapAfterAction. now rewrite Hgate. }
  unfold worldAfterAction, worldAfterTouchEnd.
  destruct (isTouchEndOrCancel e) eqn:Hend; [|rewrite H2; exact H1].
  destruct (touchLists e) as [[ts [|c [|c' cs]]]|]; cbn; try (rewrite H2; exact H1).
  rewrite tapInfo_worldAfterMotion, H2. unfold tapAfterMotion.
  destruct (tapInfo (worldAfterTouchStart cfg e (Some hit) w)) as [tap|] eqn:Ht;
    [|now right].
  assert (Hnm : String.eqb (evType e) "touchmove" = false).
  { unfold isTouchEndOrCancel in Hend. apply orb_true_iff in Hend as [H|H];
      apply String.eqb_eq in H; now rewrite H. }
  rewrite Hnm. exact H1.
Qed.

Lemma tap_only_with_listener_C7_witness :
  let onButton := Scene.touch "touchstart" [mkTouch 150 10] [mkTouch 150 10] in
  answersAsSpecified (eventRegistry Scene.config) /\
  NoThrow (eventRegistry Scene.config) /\
  hoverTarget Scene.config onButton = Returned (Some (Scene.hitOn Scene.button 7)) /\
  listenerOnChain (eventRegistry Scene.config) "click" Scene.button = false /\
  listenerOnChain (eventRegistry Scene.config) "dblclick" Scene.button = false /\
  exists w' obs,
    _onPointerActionEvent Scene.config onButton 0 initialWorld = (w', Returned tt) /\
    trace w' = trace initialWorld ++ obs /\
    clicksOf obs = [] /\
    (tapInfo w' = tapInfo initialWorld \/ tapInfo w' = None).
Proof.
  intro onButton.
  assert (Ha : answersAsSpecified (eventRegistry Scene.config)) by (intro type; reflexivity).
  split; [exact Ha|]. split; [exact scene_NoThrow|]. split; [reflexivity|].
  split; [reflexivity|]. split; [reflexivity|].
  exact (tap_only_with_listener_C7 Scene.config onButton 0 (Scene.hitOn Scene.button 7)
           initialWorld Ha scene_NoThrow eq_refl eq_refl eq_refl eq_refl eq_refl).
Defined.

(** ** The theorems at work on the scene *)

Lemma firePointerEvent_bubbles_C3_witness :
  NoThrow (eventRegistry Scene.config) /\
  exists obs,
    _firePointerEvent Scene.config "mouseover" (inl Demo.overButton) Scene.button None None
      initialWorld
    = (observe (Fired "mouseover" 3%nat None :: obs) initialWorld, Returned tt) /\
    List.map (fun o => match o with Called h i => (h, hiThis i) | _ => (0, 0)%nat end)
             (calledOf obs) = [(11, 3)%nat].
Proof.
  split; [exact scene_NoThrow|].
  destruct (firePointerEvent_bubbles_C3 Scene.config "mouseover" Demo.overButton
              Scene.button None None initialWorld scene_NoThrow)
    as (obs & Hrun & Hcalls & _).
  exists obs. split; [exact Hrun|]. rewrite Hcalls. reflexivity.
Defined.

Lemma handler_exception_escapes_C9_witness :
  let ev0 := newSyntheticEvent Demo.clickPanel "click" Scene.panel None None in
  schedule Scene.throwingRegistry "click" ev0 Scene.panel =
    [(Scene.panel, Scene.quiet 20)] ++ (Scene.panel, Scene.thrower 21)
      :: [(Scene.panel, Scene.quiet 22); (Scene.root, Scene.quiet 23)] /\
  firstThrow ev0 [(Scene.panel, Scene.quiet 20)] = None /\
  throws (effectAt ev0 (Scene.panel, Scene.thrower 21)) = Some (HandlerError 7) /\
  exists obs,
    _firePointerEvent Scene.throwingConfig "click" (inl Demo.clickPanel) Scene.panel None None
      initialWorld
    = (observe (Fired "click" 2%nat None :: obs) initialWorld, Thrown (HandlerError 7)) /\
    List.map (fun o => match o with Called h _ => h | _ => 0%nat end) (calledOf obs)
    = [20; 21]%nat.
Proof.
  intro ev0.
  split; [reflexivity|]. split; [reflexivity|]. split; [reflexivity|].
  destruct (handler_exception_escapes_C9 Scene.throwingConfig "click" Demo.clickPanel
              Scene.panel None None initialWorld
              [(Scene.panel, Scene.quiet 20)]
              [(Scene.panel, Scene.quiet 22); (Scene.root, Scene.quiet 23)]
              (Scene.panel, Scene.thrower 21) (HandlerError 7)
              eq_refl eq_refl eq_refl)
    as (obs & Hrun & Hcalls & _).
  exists obs. split; [exact Hrun|]. rewrite Hcalls. reflexivity.
Defined.

Lemma drag_round_trip_C5_witness :
  NoThrow (eventRegistry Scene.config) /\
  motionGate Scene.config = true /\
  actionGate Scene.config = true /\
  hoverTarget Scene.config Demo.pressPanel = Returned (Some (Scene.hitOn Scene.panel 5)) /\
  onDragStart Scene.panel = true /\
  Forall (fun e => wellFormedEvent e = true) [Demo.dragOnPanel; Demo.dragToButton] /\
  hoverTarget Scene.config Demo.releaseOnButton = Returned (Some (Scene.hitOn Scene.button 7)) /\
  exists w1 w2 w3 obsM obsR,
    _onPointerActionEvent Scene.config Demo.pressPanel 0 initialWorld = (w1, Returned tt) /\
    deliverAll Scene.config [Motion Demo.dragOnPanel; Motion Demo.dragToButton] w1
      = (w2, Returned tt) /\
    trace w2 = trace w1 ++ obsM /\
    lifecycleOf obsM = [("dragstart", 2%nat); ("drag", 2%nat); ("drag", 2%nat)] /\
    deliver Scene.config (Release Demo.releaseOnButton) w2 = (w3, Returned tt) /\
    trace w3 = trace w2 ++ obsR /\
    firedOf obsR = [("drop", 3%nat); ("dragend", 2%nat)] /\
    dragInfo w3 = None /\
    dropListening w3 = false.
Proof.
  assert (Hwf : Forall (fun e => wellFormedEvent e = true)
                  [Demo.dragOnPanel; Demo.dragToButton])
    by (repeat constructor).
  split; [exact scene_NoThrow|]. split; [reflexivity|]. split; [reflexivity|].
  split; [reflexivity|]. split; [reflexivity|]. split; [exact Hwf|].
  split; [reflexivity|].
  destruct (drag_round_trip_C5 Scene.config Demo.pressPanel 0 (Scene.hitOn Scene.panel 5)
              Demo.dragOnPanel [Demo.dragToButton] Demo.releaseOnButton
              (Some (Scene.hitOn Scene.button 7)) initialWorld
              scene_NoThrow eq_refl eq_refl (or_introl eq_refl) eq_refl eq_refl eq_refl
              Hwf eq_refl)
    as (w1 & w2 & w3 & obsM & obsR & H1 & H2 & H3 & H4 & H5 & H6 & H7 & H8 & H9 & _).
  exists w1, w2, w3, obsM, obsR. repeat split; assumption.
Defined.

(** ** The octree changeset *)

Module World3DFacts.
Import World3D.

Lemma keysOf_spec m id : id ∈ keysOf m <-> queuedIn m id = true.
Proof.
  unfold keysOf, queuedIn. destruct m as [m|].
  - rewrite bool_decide_eq_true. rewrite list_elem_of_fmap. split.
    + intros ([k v] & -> & Hin). apply elem_of_map_to_list in Hin. eauto.
    + intros [v Hv]. exists (id, v). split; [reflexivity|].
      now apply elem_of_map_to_list.
  - split; [intro H; inversion H|discriminate].
Qed.

Lemma fold_remove_lookup ks : forall (o : gmap nat Sphere) id,
  List.fold_left (fun o k => removeSphere k o) ks o !! id =
  if bool_decide (id ∈ ks) then None else o !! id.
Proof.
  induction ks as [|k ks IH]; intros o id; cbn [List.fold_left].
  - rewrite bool_decide_eq_false_2; [reflexivity|]. intro H. inversion H.
  - rewrite IH. unfold removeSphere.
    destruct (decide (id = k)) as [->|Hne].
    + rewrite lookup_delete_eq. rewrite (bool_decide_eq_true_2 (k ∈ k :: ks)) by left.
      now destruct (bool_decide (k ∈ ks)).
    + rewrite lookup_delete_ne by congruence.
      destruct (bool_decide (id ∈ ks)) eqn:Hin.
      * apply bool_decide_eq_true in Hin.
        rewrite bool_decide_eq_true_2; [reflexivity|now right].
      * apply bool_decide_eq_false in Hin.
        rewrite bool_decide_eq_false_2; [reflexivity|].
        intro H. inversion H; subst; contradiction.
Qed.

Lemma applyPut_lookup byId rm (o : gmap nat Sphere) k id :
  applyPut byId rm o k !! id =
  if decide (k = id)
  then (if inRemove rm id then o !! id else putAt byId id (o !! id))
  else o !! id.
Proof.
  unfold applyPut, putAt, putSphere, removeSphere.
  destruct (decide (k = id)) as [->|Hne].
  - destruct (byId !! id) as [fac|]; [|now destruct (inRemove rm id)].
    destruct (isDestroying fac), (inRemove rm id); cbn; try reflexivity;
      destruct (boundingSphere fac);
      now rewrite ?lookup_insert_eq, ?lookup_delete_eq.
  - destruct (byId !! k) as [fac|]; [|reflexivity].
    destruct (negb (isDestroying fac) && negb (inRemove rm k)); [|reflexivity].
    destruct (boundingSphere fac);
      now rewrite ?lookup_insert_ne, ?lookup_delete_ne by exact Hne.
Qed.

Lemma putAt_idem byId id before :
  putAt byId id (putAt byId id before) = putAt byId id before.
Proof.
  unfold putAt. destruct (byId !! id) as [fac|]; [|reflexivity].
  now destruct (isDestroying fac).
Qed.

Lemma fold_put_lookup byId rm ks : forall (o : gmap nat Sphere) id,
  List.fold_left (applyPut byId rm) ks o !! id =
  if bool_decide (id ∈ ks)
  then (if inRemove rm id then o !! id else putAt byId id (o !! id))
  else o !! id.
Proof.
  induction ks as [|k ks IH]; intros o id; cbn [List.fold_left].
  - rewrite bool_decide_eq_false_2; [reflexivity|]. intro H. inversion H.
  - rewrite IH, applyPut_lookup.
    destruct (decide (k = id)) as [->|Hne].
    + rewrite (bool_decide_eq_true_2 (id ∈ id :: ks)) by left.
      destruct (bool_decide (id ∈ ks)), (inRemove rm id); try reflexivity.
      apply putAt_idem.
    + destruct (bool_decide (id ∈ ks)) eqn:Hin.
      * apply bool_decide_eq_true in Hin.
        rewrite bool_decide_eq_true_2; [reflexivity|now right].
      * apply bool_decide_eq_false in Hin.
        rewrite bool_decide_eq_false_2; [reflexivity|].
        intro H. inversion H; subst; contradiction.
Qed.

Lemma bool_decide_keysOf m id : bool_decide (id ∈ keysOf m) = queuedIn m id.
Proof.
  destruct (queuedIn m id) eqn:Hq.
  - apply bool_decide_eq_true_2. now apply keysOf_spec.
  - apply bool_decide_eq_false_2. rewrite keysOf_spec. congruence.
Qed.

Lemma applyChanges_lookup byId changes (o : gmap nat Sphere) id :
  applyChanges byId changes o !! id =
  if queuedIn (remove changes) id then None
  else if queuedIn (put changes) id then putAt byId id (o !! id)
  else o !! id.
Proof.
  unfold applyChanges. rewrite fold_put_lookup, fold_remove_lookup.
  rewrite !bool_decide_keysOf. unfold inRemove.
  destruct (queuedIn (remove changes) id), (queuedIn (put changes) id); reflexivity.
Qed.
End World3DFacts.

(** C6, as the code has it. A pending changeset is applied by the flush that
    precedes a ray query and is gone afterwards, so that a second flush
    changes nothing; after the flush an id queued as remove has no entry,
    also when it is queued as put; an id queued as put only, whose facade is
    registered and not destroying, has its current bounding sphere as entry,
    and no entry when it has no sphere; an id queued as put only whose facade
    is destroying or not registered keeps the entry it had, or none; any
    other id keeps its entry. *)
Theorem octree_flush_C6 (s : World3D.State) (changes : World3D.Changeset) :
  World3D._octreeChangeset s = Some changes ->
  exists octree' : gmap nat World3D.Sphere,
    World3D.octreeAtQuery s =
      (World3D.mkState (Some octree') None (World3D._object3DFacadesById s), Some octree') /\
    World3D._updateOctree (fst (World3D._updateOctree s)) =
      (fst (World3D._updateOctree s), Some octree') /\
    forall id : nat,
      let before := default ∅ (World3D._boundingSphereOctree s) !! id in
      (World3D.queuedIn (World3D.remove changes) id = true -> octree' !! id = None) /\
      (World3D.queuedIn (World3D.remove changes) id = false ->
       World3D.queuedIn (World3D.put changes) id = true ->
       octree' !! id =
         match World3D._object3DFacadesById s !! id with
         | Some facade =>
             if World3D.isDestroying facade then before else World3D.boundingSphere facade
         | None => before
         end) /\
      (World3D.queuedIn (World3D.remove changes) id = false ->
       World3D.queuedIn (World3D.put changes) id = false ->
       octree' !! id = before).
Proof.
  intro Hc.
  exists (World3D.applyChanges (World3D._object3DFacadesById s) changes
            (default ∅ (World3D._boundingSphereOctree s))).
  unfold World3D.octreeAtQuery, World3D._updateOctree. rewrite Hc. cbn.
  split; [reflexivity|]. split; [reflexivity|].
  intro id. rewrite World3DFacts.applyChanges_lookup.
  repeat split.
  - intros ->. reflexivity.
  - intros -> ->. reflexivity.
  - intros -> ->. reflexivity.
Qed.

Lemma octree_flush_C6_witness :
  exists changes octree',
    World3D._octreeChangeset World3D.busyState = Some changes /\
    World3D.octreeAtQuery World3D.busyState =
      (World3D.mkState (Some octree') None
         (World3D._object3DFacadesById World3D.busyState), Some octree') /\
    octree' !! 1%nat = None /\
    octree' !! 2%nat = None /\
    octree' !! 3%nat = Some (World3D.mkSphere 5 5 5 2).
Proof.
  destruct (World3D._octreeChangeset World3D.busyState) as [changes|] eqn:Hc;
    [|vm_compute in Hc; discriminate].
  destruct (octree_flush_C6 World3D.busyState changes Hc) as (octree' & Hq & _ & Hid).
  exists changes, octree'. split; [reflexivity|]. split; [exact Hq|].
  assert (Hch : changes = default (World3D.mkChangeset None None)
                            (World3D._octreeChangeset World3D.busyState))
    by now rewrite Hc.
  split; [|split].
  - apply (Hid 1%nat). rewrite Hch. reflexivity.
  - destruct (Hid 2%nat) as (_ & H2 & _). rewrite H2; rewrite ?Hch; reflexivity.
  - destruct (Hid 3%nat) as (_ & H3 & _). rewrite H3; rewrite ?Hch; reflexivity.
Defined.

(** The claim C6 as stated fails where it says that a put for a destroyed
    facade removes its entry: the entry stays. *)
Lemma destroyed_put_keeps_entry_C6_counterexample :
  World3D.queuedIn
    (World3D.put (default (World3D.mkChangeset None None)
                    (World3D._octreeChangeset World3D.staleState))) 1 = true /\
  (World3D.isDestroying <$> World3D._object3DFacadesById World3D.staleState !! 1%nat)
    = Some true /\
  ~ (match snd (World3D._updateOctree World3D.staleState) with
     | Some octree' => octree' !! 1%nat = None
     | None => True
     end).
Proof.
  split; [reflexivity|]. split; [reflexivity|].
  vm_compute. discriminate.
Qed.

(** ** [BasicThenable] *)

(** C10, where the code departs from it. Resolved with a foreign thenable
    whose [then] calls its first callback and then its second, the thenable
    is settled twice: fulfilled with the first value, then rejected with the
    second. When the second call comes in a later task, a callback
    registered before it has seen the thenable fulfilled and a callback
    registered after it sees it rejected. *)
Theorem thenable_settles_twice_C10 :
  Thenable.settlements (Thenable.resolve Thenable.callsBoth Thenable.initial)
    = [(1, Thenable.Plain 1); (-1, Thenable.Plain 2)] /\
  Thenable.state (Thenable.resolve Thenable.callsBoth Thenable.initial) = -1 /\
  (let s1 := Thenable.then_ (Thenable.mkCallbacks (Some 1%nat) (Some 2%nat)) Thenable.initial in
   let s2 := Thenable.tick (Thenable.resolve Thenable.callsSecondLater s1) in
   let s3 := Thenable.later s2 in
   let s4 := Thenable.tick
               (Thenable.then_ (Thenable.mkCallbacks (Some 3%nat) (Some 4%nat)) s3) in
   Thenable.state s2 = 1 /\
   Thenable.state s3 = -1 /\
   Thenable.observed s4 =
     [(1%nat, 1, Some (Thenable.Plain 1)); (4%nat, -1, Some (Thenable.Plain 2))]).
Proof. repeat split. Qed.

(** ** More of the pipeline *)

Lemma hitLe_refl a : hitLe a a.
Proof. unfold hitLe. lia. Qed.

Lemma find_sorted_least (p : Hit -> bool) l :
  StronglySorted hitLe l ->
  match List.find p l with
  | Some h => In h l /\ p h = true /\ Forall (fun h' => p h' = true -> hitLe h h') l
  | None => Forall (fun h' => p h' = false) l
  end.
Proof.
  induction 1 as [|y l Hs IH Hall]; cbn [List.find]; [constructor|].
  destruct (p y) eqn:Hy.
  - split; [now left|]. split; [exact Hy|].
    constructor; [intros _; apply hitLe_refl|].
    eapply List.Forall_impl; [|exact Hall]. intros h' Hh' _. exact Hh'.
  - destruct (List.find p l) as [h|].
    + destruct IH as (Hin & Hp & Hle). split; [now right|]. split; [exact Hp|].
      constructor; [congruence|exact Hle].
    + now constructor.
Qed.

(** X1. The target [_findHoverTarget] picks among candidate hits is a hit of
    the list whose facade intercepts pointer events and that comes first in
    the order by distance and bias among all such hits; hits whose facade
    does not intercept are passed over, and no target is picked exactly when
    no hit intercepts. *)
Theorem findHoverTarget_nearest_intercepting (allHits : list Hit) :
  match findHoverTargetIn (Some allHits) with
  | Some h =>
      In h allHits /\
      interceptsPointerEvents (hitFacade h) = true /\
      Forall (fun h' => interceptsPointerEvents (hitFacade h') = true -> hitLe h h') allHits
  | None =>
      Forall (fun h' => interceptsPointerEvents (hitFacade h') = false) allHits
  end.
Proof.
  cbn [findHoverTargetIn].
  pose proof (find_sorted_least (fun h => interceptsPointerEvents (hitFacade h))
                (sortHits allHits) (sortHits_sorted allHits)) as H.
  pose proof (sortHits_perm allHits) as Hperm.
  destruct (List.find _ (sortHits allHits)) as [h|].
  - destruct H as (Hin & Hp & Hall). split.
    + eapply Permutation_in; [symmetry; exact Hperm|exact Hin].
    + split; [exact Hp|]. eapply Permutation_Forall; [symmetry; exact Hperm|exact Hall].
  - eapply Permutation_Forall; [symmetry; exact Hperm|exact H].
Qed.

Lemma hoverFired_none prev dragging :
  hoverFired prev None dragging =
  match prev with
  | Some last =>
      ("mouseout", facadeId last) :: (if dragging then [("dragleave", facadeId last)] else [])
  | None => []
  end.
Proof. unfold hoverFired, idOf. destruct prev; cbn; now rewrite ?app_nil_r. Qed.

(** X2. A motion event that carries more than one touch resolves no target,
    whatever lies under the touches: the hovered facade becomes none, and
    the facade hovered before, if any, gets [mouseout] (and [dragleave]
    while dragging) and nothing else of the hover class. *)
Theorem multi_touch_motion_unhovers (cfg : Config) (e : NativeEvent)
    (ts cs : list Touch) (w : World) :
  NoThrow (eventRegistry cfg) ->
  motionGate cfg = true ->
  touchLists e = Some (ts, cs) ->
  (1 < length ts)%nat ->
  exists w',
    _onPointerMotionEvent cfg e w = (w', Returned tt) /\
    hoveredFacade w' = None /\
    trace w' = trace w ++ dragObs cfg e (dragInfo w)
                 ++ hoverObs cfg e (hoveredFacade w) None (isSome (dragInfo w)) /\
    firedOf (hoverObs cfg e (hoveredFacade w) None (isSome (dragInfo w))) =
      match hoveredFacade w with
      | Some last =>
          ("mouseout", facadeId last)
            :: (if isSome (dragInfo w) then [("dragleave", facadeId last)] else [])
      | None => []
      end.
Proof.
  intros Hn Hg Hl Hlen.
  assert (Hwf : wellFormedEvent e = true).
  { unfold wellFormedEvent. rewrite Hl. destruct ts; [inversion Hlen|reflexivity]. }
  assert (Hhi : motionHoverInfo cfg e = Returned None).
  { unfold motionHoverInfo, hoverTarget, getFacadesAtEvent. rewrite Hl.
    apply Nat.ltb_lt in Hlen. rewrite Hlen. now destruct (_ || _). }
  exists (worldAfterMotion cfg e None w).
  split; [now apply motion_ok|].
  unfold worldAfterMotion. rewrite Hg. cbn [hoveredFacade trace option_map].
  split; [reflexivity|]. split; [reflexivity|].
  rewrite firedOf_hoverObs. apply hoverFired_none.
Qed.

Lemma multi_touch_motion_unhovers_witness :
  NoThrow (eventRegistry Scene.config) /\
  motionGate Scene.config = true /\
  exists w',
    _onPointerMotionEvent Scene.config
      (Scene.touch "touchmove" [mkTouch 50 10; mkTouch 60 10] [mkTouch 60 10])
      (setHovered (Some Scene.panel) initialWorld) = (w', Returned tt) /\
    hoveredFacade w' = None /\
    firedOf (trace w') = [("mouseout", 2%nat)].
Proof.
  split; [exact scene_NoThrow|]. split; [reflexivity|].
  destruct (multi_touch_motion_unhovers Scene.config
              (Scene.touch "touchmove" [mkTouch 50 10; mkTouch 60 10] [mkTouch 60 10])
              [mkTouch 50 10; mkTouch 60 10] [mkTouch 60 10]
              (setHovered (Some Scene.panel) initialWorld)
              scene_NoThrow eq_refl eq_refl (le_n 2))
    as (w' & Hrun & Hh & Htr & Hf).
  exists w'. split; [exact Hrun|]. split; [exact Hh|].
  rewrite Htr, !firedOf_app, Hf. reflexivity.
Defined.

(** X3. A [mouseout] of the element and the end or cancel of a touch make no
    hit test: the hovered facade becomes none even where the event lies over
    a facade, and the facade hovered before gets [mouseout]. *)
Theorem leaving_events_unhover (cfg : Config) (e : NativeEvent) (w : World) :
  NoThrow (eventRegistry cfg) ->
  motionGate cfg = true ->
  wellFormedEvent e = true ->
  String.eqb (evType e) "mouseout" || isTouchEndOrCancel e = true ->
  exists w',
    _onPointerMotionEvent cfg e w = (w', Returned tt) /\
    hoveredFacade w' = None /\
    trace w' = trace w ++ dragObs cfg e (dragInfo w)
                 ++ hoverObs cfg e (hoveredFacade w) None (isSome (dragInfo w)) /\
    firedOf (hoverObs cfg e (hoveredFacade w) None (isSome (dragInfo w))) =
      match hoveredFacade w with
      | Some last =>
          ("mouseout", facadeId last)
            :: (if isSome (dragInfo w) then [("dragleave", facadeId last)] else [])
      | None => []
      end.
Proof.
  intros Hn Hg Hwf Hty.
  assert (Hhi : motionHoverInfo cfg e = Returned None).
  { unfold motionHoverInfo. now rewrite Hty. }
  exists (worldAfterMotion cfg e None w).
  split; [now apply motion_ok|].
  unfold worldAfterMotion. rewrite Hg. cbn [hoveredFacade trace option_map].
  split; [reflexivity|]. split; [reflexivity|].
  rewrite firedOf_hoverObs. apply hoverFired_none.
Qed.

Lemma leaving_events_unhover_witness :
  NoThrow (eventRegistry Scene.config) /\
  motionGate Scene.config = true /\
  hoverTarget Scene.config (Scene.mouse "mouseout" 50 10)
    = Returned (Some (Scene.hitOn Scene.panel 5)) /\
  exists w',
    _onPointerMotionEvent Scene.config (Scene.mouse "mouseout" 50 10)
      (setHovered (Some Scene.panel) initialWorld) = (w', Returned tt) /\
    hoveredFacade w' = None /\
    firedOf (trace w') = [("mouseout", 2%nat)].
Proof.
  split; [exact scene_NoThrow|]. split; [reflexivity|]. split; [reflexivity|].
  destruct (leaving_events_unhover Scene.config (Scene.mouse "mouseout" 50 10)
              (setHovered (Some Scene.panel) initialWorld)
              scene_NoThrow eq_refl eq_refl eq_refl)
    as (w' & Hrun & Hh & Htr & Hf).
  exists w'. split; [exact Hrun|]. split; [exact Hh|].
  rewrite Htr, !firedOf_app, Hf. reflexivity.
Defined.

(** X4. With no listener of a motion type registered, a motion event
    dispatches nothing, makes no hit test and leaves the hovered facade and a
    pending drag as they were, so that no [dragstart] is due; all it can do
    is drop the pending tap. No handler is called, so this holds whatever the
    handlers are. *)
Theorem motion_without_listeners (cfg : Config) (e : NativeEvent) (w : World) :
  motionGate cfg = false ->
  wellFormedEvent e = true ->
  exists w',
    _onPointerMotionEvent cfg e w = (w', Returned tt) /\
    trace w' = trace w /\
    hoveredFacade w' = hoveredFacade w /\
    dragInfo w' = dragInfo w /\
    dropListening w' = dropListening w /\
    tapInfo w' = tapAfterMotion e (tapInfo w).
Proof.
  intros Hg Hwf. exists (setTapInfo (tapAfterMotion e (tapInfo w)) w).
  split; [|repeat split].
  rewrite motion_blocks, Hg. cbn [when]. unfold bind at 1. unfold ret at 1.
  now apply motionTapCancel_ok.
Qed.

Lemma motion_without_listeners_witness :
  let cfg := {| eventRegistry := Scene.registry; pointerMotionEventTypes := [];
                pointerActionEventTypes := Scene.actionTypes;
                getFacadesAtPosition := Scene.pick |} in
  motionGate cfg = false /\
  wellFormedEvent Demo.overButton = true /\
  exists w',
    _onPointerMotionEvent cfg Demo.overButton (setHovered (Some Scene.panel) initialWorld)
      = (w', Returned tt) /\
    trace w' = [] /\
    hoveredFacade w' = Some Scene.panel.
Proof.
  intro cfg. split; [reflexivity|]. split; [reflexivity|].
  destruct (motion_without_listeners cfg Demo.overButton
              (setHovered (Some Scene.panel) initialWorld) eq_refl eq_refl)
    as (w' & Hrun & Htr & Hh & _).
  exists w'. split; [exact Hrun|]. split; [exact Htr|exact Hh].
Defined.

(** X5. A pending tap survives a motion event unless the event is a
    [touchmove] whose first changed touch lies more than 10 pixels from the
    point where the tap began: the squared distance is compared with 100,
    strictly, so a move of exactly 10 pixels keeps the tap; other touches
    and other event types never drop it. *)
Theorem tap_survives_small_moves (cfg : Config) (e : NativeEvent) (hi : option Hit)
    (tap : TapInfo) (w : World) :
  NoThrow (eventRegistry cfg) ->
  wellFormedEvent e = true ->
  motionHoverInfo cfg e = Returned hi ->
  tapInfo w = Some tap ->
  exists w',
    _onPointerMotionEvent cfg e w = (w', Returned tt) /\
    tapInfo w' =
      (if String.eqb (evType e) "touchmove"
       then match touchLists e with
            | Some (_, c :: _) =>
                if 100 <? (touchClientX c - tapX tap) ^ 2 + (touchClientY c - tapY tap) ^ 2
                then None else Some tap
            | _ => Some tap
            end
       else Some tap).
Proof.
  intros Hn Hwf Hhi Htap. exists (worldAfterMotion cfg e hi w).
  split; [now apply motion_ok|].
  rewrite tapInfo_worldAfterMotion, Htap. unfold tapAfterMotion.
  destruct (String.eqb (evType e) "touchmove"); [|reflexivity].
  destruct (touchLists e) as [[ts [|c cs]]|]; try reflexivity.
  now rewrite movedPastThreshold_far.
Qed.

Lemma tap_survives_small_moves_witness :
  let tap := {| tapFacade := Scene.panel; tapX := 50; tapY := 50;
                startTime := 0; isDblClick := false |} in
  let byTen := Scene.touch "touchmove" [mkTouch 56 58] [mkTouch 56 58] in
  NoThrow (eventRegistry Scene.config) /\
  wellFormedEvent byTen = true /\
  motionHoverInfo Scene.config byTen = Returned (Some (Scene.hitOn Scene.panel 5)) /\
  exists w',
    _onPointerMotionEvent Scene.config byTen (setTapInfo (Some tap) initialWorld)
      = (w', Returned tt) /\
    tapInfo w' = Some tap.
Proof.
  intros tap byTen.
  split; [exact scene_NoThrow|]. split; [reflexivity|]. split; [reflexivity|].
  exact (tap_survives_small_moves Scene.config byTen (Some (Scene.hitOn Scene.panel 5)) tap
           (setTapInfo (Some tap) initialWorld) scene_NoThrow eq_refl eq_refl eq_refl).
Defined.

(** X6. An action event of type [touchstart] leaves the element's context
    menu suppressed, one of type [touchend] or [touchcancel] leaves it
    allowed again, and any other action event leaves it as it was, however
    many touches the event carries and whether or not it hits a facade. *)
Theorem context_menu_follows_touch (cfg : Config) (e : NativeEvent) (now : Z)
    (hi : option Hit) (w : World) :
  NoThrow (eventRegistry cfg) ->
  wellFormedEvent e = true ->
  hoverTarget cfg e = Returned hi ->
  exists w',
    _onPointerActionEvent cfg e now w = (w', Returned tt) /\
    contextMenuKilled w' =
      if isTouchEndOrCancel e then false
      else if String.eqb (evType e) "touchstart" then true
      else contextMenuKilled w.
Proof.
  intros Hn Hwf Hhi. exists (worldAfterAction cfg e now hi w).
  split; [now apply action_ok|].
  unfold worldAfterAction, worldAfterTouchEnd.
  destruct (isTouchEndOrCancel e); [reflexivity|].
  assert (Hmain : forall v, contextMenuKilled (worldAfterMain cfg e now hi v)
                            = contextMenuKilled v).
  { intro v. unfold worldAfterMain. destruct (actionGate cfg); [|reflexivity].
    now destruct hi. }
  rewrite Hmain. unfold worldAfterTouchStart.
  now destruct (String.eqb (evType e) "touchstart").
Qed.

Lemma context_menu_follows_touch_witness :
  NoThrow (eventRegistry Scene.config) /\
  wellFormedEvent Demo.tapStart = true /\
  hoverTarget Scene.config Demo.tapStart = Returned (Some (Scene.hitOn Scene.panel 5)) /\
  exists w',
    _onPointerActionEvent Scene.config Demo.tapStart 0 initialWorld = (w', Returned tt) /\
    contextMenuKilled w' = true.
Proof.
  split; [exact scene_NoThrow|]. split; [reflexivity|]. split; [reflexivity|].
  exact (context_menu_follows_touch Scene.config Demo.tapStart 0
           (Some (Scene.hitOn Scene.panel 5)) initialWorld scene_NoThrow eq_refl eq_refl).
Defined.

Lemma noStop_stopsAt reg ty ev0 n : NoStop reg -> stopsAt reg ty ev0 n = false.
Proof.
  intro Hs. unfold stopsAt, callsOn, handlersOf.
  assert (Hall : forall ls, (forall l, In l ls -> In l (listeners reg)) ->
            List.existsb (fun c => callsStopPropagation (effectAt ev0 c))
              (List.map (pair n) (List.map listenerHandler ls)) = false).
  { induction ls as [|l ls IH]; intro Hin; [reflexivity|].
    cbn [List.map List.existsb]. unfold effectAt at 1. cbn [fst snd].
    rewrite (Hs l _ (Hin l (or_introl eq_refl))). cbn [orb].
    apply IH. intros l' Hl'. apply Hin. now right. }
  apply Hall. intros l Hl. apply List.filter_In in Hl. tauto.
Qed.

Lemma noStop_visited reg ty ev0 nodes : NoStop reg -> visited reg ty ev0 nodes = nodes.
Proof.
  intro Hs. induction nodes as [|n ns IH]; [reflexivity|].
  cbn [visited]. now rewrite (noStop_stopsAt reg ty ev0 n Hs), IH.
Qed.

(** X7. When no registered handler stops propagation or throws, a dispatch
    calls every handler of the event type on the target and on every
    ancestor up to the root; a handler that calls [preventDefault] does not
    cut the walk short. *)
Theorem bubbling_reaches_every_ancestor (cfg : Config) (ty : EventType) (e : NativeEvent)
    (target : Facade) (rel : option Facade) (extra : option Hit) (w : World) :
  NoThrow (eventRegistry cfg) ->
  NoStop (eventRegistry cfg) ->
  let reg := eventRegistry cfg in
  let ev0 := newSyntheticEvent e ty target rel extra in
  exists obs,
    _firePointerEvent cfg ty (inl e) target rel extra w =
      (observe (Fired ty (facadeId target) (option_map facadeId rel) :: obs) w, Returned tt) /\
    calledOf obs = List.map (calledObs ev0) (List.flat_map (callsOn reg ty) (chain target)).
Proof.
  intros Hn Hs reg ev0.
  exists (List.flat_map (obsOfCall ev0) (schedule reg ty ev0 target)).
  split.
  - rewrite fire_native_ok by exact Hn. unfold dispatchObs. fold ev0 reg.
    now rewrite (cutAtThrow_none ev0 _ (bubble_no_throw reg ty ev0 target Hn)).
  - rewrite calledOf_obsOfCall. unfold schedule.
    now rewrite (noStop_visited reg ty ev0 (chain target) Hs).
Qed.

Lemma bubbling_reaches_every_ancestor_witness :
  let reg :=
    {| listeners := [ Scene.on "click" Scene.panel
                        {| handlerName := 40;
                           handlerBody := fun _ => Scene.effect false true None |};
                      Scene.on "click" Scene.root (Scene.quiet 41) ];
       hasFacadeListenersOfType := fun _ => true |} in
  let cfg := {| eventRegistry := reg; pointerMotionEventTypes := Scene.motionTypes;
                pointerActionEventTypes := Scene.actionTypes;
                getFacadesAtPosition := Scene.pick |} in
  NoThrow reg /\ NoStop reg /\
  exists obs,
    _firePointerEvent cfg "click" (inl Demo.clickPanel) Scene.panel None None initialWorld
    = (observe (Fired "click" 2%nat None :: obs) initialWorld, Returned tt) /\
    List.map (fun o => match o with Called h i => (h, hiThis i) | _ => (0, 0)%nat end)
             (calledOf obs) = [(40, 2); (41, 1)]%nat.
Proof.
  intros reg cfg.
  assert (Hn : NoThrow reg).
  { intros l input Hin. cbn in Hin.
    repeat (destruct Hin as [<-|Hin]; [reflexivity|]). destruct Hin. }
  assert (Hs : NoStop reg).
  { intros l input Hin. cbn in Hin.
    repeat (destruct Hin as [<-|Hin]; [reflexivity|]). destruct Hin. }
  split; [exact Hn|]. split; [exact Hs|].
  destruct (bubbling_reaches_every_ancestor cfg "click" Demo.clickPanel Scene.panel
              None None initialWorld Hn Hs) as (obs & Hrun & Hcalls).
  exists obs. split; [exact Hrun|]. rewrite Hcalls. reflexivity.
Defined.

Lemma not_touch_type type :
  isTouchType type = false ->
  String.eqb type "touchstart" = false /\ String.eqb type "touchend" = false /\
  String.eqb type "touchcancel" = false.
Proof.
  unfold isTouchType. intro H.
  destruct (String.eqb type "touchstart"), (String.eqb type "touchmove"),
    (String.eqb type "touchend"), (String.eqb type "touchcancel");
    try discriminate; auto.
Qed.

(** X8. With no [dragstart] listener and no listener of an action type
    registered, an action event that is not a touch event is ignored
    altogether: nothing is dispatched, the native default is not prevented,
    and hover, tap and drag state stay as they were. *)
Theorem mouse_action_without_listeners (cfg : Config) (e : NativeEvent) (now : Z) (w : World) :
  actionGate cfg = false ->
  isTouchType (evType e) = false ->
  _onPointerActionEvent cfg e now w = (w, Returned tt).
Proof.
  intros Hg Hty. destruct (not_touch_type _ Hty) as (H1 & H2 & H3).
  rewrite action_blocks.
  unfold actionTouchStart, actionMain, actionTouchEnd, isTouchEndOrCancel.
  rewrite H1, H2, H3, Hg. reflexivity.
Qed.

Lemma mouse_action_without_listeners_witness :
  let cfg := {| eventRegistry := {| listeners := [Scene.on "mouseover" Scene.panel (Scene.quiet 1)];
                                    hasFacadeListenersOfType := fun _ => true |};
                pointerMotionEventTypes := Scene.motionTypes;
                pointerActionEventTypes := Scene.actionTypes;
                getFacadesAtPosition := Scene.pick |} in
  actionGate cfg = false /\
  isTouchType (evType Demo.pressPanel) = false /\
  _onPointerActionEvent cfg Demo.pressPanel 0 initialWorld = (initialWorld, Returned tt).
Proof.
  intro cfg. split; [reflexivity|]. split; [reflexivity|].
  exact (mouse_action_without_listeners cfg Demo.pressPanel 0 initialWorld eq_refl eq_refl).
Defined.

(** X9. An action event that is not a touch event and hits a facade is
    dispatched once, under its own type, and then has its default prevented;
    it fires no [click] or [dblclick] of its own making, leaves the pending
    tap and the hovered facade as they were, and starts a drag only when it
    is a [mousedown] on a facade that declares [onDragStart]. *)
Theorem mouse_action_dispatches_once (cfg : Config) (e : NativeEvent) (now : Z)
    (hit : Hit) (w : World) :
  NoThrow (eventRegistry cfg) ->
  actionGate cfg = true ->
  isTouchType (evType e) = false ->
  wellFormedEvent e = true ->
  hoverTarget cfg e = Returned (Some hit) ->
  exists w',
    _onPointerActionEvent cfg e now w = (w', Returned tt) /\
    trace w' = trace w
                 ++ dispatchObs cfg (evType e) e (hitFacade hit) None (Some hit)
                 ++ [NativePreventDefault ByPipeline] /\
    tapInfo w' = tapInfo w /\
    hoveredFacade w' = hoveredFacade w /\
    dragInfo w' =
      if onDragStart (hitFacade hit) && String.eqb (evType e) "mousedown"
      then Some {| draggedFacade := hitFacade hit; dragStartFired := false;
                   dragStartEvent :=
                     newSyntheticEvent e "dragstart" (hitFacade hit) None None |}
      else dragInfo w.
Proof.
  intros Hn Hg Hty Hwf Hhi. destruct (not_touch_type _ Hty) as (H1 & H2 & H3).
  exists (worldAfterAction cfg e now (Some hit) w).
  split; [now apply action_ok|].
  assert (Hsingle : singleTouchStart e = false).
  { unfold singleTouchStart. now rewrite H1. }
  unfold worldAfterAction, worldAfterTouchEnd, worldAfterTouchStart, isTouchEndOrCancel.
  rewrite H1, H2, H3. cbn [orb].
  unfold worldAfterMain. rewrite Hg.
  cbn [trace tapInfo hoveredFacade dragInfo].
  assert (Hobs : tapObs cfg e now hit (tapInfo w) = []).
  { unfold tapObs. rewrite Hsingle.
    destruct (tapGate cfg (hitFacade hit)); [|reflexivity]. cbn [andb negb].
    destruct (tapInfo w) as [tap|]; [|reflexivity].
    unfold endsTap. rewrite H2. now rewrite andb_false_r. }
  rewrite Hobs. cbn [app].
  unfold mappedActionType. rewrite H1, H2, H3.
  split; [reflexivity|]. split.
  { unfold tapAfterAction. rewrite Hsingle. now rewrite andb_false_r. }
  split; [reflexivity|].
  unfold startsDrag. now rewrite H1, orb_false_r.
Qed.

Lemma mouse_action_dispatches_once_witness :
  NoThrow (eventRegistry Scene.config) /\
  actionGate Scene.config = true /\
  isTouchType (evType Demo.clickPanel) = false /\
  wellFormedEvent Demo.clickPanel = true /\
  hoverTarget Scene.config Demo.clickPanel = Returned (Some (Scene.hitOn Scene.panel 5)) /\
  exists w',
    _onPointerActionEvent Scene.config Demo.clickPanel 0 initialWorld = (w', Returned tt) /\
    firedOf (trace w') = [("click", 2%nat)] /\
    dragInfo w' = None.
Proof.
  split; [exact scene_NoThrow|]. split; [reflexivity|]. split; [reflexivity|].
  split; [reflexivity|]. split; [reflexivity|].
  destruct (mouse_action_dispatches_once Scene.config Demo.clickPanel 0
              (Scene.hitOn Scene.panel 5) initialWorld scene_NoThrow
              eq_refl eq_refl eq_refl eq_refl)
    as (w' & Hrun & Htr & _ & _ & Hd).
  exists w'. split; [exact Hrun|]. split.
  - rewrite Htr, !firedOf_app, firedOf_dispatchObs. reflexivity.
  - exact Hd.
Defined.

(** ** Handlers that throw in the middle of a gesture *)

Lemma fire_synthetic_spec cfg ty se f w :
  _firePointerEvent cfg ty (inr se) f None None w =
  (storeDragStartEvent (snd (fst (bubble (eventRegistry cfg) ty f se)))
     (observe (syntheticDispatchObs cfg ty se f) w),
   match snd (bubble (eventRegistry cfg) ty f se) with
   | Some x => Thrown x
   | None => Returned tt
   end).
Proof.
  unfold _firePointerEvent, syntheticDispatchObs.
  destruct (bubble (eventRegistry cfg) ty f se) as [[obs ev'] x]. reflexivity.
Qed.

(** ** What every history of events keeps *)

Lemma triple_ret {A : Type} (I P : World -> Prop) (a : A) (Q : A -> World -> Prop) :
  (forall w, P w -> Q a w) -> Triple I P (ret a) Q.
Proof. intros H w Hw. cbn. auto. Qed.

Lemma triple_throw {A : Type} (I P : World -> Prop) (x : Exn) (Q : A -> World -> Prop) :
  (forall w, P w -> I w) -> Triple I P (throw x) Q.
Proof. intros H w Hw. cbn. auto. Qed.

Lemma triple_gets {A : Type} (I P : World -> Prop) (f : World -> A) (Q : A -> World -> Prop) :
  (forall w, P w -> Q (f w) w) -> Triple I P (gets f) Q.
Proof. intros H w Hw. cbn. auto. Qed.

Lemma triple_modify (I P : World -> Prop) (f : World -> World) (Q : unit -> World -> Prop) :
  (forall w, P w -> Q tt (f w)) -> Triple I P (modify f) Q.
Proof. intros H w Hw. cbn. auto. Qed.

Lemma triple_bind {A B : Type} (I P : World -> Prop) (m : M A) (k : A -> M B)
    (Q : A -> World -> Prop) (R : B -> World -> Prop) :
  Triple I P m Q -> (forall a, Triple I (Q a) (k a) R) -> Triple I P (bind m k) R.
Proof.
  intros Hm Hk w Hw. unfold bind. specialize (Hm w Hw).
  destruct (m w) as [w1 [a|x]]; [|exact Hm]. exact (Hk a w1 Hm).
Qed.

Lemma triple_pre {A : Type} (I P P' : World -> Prop) (m : M A) (Q : A -> World -> Prop) :
  (forall w, P' w -> P w) -> Triple I P m Q -> Triple I P' m Q.
Proof. intros H Hm w Hw. apply Hm. auto. Qed.

Lemma triple_post {A : Type} (I P : World -> Prop) (m : M A) (Q Q' : A -> World -> Prop) :
  (forall a w, Q a w -> Q' a w) -> Triple I P m Q -> Triple I P m Q'.
Proof.
  intros H Hm w Hw. specialize (Hm w Hw). destruct (m w) as [w1 [a|x]]; auto.
Qed.

Lemma triple_fst {A : Type} (I : World -> Prop) (m : M A) :
  Triple I I m (fun _ => I) -> forall w, I w -> I (fst (m w)).
Proof. intros H w Hw. specialize (H w Hw). now destruct (m w) as [w1 [a|x]]. Qed.

Lemma inv_observe obs w : Invariant w -> Invariant (observe obs w).
Proof. now destruct w. Qed.

Lemma inv_setTapInfo_none w : Invariant w -> Invariant (setTapInfo None w).
Proof.
  destruct w. unfold Invariant, dragConsistent, targetsIntercept, dragWellFormed. cbn. tauto.
Qed.

Lemma inv_setTapInfo tap w :
  interceptsPointerEvents (tapFacade tap) = true ->
  Invariant w -> Invariant (setTapInfo (Some tap) w).
Proof.
  destruct w. unfold Invariant, dragConsistent, targetsIntercept, dragWellFormed. cbn. tauto.
Qed.

Lemma inv_setContextMenuKilled b w : Invariant w -> Invariant (setContextMenuKilled b w).
Proof. now destruct w. Qed.

Lemma inv_setHovered h w :
  match h with Some f => interceptsPointerEvents f = true | None => True end ->
  Invariant w -> Invariant (setHovered h w).
Proof.
  destruct w. unfold Invariant, dragConsistent, targetsIntercept, dragWellFormed. cbn. tauto.
Qed.

Lemma inv_markDragStartFired w : Invariant w -> Invariant (markDragStartFired w).
Proof.
  destruct w as [hov [d|] tap dl cm tr];
    unfold Invariant, dragConsistent, targetsIntercept, dragWellFormed; cbn; tauto.
Qed.

Lemma inv_startDrag e f w :
  onDragStart f = true -> interceptsPointerEvents f = true ->
  Invariant w ->
  Invariant (setDropListening true
               (setDragInfo (Some {| draggedFacade := f; dragStartFired := false;
                                     dragStartEvent :=
                                       newSyntheticEvent e "dragstart" f None None |}) w)).
Proof.
  destruct w. unfold Invariant, dragConsistent, targetsIntercept, dragWellFormed. cbn. tauto.
Qed.

Lemma inv_endDrag w :
  Invariant w -> Invariant (setDragInfo None (setDropListening false w)).
Proof.
  destruct w. unfold Invariant, dragConsistent, targetsIntercept, dragWellFormed. cbn. tauto.
Qed.

Lemma bubble_sameStatic reg ty f ev : sameStatic (snd (fst (bubble reg ty f ev))) ev.
Proof.
  destruct (propagationStopped ev) eqn:Hp.
  - rewrite bubble_stopped by exact Hp. apply sameStatic_refl.
  - destruct (bubble_spec reg ty ev f ev (sameStatic_refl ev) Hp) as (ev' & Hb & Hs).
    now rewrite Hb.
Qed.

Lemma fire_native_inv cfg ty e f rel extra :
  Triple Invariant Invariant (_firePointerEvent cfg ty (inl e) f rel extra)
    (fun _ => Invariant).
Proof.
  intros w Hw. rewrite fire_native_spec. cbn zeta.
  destruct (firstThrow _ _); now apply inv_observe.
Qed.

Lemma fire_synthetic_inv cfg d :
  Triple Invariant (fun w => Invariant w /\ dragInfo w = Some d)
    (_firePointerEvent cfg "dragstart" (inr (dragStartEvent d)) (draggedFacade d) None None)
    (fun _ => Invariant).
Proof.
  intros w [Hw Hd]. rewrite fire_synthetic_spec.
  pose proof (bubble_sameStatic (eventRegistry cfg) "dragstart" (draggedFacade d)
                (dragStartEvent d)) as (Hty & Htg & _).
  set (ev' := snd (fst (bubble (eventRegistry cfg) "dragstart" (draggedFacade d)
                          (dragStartEvent d)))) in *.
  assert (Hinv : Invariant
            (storeDragStartEvent ev'
               (observe (syntheticDispatchObs cfg "dragstart" (dragStartEvent d)
                           (draggedFacade d)) w))).
  { destruct w as [hov di tap dl cm tr]. cbn [dragInfo] in Hd. subst di.
    unfold Invariant, dragConsistent, targetsIntercept, dragWellFormed in *.
    cbn in *. rewrite Hty, Htg. tauto. }
  now destruct (snd (bubble _ _ _ _)).
Qed.

Ltac inv_auto :=
  repeat match goal with
  | |- Triple _ _ (bind _ _) _ =>
      eapply triple_bind with (Q := fun _ => Invariant); [|intro]
  | |- Triple _ _ (when ?b _) _ => destruct b eqn:?; cbn [when]
  | |- Triple _ _ (ret _) _ => apply triple_ret; auto
  | |- Triple _ _ (throw _) _ => apply triple_throw; auto
  | |- Triple _ _ (gets _) _ => apply triple_gets; auto
  | |- Triple _ _ (_firePointerEvent _ _ (inl _) _ _ _) _ => apply fire_native_inv
  | |- Triple _ _ (modify (setTapInfo None)) _ =>
      apply triple_modify; intros; now apply inv_setTapInfo_none
  | |- Triple _ _ (modify markDragStartFired) _ =>
      apply triple_modify; intros; now apply inv_markDragStartFired
  | |- Triple _ _ (modify (observe _)) _ =>
      apply triple_modify; intros; now apply inv_observe
  | |- Triple _ _ (_enableContextMenu _) _ =>
      apply triple_modify; intros; now apply inv_setContextMenuKilled
  | |- Triple _ _ (match ?x with _ => _ end) _ => destruct x eqn:?
  end.

Lemma motionDrag_inv cfg d0 e :
  Triple Invariant (fun w => Invariant w /\ dragInfo w = d0) (motionDrag cfg d0 e)
    (fun _ => Invariant).
Proof.
  destruct d0 as [d|]; cbn [motionDrag].
  - eapply triple_bind with (Q := fun _ => Invariant); [|intro; apply fire_native_inv].
    destruct (negb (dragStartFired d)); cbn [when].
    + eapply triple_bind with (Q := fun _ => Invariant); [apply fire_synthetic_inv|].
      intro. inv_auto.
    + apply triple_ret. tauto.
  - apply triple_ret. tauto.
Qed.

Lemma hoverTarget_intercepts cfg e hit :
  hoverTarget cfg e = Returned (Some hit) -> interceptsPointerEvents (hitFacade hit) = true.
Proof.
  unfold hoverTarget. destruct (getFacadesAtEvent cfg e) as [[hits|]|]; try discriminate.
  intro H. inversion H as [Hf]. cbn [findHoverTargetIn] in Hf.
  apply List.find_some in Hf. tauto.
Qed.

Lemma findHoverTarget_inv cfg e :
  Triple Invariant Invariant (_findHoverTarget cfg e)
    (fun hi w => Invariant w /\
                 match hi with
                 | Some hit => interceptsPointerEvents (hitFacade hit) = true
                 | None => True
                 end).
Proof.
  intros w Hw. unfold _findHoverTarget.
  destruct (hoverTarget cfg e) as [[hit|]|x] eqn:Hh; [|tauto|exact Hw].
  split; [exact Hw|]. now apply (hoverTarget_intercepts cfg e).
Qed.

Lemma motionHover_inv cfg d0 e :
  Triple Invariant Invariant (motionHover cfg d0 e) (fun _ => Invariant).
Proof.
  unfold motionHover.
  eapply triple_bind with (Q := fun _ => Invariant); [inv_auto|]. intro lastHovered.
  eapply triple_bind with
    (Q := fun hi w => Invariant w /\
                      match hi with
                      | Some hit => interceptsPointerEvents (hitFacade hit) = true
                      | None => True
                      end).
  { destruct (_ || _); [apply triple_ret; tauto|apply findHoverTarget_inv]. }
  intro hi.
  eapply triple_bind with (Q := fun _ => Invariant).
  { apply triple_modify. intros w [Hw Hhi]. apply inv_setHovered; [|exact Hw].
    now destruct hi. }
  intro. inv_auto.
Qed.

Lemma motionTapCancel_inv e :
  Triple Invariant Invariant (motionTapCancel e) (fun _ => Invariant).
Proof. unfold motionTapCancel, changedTouchesOf. inv_auto. Qed.

Lemma motion_inv cfg e :
  Triple Invariant Invariant (_onPointerMotionEvent cfg e) (fun _ => Invariant).
Proof.
  rewrite motion_blocks.
  eapply triple_bind with (Q := fun _ => Invariant); [|intro; apply motionTapCancel_inv].
  destruct (motionGate cfg); cbn [when]; [|inv_auto].
  eapply triple_bind with (Q := fun d w => Invariant w /\ dragInfo w = d).
  { apply triple_gets. tauto. }
  intro d.
  eapply triple_bind with (Q := fun _ => Invariant);
    [apply motionDrag_inv|intro; apply motionHover_inv].
Qed.

Lemma actionTap_inv cfg e now hi facade :
  interceptsPointerEvents facade = true ->
  Triple Invariant Invariant (actionTap cfg e now hi facade) (fun _ => Invariant).
Proof.
  intro Hf. unfold actionTap, touchesOf, changedTouchesOf.
  destruct (tapGate cfg facade); cbn [when]; [|inv_auto].
  eapply triple_bind with (Q := fun _ => Invariant); [inv_auto|]. intro tapInfo0.
  eapply triple_bind with (Q := fun _ => Invariant); [inv_auto|]. intro single.
  destruct single; [|inv_auto].
  eapply triple_bind with (Q := fun _ => Invariant); [inv_auto|]. intro touches.
  destruct touches as [|t ts]; [inv_auto|].
  apply triple_modify. intros w Hw. now apply inv_setTapInfo.
Qed.

Lemma actionDrag_inv e facade :
  interceptsPointerEvents facade = true ->
  Triple Invariant Invariant (actionDrag e facade) (fun _ => Invariant).
Proof.
  intros Hf w Hw. rewrite actionDrag_ok. unfold startsDrag.
  destruct (onDragStart facade) eqn:Hd; cbn [andb].
  - destruct (_ || _).
    + pose proof (inv_startDrag e facade w Hd Hf Hw) as H. now destruct w.
    + now destruct w.
  - now destruct w.
Qed.

Lemma actionMain_inv cfg e now :
  Triple Invariant Invariant (actionMain cfg e now) (fun _ => Invariant).
Proof.
  unfold actionMain. destruct (actionGate cfg); cbn [when]; [|inv_auto].
  eapply triple_bind with
    (Q := fun hi w => Invariant w /\
                      match hi with
                      | Some hit => interceptsPointerEvents (hitFacade hit) = true
                      | None => True
                      end); [apply findHoverTarget_inv|].
  intro hi.
  eapply triple_bind with (Q := fun _ => Invariant); [|intro; inv_auto].
  destruct hi as [hit|]; [|apply triple_ret; tauto].
  apply triple_pre with (P := fun w => Invariant w /\
                                       interceptsPointerEvents (hitFacade hit) = true);
    [tauto|].
  intros w [Hw Hf]. revert w Hw.
  change (Triple Invariant Invariant
            (_firePointerEvent cfg (mappedActionType (evType e)) (inl e) (hitFacade hit)
               None (Some hit) ;;;
             actionTap cfg e now (Some hit) (hitFacade hit) ;;;
             actionDrag e (hitFacade hit)) (fun _ => Invariant)).
  eapply triple_bind with (Q := fun _ => Invariant); [apply fire_native_inv|]. intro.
  eapply triple_bind with (Q := fun _ => Invariant); [now apply actionTap_inv|]. intro.
  now apply actionDrag_inv.
Qed.

Lemma action_inv cfg e now :
  Triple Invariant Invariant (_onPointerActionEvent cfg e now) (fun _ => Invariant).
Proof.
  rewrite action_blocks.
  eapply triple_bind with (Q := fun _ => Invariant).
  { unfold actionTouchStart, touchesOf.
    destruct (String.eqb (evType e) "touchstart"); cbn [when]; [|inv_auto].
    eapply triple_bind with (Q := fun _ => Invariant); [inv_auto|]. intro touches.
    eapply triple_bind with (Q := fun _ => Invariant); [|intro; inv_auto].
    destruct (Nat.eqb (length touches) 1); cbn [when]; [apply motion_inv|inv_auto]. }
  intro. eapply triple_bind with (Q := fun _ => Invariant); [apply actionMain_inv|].
  intro. unfold actionTouchEnd, changedTouchesOf.
  destruct (isTouchEndOrCancel e); cbn [when]; [|inv_auto].
  eapply triple_bind with (Q := fun _ => Invariant); [inv_auto|]. intro changed.
  eapply triple_bind with (Q := fun _ => Invariant); [|intro; inv_auto].
  destruct (Nat.eqb (length changed) 1); cbn [when]; [apply motion_inv|inv_auto].
Qed.

Lemma drop_inv cfg e :
  Triple Invariant Invariant (_onDropEvent cfg e) (fun _ => Invariant).
Proof.
  unfold _onDropEvent.
  eapply triple_bind with (Q := fun _ => Invariant); [inv_auto|]. intro d0.
  destruct d0 as [d|]; [|inv_auto].
  eapply triple_bind with (Q := fun _ => Invariant).
  { destruct (targetIsElement e); [|inv_auto].
    eapply triple_post; [|apply findHoverTarget_inv]. cbn. tauto. }
  intro hi.
  eapply triple_bind with (Q := fun _ => Invariant); [inv_auto|]. intro.
  eapply triple_bind with (Q := fun _ => Invariant); [inv_auto|]. intro.
  intros w Hw. unfold bind, _toggleDropListeners, modify. cbn.
  now apply inv_endDrag.
Qed.

Lemma deliver_inv cfg i :
  Triple Invariant Invariant (deliver cfg i) (fun _ => Invariant).
Proof.
  destruct i as [e|e now|e]; cbn [deliver].
  - apply motion_inv.
  - apply action_inv.
  - eapply triple_bind with (Q := fun _ => Invariant); [inv_auto|]. intro dl.
    destruct dl; cbn [when]; [apply drop_inv|inv_auto].
Qed.

Lemma initialWorld_inv : Invariant initialWorld.
Proof. repeat split. Qed.

Lemma afterInputs_inv cfg inputs : forall w,
  Invariant w -> Invariant (afterInputs cfg inputs w).
Proof.
  unfold afterInputs. induction inputs as [|i inputs IH]; intros w Hw; [exact Hw|].
  cbn [List.fold_left]. apply IH. now apply (triple_fst Invariant _ (deliver_inv cfg i)).
Qed.

(** X12. The release listeners on the document are installed exactly while
    a drag is pending: after any sequence of motion, action and release
    events from the initial world, whatever the handlers do and also where
    one of them throws, [_toggleDropListeners] was last called with [true]
    if and only if [$dragInfo] is set. *)
Theorem drop_listeners_follow_drag (cfg : Config) (inputs : list Input) :
  let w := afterInputs cfg inputs initialWorld in
  dropListening w = isSome (dragInfo w) /\
  (dragInfo w = None -> dropListening w = false).
Proof.
  intro w.
  destruct (afterInputs_inv cfg inputs initialWorld initialWorld_inv) as (Hd & _ & _).
  fold w in Hd. unfold dragConsistent in Hd. split; [now symmetry|].
  intro Hn. rewrite <- Hd, Hn. reflexivity.
Qed.

(** X13. The hovered facade and the facade of a pending tap are always
    facades that intercept pointer events: after any sequence of events
    from the initial world, [$hoveredFacade] and [$tapInfo.facade], where
    set, have [interceptsPointerEvents]. *)
Theorem hovered_and_tapped_intercept (cfg : Config) (inputs : list Input) :
  let w := afterInputs cfg inputs initialWorld in
  (forall f, hoveredFacade w = Some f -> interceptsPointerEvents f = true) /\
  (forall tap, tapInfo w = Some tap -> interceptsPointerEvents (tapFacade tap) = true).
Proof.
  intro w.
  destruct (afterInputs_inv cfg inputs initialWorld initialWorld_inv) as (_ & (Hh & Ht) & _).
  fold w in Hh, Ht. split.
  - intros f Hf. now rewrite Hf in Hh.
  - intros tap Htap. now rewrite Htap in Ht.
Qed.

(** X14. A pending drag is always that of a facade that declares
    [onDragStart], and the event kept for it is a [dragstart] event whose
    target is the dragged facade: after any sequence of events from the
    initial world, also where handlers throw. *)
Theorem pending_drag_is_well_formed (cfg : Config) (inputs : list Input) (d : DragInfo) :
  dragInfo (afterInputs cfg inputs initialWorld) = Some d ->
  onDragStart (draggedFacade d) = true /\
  seType (dragStartEvent d) = "dragstart" /\
  seTarget (dragStartEvent d) = draggedFacade d.
Proof.
  intro Hd.
  destruct (afterInputs_inv cfg inputs initialWorld initialWorld_inv) as (_ & _ & Hw).
  unfold dragWellFormed in Hw. rewrite Hd in Hw. tauto.
Qed.

Lemma pending_drag_is_well_formed_witness :
  exists d,
    dragInfo (afterInputs Scene.config [Action Demo.pressPanel 0] initialWorld) = Some d /\
    onDragStart (draggedFacade d) = true /\
    seType (dragStartEvent d) = "dragstart" /\
    seTarget (dragStartEvent d) = draggedFacade d.
Proof.
  destruct (dragInfo (afterInputs Scene.config [Action Demo.pressPanel 0] initialWorld))
    as [d|] eqn:Hd; [|vm_compute in Hd; discriminate].
  exists d. split; [reflexivity|].
  exact (pending_drag_is_well_formed Scene.config [Action Demo.pressPanel 0] d Hd).
Defined.

(** ** More of [BasicThenable] *)

Scheme Value_mutind := Induction for Thenable.Value Sort Prop
  with Script_mutind := Induction for Thenable.Script Sort Prop.
Combined Scheme Value_Script_ind from Value_mutind, Script_mutind.

Module ThenableFacts.
Import Thenable ThenableOps.

Lemma untouched_refl s : Untouched s s.
Proof. repeat split; lia. Qed.

Lemma untouched_trans s1 s2 s3 : Untouched s1 s2 -> Untouched s2 s3 -> Untouched s1 s3.
Proof. unfold Untouched. intuition (try congruence). lia. Qed.

Lemma untouched_count s : Untouched s (countComplete s).
Proof. repeat split. cbn. lia. Qed.

Lemma untouched_settle st v s : Untouched s (settle st v s).
Proof. repeat split; cbn; lia. Qed.

Lemma untouched_defer k c s : Untouched s (defer k c s).
Proof. repeat split; cbn; lia. Qed.

Lemma complete_runThen_untouched :
  (forall v st s, Untouched s (complete st v s) /\
                  (completeCalled s < completeCalled (complete st v s))%nat) /\
  (forall k c s, Untouched s (fst (runThen k c s))).
Proof.
  apply Value_Script_ind.
  - intros n st s. cbn. repeat split; cbn; lia.
  - intros st s. cbn. repeat split; cbn; lia.
  - intros st s. cbn [complete].
    destruct (state (countComplete s) =? 0); cbn; repeat split; cbn; lia.
  - intros k IH st s. cbn [complete].
    destruct (0 <? st).
    + specialize (IH (mkClosure 0 0 0) (countComplete s)).
      split; [eapply untouched_trans; [apply untouched_count|exact IH]|].
      destruct IH as (_ & _ & _ & _ & Hle). cbn in Hle. lia.
    + cbn. repeat split; cbn; lia.
  - intros c s. apply untouched_refl.
  - intros v IHv k IHk c s. cbn [runThen].
    destruct (Nat.eqb (firstCalled c) 0); [|apply IHk].
    eapply untouched_trans; [apply (IHv 1 s)|apply IHk].
  - intros v IHv k IHk c s. cbn [runThen].
    destruct (Nat.eqb (secondCalled c) 0); [|apply IHk].
    eapply untouched_trans; [apply (IHv (-1) s)|apply IHk].
  - intros e IHe c s. cbn [runThen].
    destruct ((state s =? 0) && Nat.eqb (ignoreThrow c) 0); cbn [fst];
      [apply IHe|apply untouched_refl].
  - intros k IHk c s. cbn [runThen fst]. apply untouched_defer.
Qed.

Lemma complete_untouched st v s : Untouched s (complete st v s).
Proof. apply complete_runThen_untouched. Qed.

Lemma complete_counts st v s : (0 < completeCalled (complete st v s))%nat.
Proof. destruct complete_runThen_untouched as [H _]. specialize (H v st s). lia. Qed.

Lemma runDetached_untouched k : forall c s, Untouched s (runDetached k c s).
Proof.
  induction k as [|v k IH|v k IH|e|k IH]; intros c s; cbn [runDetached].
  - apply untouched_refl.
  - destruct (Nat.eqb (firstCalled c) 0); [|apply IH].
    eapply untouched_trans; [apply complete_untouched|apply IH].
  - destruct (Nat.eqb (secondCalled c) 0); [|apply IH].
    eapply untouched_trans; [apply complete_untouched|apply IH].
  - apply untouched_refl.
  - apply untouched_defer.
Qed.
End ThenableFacts.

(** X15. The callbacks handed to [then] are only ever called by the flush
    that [scheduleQueueFlush] defers: [resolve], [reject], [then] itself
    (also on a settled thenable) and the callbacks of a foreign thenable call
    none of them, whatever value they are given. *)
Theorem thenable_callbacks_are_deferred (s : Thenable.State) :
  (forall v, Thenable.observed (Thenable.resolve v s) = Thenable.observed s) /\
  (forall v, Thenable.observed (Thenable.reject v s) = Thenable.observed s) /\
  (forall cbs, Thenable.observed (Thenable.then_ cbs s) = Thenable.observed s) /\
  Thenable.observed (Thenable.later s) = Thenable.observed s.
Proof.
  split; [|split; [|split]].
  - intro v. unfold Thenable.resolve.
    destruct (_ && _); [|reflexivity].
    now destruct (ThenableFacts.complete_untouched 1 v
                    (Thenable.mkState (Thenable.state s) (Thenable.value s) (Thenable.queue s)
                       (Thenable.scheduled s) (Thenable.completeCalled s)
                       (S (Thenable.resolveCalled s)) (Thenable.rejectCalled s)
                       (Thenable.pending s) (Thenable.settlements s) (Thenable.observed s)))
      as (H & _).
  - intro v. unfold Thenable.reject.
    destruct (_ && _); [|reflexivity].
    now destruct (ThenableFacts.complete_untouched (-1) v
                    (Thenable.mkState (Thenable.state s) (Thenable.value s) (Thenable.queue s)
                       (Thenable.scheduled s) (Thenable.completeCalled s)
                       (Thenable.resolveCalled s) (S (Thenable.rejectCalled s))
                       (Thenable.pending s) (Thenable.settlements s) (Thenable.observed s)))
      as (H & _).
  - reflexivity.
  - unfold Thenable.later. destruct (Thenable.pending s) as [|[k c] rest]; [reflexivity|].
    now destruct (ThenableFacts.runDetached_untouched k c
                    (Thenable.mkState (Thenable.state s) (Thenable.value s) (Thenable.queue s)
                       (Thenable.scheduled s) (Thenable.completeCalled s)
                       (Thenable.resolveCalled s) (Thenable.rejectCalled s)
                       rest (Thenable.settlements s) (Thenable.observed s)))
      as (H & _).
Qed.

Module ThenableMore.
Import Thenable ThenableOps ThenableFacts.

Lemma flush_fold q : forall s0,
  let s' := List.fold_left (fun s cbs => handleNext cbs s) q s0 in
  state s' = state s0 /\ value s' = value s0 /\ queue s' = queue s0 /\
  scheduled s' = scheduled s0 /\ completeCalled s' = completeCalled s0 /\
  resolveCalled s' = resolveCalled s0 /\ rejectCalled s' = rejectCalled s0 /\
  pending s' = pending s0 /\ settlements s' = settlements s0 /\
  observed s' =
    observed s0 ++
    List.flat_map
      (fun cbs =>
         match (if 0 <? state s0 then onResolve cbs else onReject cbs) with
         | Some cb => [(cb, state s0, value s0)]
         | None => []
         end) q.
Proof.
  induction q as [|cbs q IH]; intro s0; cbn [List.fold_left List.flat_map].
  - repeat split. now rewrite app_nil_r.
  - specialize (IH (handleNext cbs s0)). cbn zeta in IH.
    destruct IH as (H1 & H2 & H3 & H4 & H5 & H6 & H7 & H8 & H9 & H10).
    unfold handleNext in *.
    destruct (if 0 <? state s0 then onResolve cbs else onReject cbs) as [cb|];
      cbn in *; repeat split; try assumption.
    + rewrite H10, <- app_assoc. reflexivity.
Qed.

Lemma tick_fields s :
  state (tick s) = state s /\ value (tick s) = value s /\
  completeCalled (tick s) = completeCalled s /\
  resolveCalled (tick s) = resolveCalled s /\ rejectCalled (tick s) = rejectCalled s /\
  pending (tick s) = pending s /\ settlements (tick s) = settlements s.
Proof.
  unfold tick. destruct (Nat.eqb (scheduled s) 0); [repeat split|].
  unfold flushQueue.
  destruct (flush_fold (queue s)
              (mkState (state s) (value s) [] 0 (completeCalled s) (resolveCalled s)
                 (rejectCalled s) (pending s) (settlements s) (observed s)))
    as (H1 & H2 & H3 & H4 & H5 & H6 & H7 & H8 & H9 & H10).
  repeat split; assumption.
Qed.

Lemma apply_counts op s : (completeCalled s <= completeCalled (apply op s))%nat.
Proof.
  destruct op as [v|v|cbs| |]; cbn [apply].
  - unfold resolve. destruct (_ && _); [|cbn; lia].
    destruct (complete_untouched 1 v
                (mkState (state s) (value s) (queue s) (scheduled s) (completeCalled s)
                   (S (resolveCalled s)) (rejectCalled s) (pending s) (settlements s)
                   (observed s))) as (_ & _ & _ & _ & H). exact H.
  - unfold reject. destruct (_ && _); [|cbn; lia].
    destruct (complete_untouched (-1) v
                (mkState (state s) (value s) (queue s) (scheduled s) (completeCalled s)
                   (resolveCalled s) (S (rejectCalled s)) (pending s) (settlements s)
                   (observed s))) as (_ & _ & _ & _ & H). exact H.
  - cbn. lia.
  - destruct (tick_fields s) as (_ & _ & H & _). lia.
  - unfold later. destruct (pending s) as [|[k c] rest]; [lia|].
    destruct (runDetached_untouched k c
                (mkState (state s) (value s) (queue s) (scheduled s) (completeCalled s)
                   (resolveCalled s) (rejectCalled s) rest (settlements s) (observed s)))
      as (_ & _ & _ & _ & H). exact H.
Qed.

Lemma run_counts ops : forall s, (completeCalled s <= completeCalled (run ops s))%nat.
Proof.
  unfold run. induction ops as [|op ops IH]; intro s; cbn [List.fold_left]; [lia|].
  pose proof (apply_counts op s). specialize (IH (apply op s)). lia.
Qed.

Lemma first_call_counts s :
  completeCalled s = 0%nat ->
  (resolveCalled s = 0%nat -> forall v, (0 < completeCalled (resolve v s))%nat) /\
  (rejectCalled s = 0%nat -> forall v, (0 < completeCalled (reject v s))%nat).
Proof.
  intro Hc. split; intros Hr v.
  - unfold resolve. rewrite Hr, Hc. cbn [Nat.eqb andb]. apply complete_counts.
  - unfold reject. rewrite Hr, Hc. cbn [Nat.eqb andb]. apply complete_counts.
Qed.

Lemma noop_when_counted s v :
  (0 < completeCalled s)%nat ->
  sameButCalls (resolve v s) s /\ sameButCalls (reject v s) s.
Proof.
  intro Hc. unfold resolve, reject.
  assert (Hz : Nat.eqb (completeCalled s) 0 = false) by (apply Nat.eqb_neq; lia).
  rewrite Hz, !andb_false_r. repeat split.
Qed.
End ThenableMore.

(** X16. Once [resolve] or [reject] has been called on a new thenable, every
    later direct call of [resolve] or [reject] changes nothing but its own
    call counter, whatever happened in between and also while the thenable
    is still waiting for a foreign thenable it was resolved with. *)
Theorem thenable_first_call_locks (first : ThenableOps.Op) (v : Thenable.Value)
    (ops : list ThenableOps.Op) (u : Thenable.Value) :
  first = ThenableOps.Resolve v \/ first = ThenableOps.Reject v ->
  let s := ThenableOps.run ops (ThenableOps.apply first Thenable.initial) in
  ThenableOps.sameButCalls (Thenable.resolve u s) s /\
  ThenableOps.sameButCalls (Thenable.reject u s) s.
Proof.
  intros Hfirst s. apply ThenableMore.noop_when_counted.
  pose proof (ThenableMore.run_counts ops (ThenableOps.apply first Thenable.initial)) as Hle.
  fold s in Hle.
  assert (0 < Thenable.completeCalled (ThenableOps.apply first Thenable.initial))%nat; [|lia].
  destruct (ThenableMore.first_call_counts Thenable.initial eq_refl) as [Hres Hrej].
  destruct Hfirst as [->| ->]; cbn [ThenableOps.apply]; [apply Hres|apply Hrej]; reflexivity.
Qed.

Lemma thenable_first_call_locks_witness :
  let waiting := Thenable.Foreign (Thenable.Later Thenable.Done) in
  let s := ThenableOps.run [ThenableOps.Tick]
             (ThenableOps.apply (ThenableOps.Resolve waiting) Thenable.initial) in
  Thenable.state s = 0 /\
  ThenableOps.sameButCalls (Thenable.resolve (Thenable.Plain 5) s) s /\
  ThenableOps.sameButCalls (Thenable.reject (Thenable.Plain 6) s) s.
Proof.
  intros waiting s. split; [reflexivity|].
  destruct (thenable_first_call_locks (ThenableOps.Resolve waiting) waiting
              [ThenableOps.Tick] (Thenable.Plain 5) (or_introl eq_refl)) as [H1 _].
  destruct (thenable_first_call_locks (ThenableOps.Resolve waiting) waiting
              [ThenableOps.Tick] (Thenable.Plain 6) (or_introl eq_refl)) as [_ H2].
  split; [exact H1|exact H2].
Defined.

(** X17. The flush that a tick runs calls, for every pair of callbacks
    queued, the one the state picks, if it is a function, once and in the
    order of the calls of [then], each with the state and value of the
    thenable; it empties the queue, leaves state and value alone, and a
    second tick without a new [then] or settlement calls nothing. *)
Theorem thenable_flush_calls_each_once (s : Thenable.State) :
  Thenable.tick s =
    (if Nat.eqb (Thenable.scheduled s) 0 then s
     else Thenable.mkState (Thenable.state s) (Thenable.value s) [] 0
            (Thenable.completeCalled s) (Thenable.resolveCalled s) (Thenable.rejectCalled s)
            (Thenable.pending s) (Thenable.settlements s)
            (Thenable.observed s ++ ThenableOps.callsOfFlush s)) /\
  Thenable.tick (Thenable.tick s) = Thenable.tick s.
Proof.
  assert (H : Thenable.tick s =
    (if Nat.eqb (Thenable.scheduled s) 0 then s
     else Thenable.mkState (Thenable.state s) (Thenable.value s) [] 0
            (Thenable.completeCalled s) (Thenable.resolveCalled s) (Thenable.rejectCalled s)
            (Thenable.pending s) (Thenable.settlements s)
            (Thenable.observed s ++ ThenableOps.callsOfFlush s))).
  { unfold Thenable.tick. destruct (Nat.eqb (Thenable.scheduled s) 0); [reflexivity|].
    unfold Thenable.flushQueue, ThenableOps.callsOfFlush.
    pose proof (ThenableMore.flush_fold (Thenable.queue s)
              (Thenable.mkState (Thenable.state s) (Thenable.value s) [] 0
                 (Thenable.completeCalled s) (Thenable.resolveCalled s)
                 (Thenable.rejectCalled s) (Thenable.pending s) (Thenable.settlements s)
                 (Thenable.observed s))) as Hf.
    cbn zeta in Hf.
    destruct (List.fold_left _ (Thenable.queue s) _) as [st va qu sc cc rc jc pe se ob].
    cbn in Hf. destruct Hf as (-> & -> & -> & -> & -> & -> & -> & -> & -> & ->).
    reflexivity. }
  split; [exact H|].
  rewrite H. destruct (Nat.eqb (Thenable.scheduled s) 0) eqn:Hs.
  - unfold Thenable.tick. now rewrite Hs.
  - reflexivity.
Qed.

Module ThenableInert.
Import Thenable ThenableOps ThenableSettled.

Lemma complete_inert st v s :
  st <> 0 ->
  ((0 <? st) = true -> match v with Foreign _ => False | _ => True end) ->
  pending s = [] -> settlements s = [] -> state s = 0 ->
  SettledAtMostOnce (complete st v s).
Proof.
  intros Hst Hv Hp Hs H0. unfold SettledAtMostOnce.
  destruct v as [n| | |k]; cbn [complete].
  - split; [exact Hp|]. right. exists st, (Plain n). cbn. rewrite Hs.
    repeat split; try assumption; lia.
  - split; [exact Hp|]. right. exists st, TypeErrorValue. cbn. rewrite Hs.
    repeat split; try assumption; lia.
  - cbn [state countComplete]. rewrite H0. cbn [Z.eqb].
    split; [exact Hp|]. right. exists (-1), TypeErrorValue. cbn. rewrite Hs.
    repeat split; try lia.
  - destruct (0 <? st) eqn:Hpos; [destruct (Hv eq_refl)|].
    split; [exact Hp|]. right. exists st, (Foreign k). cbn. rewrite Hs.
    repeat split; try assumption; lia.
Qed.

Lemma apply_inert op s :
  inert op = true -> SettledAtMostOnce s -> SettledAtMostOnce (apply op s).
Proof.
  intros Hop [Hp Hs]. destruct op as [v|v|cbs| |]; cbn [apply].
  - unfold resolve. destruct (Nat.eqb (resolveCalled s) 0 && Nat.eqb (completeCalled s) 0) eqn:Hg.
    + apply andb_true_iff in Hg as [_ Hc]. apply Nat.eqb_eq in Hc.
      destruct Hs as [(Hse & H0 & _ & _)|(st & u & _ & _ & _ & _ & Hlt)]; [|lia].
      apply complete_inert; try assumption; try lia.
      try (intros _; destruct v; try exact Logic.I; discriminate).
    + split; [exact Hp|exact Hs].
  - unfold reject. destruct (Nat.eqb (rejectCalled s) 0 && Nat.eqb (completeCalled s) 0) eqn:Hg.
    + apply andb_true_iff in Hg as [_ Hc]. apply Nat.eqb_eq in Hc.
      destruct Hs as [(Hse & H0 & _ & _)|(st & u & _ & _ & _ & _ & Hlt)]; [|lia].
      apply complete_inert; try assumption; try lia; try discriminate.
    + split; [exact Hp|exact Hs].
  - split; [exact Hp|exact Hs].
  - destruct (ThenableMore.tick_fields s) as (H1 & H2 & H3 & _ & _ & H6 & H7).
    unfold SettledAtMostOnce. rewrite H1, H2, H3, H6, H7. split; [exact Hp|exact Hs].
  - unfold later. rewrite Hp. split; [exact Hp|exact Hs].
Qed.

Lemma run_inert ops : forall s,
  forallb inert ops = true -> SettledAtMostOnce s -> SettledAtMostOnce (run ops s).
Proof.
  unfold run. induction ops as [|op ops IH]; intros s Hops Hs; [exact Hs|].
  cbn [forallb] in Hops. apply andb_true_iff in Hops as [Hop Hrest].
  cbn [List.fold_left]. apply IH; [exact Hrest|]. now apply apply_inert.
Qed.
End ThenableInert.

(** X18. Where the thenable is never resolved with a foreign thenable, it is
    settled at most once: after any history of [resolve] with plain values
    or itself, [reject] with any value, [then] and ticks, [state] and [value]
    were assigned never or once, and they are what that one assignment made
    them. *)
Theorem thenable_settles_once_without_foreign (ops : list ThenableOps.Op) :
  forallb ThenableOps.inert ops = true ->
  let s := ThenableOps.run ops Thenable.initial in
  (length (Thenable.settlements s) <= 1)%nat /\
  match Thenable.settlements s with
  | [] => Thenable.state s = 0 /\ Thenable.value s = None
  | (st, v) :: _ => Thenable.state s = st /\ Thenable.value s = Some v /\ st <> 0
  end.
Proof.
  intros Hops s.
  assert (Hinit : ThenableSettled.SettledAtMostOnce Thenable.initial).
  { split; [reflexivity|]. left. repeat split. }
  destruct (ThenableInert.run_inert ops Thenable.initial Hops Hinit) as [_ H].
  fold s in H. destruct H as [(Hs & H0 & Hv & _)|(st & v & Hs & H0 & Hv & Hne & _)];
    rewrite Hs; cbn; repeat split; auto.
Qed.

Lemma thenable_settles_once_without_foreign_witness :
  let ops := [ThenableOps.Then (Thenable.mkCallbacks (Some 1%nat) None);
              ThenableOps.Reject Thenable.callsBoth;
              ThenableOps.Resolve (Thenable.Plain 3);
              ThenableOps.Tick;
              ThenableOps.Reject (Thenable.Plain 4)] in
  forallb ThenableOps.inert ops = true /\
  Thenable.settlements (ThenableOps.run ops Thenable.initial)
    = [(-1, Thenable.callsBoth)] /\
  (length (Thenable.settlements (ThenableOps.run ops Thenable.initial)) <= 1)%nat.
Proof.
  intro ops. split; [reflexivity|]. split; [reflexivity|].
  exact (proj1 (thenable_settles_once_without_foreign ops eq_refl)).
Defined.

(** X19. A new thenable resolved with itself is rejected with the
    [TypeError] of [recursiveError]; rejected with itself it is also
    rejected with that [TypeError], not with itself, since the test comes
    before the state is looked at. *)
Theorem thenable_self_is_type_error (s : Thenable.State) :
  ThenableSettled.Fresh s ->
  Thenable.state (Thenable.resolve Thenable.Self s) = -1 /\
  Thenable.value (Thenable.resolve Thenable.Self s) = Some Thenable.TypeErrorValue /\
  Thenable.state (Thenable.reject Thenable.Self s) = -1 /\
  Thenable.value (Thenable.reject Thenable.Self s) = Some Thenable.TypeErrorValue.
Proof.
  intros (H0 & Hc & Hr & Hj).
  unfold Thenable.resolve, Thenable.reject. rewrite Hc, Hr, Hj.
  cbn [Nat.eqb andb Thenable.complete Thenable.state Thenable.countComplete].
  rewrite H0. repeat split.
Qed.

Lemma thenable_self_is_type_error_witness :
  ThenableSettled.Fresh Thenable.initial /\
  Thenable.settlements (Thenable.resolve Thenable.Self Thenable.initial)
    = [(-1, Thenable.TypeErrorValue)] /\
  Thenable.state (Thenable.reject Thenable.Self Thenable.initial) = -1.
Proof.
  split; [repeat split|]. split; [reflexivity|].
  exact (proj1 (proj2 (proj2 (thenable_self_is_type_error Thenable.initial
                                (conj eq_refl (conj eq_refl (conj eq_refl eq_refl))))))).
Defined.

(** X20. [reject] does not follow a thenable: a new thenable rejected with a
    foreign thenable is rejected with that object as its value, and the
    [then] of the object is never run. *)
Theorem thenable_reject_does_not_unwrap (s : Thenable.State) (k : Thenable.Script) :
  ThenableSettled.Fresh s ->
  let s' := Thenable.reject (Thenable.Foreign k) s in
  Thenable.state s' = -1 /\
  Thenable.value s' = Some (Thenable.Foreign k) /\
  Thenable.settlements s' = Thenable.settlements s ++ [(-1, Thenable.Foreign k)] /\
  Thenable.pending s' = Thenable.pending s.
Proof.
  intros (H0 & Hc & Hr & Hj) s'. unfold s', Thenable.reject. rewrite Hc, Hj.
  repeat split.
Qed.

Lemma thenable_reject_does_not_unwrap_witness :
  ThenableSettled.Fresh Thenable.initial /\
  Thenable.settlements (Thenable.reject Thenable.callsSecondLater Thenable.initial)
    = [(-1, Thenable.callsSecondLater)] /\
  Thenable.pending (Thenable.reject Thenable.callsSecondLater Thenable.initial) = [].
Proof.
  split; [repeat split|].
  destruct (thenable_reject_does_not_unwrap Thenable.initial
              (Thenable.CallFirst (Thenable.Plain 1)
                 (Thenable.Later (Thenable.CallSecond (Thenable.Plain 2) Thenable.Done)))
              (conj eq_refl (conj eq_refl (conj eq_refl eq_refl))))
    as (_ & _ & H3 & H4).
  split; [exact H3|exact H4].
Defined.

(** X21. A foreign [then] that throws before it has called either callback
    rejects the thenable with what it threw; one that throws after it has
    called its first callback with a plain value changes nothing: the
    thenable stays fulfilled with that value. *)
Theorem thenable_throwing_then (s : Thenable.State) (n a : Z) (e : Thenable.Value) :
  ThenableSettled.Fresh s ->
  let thrown := Thenable.resolve (Thenable.Foreign (Thenable.Throw (Thenable.Plain n))) s in
  let late := Thenable.resolve
                (Thenable.Foreign (Thenable.CallFirst (Thenable.Plain a) (Thenable.Throw e))) s in
  Thenable.state thrown = -1 /\
  Thenable.value thrown = Some (Thenable.Plain n) /\
  Thenable.settlements thrown = Thenable.settlements s ++ [(-1, Thenable.Plain n)] /\
  Thenable.state late = 1 /\
  Thenable.value late = Some (Thenable.Plain a) /\
  Thenable.settlements late = Thenable.settlements s ++ [(1, Thenable.Plain a)].
Proof.
  intros (H0 & Hc & Hr & Hj) thrown late. unfold thrown, late, Thenable.resolve.
  rewrite Hc, Hr.
  cbn [Nat.eqb andb Thenable.complete Thenable.runThen Z.ltb Z.compare fst
       Thenable.state Thenable.countComplete Thenable.ignoreThrow Thenable.firstCalled
       Thenable.settle].
  rewrite H0. cbn. repeat split.
Qed.

Lemma thenable_throwing_then_witness :
  ThenableSettled.Fresh Thenable.initial /\
  Thenable.settlements
    (Thenable.resolve (Thenable.Foreign (Thenable.Throw (Thenable.Plain 7))) Thenable.initial)
    = [(-1, Thenable.Plain 7)] /\
  Thenable.settlements
    (Thenable.resolve
       (Thenable.Foreign (Thenable.CallFirst (Thenable.Plain 8)
                            (Thenable.Throw Thenable.Self))) Thenable.initial)
    = [(1, Thenable.Plain 8)].
Proof.
  split; [repeat split|].
  destruct (thenable_throwing_then Thenable.initial 7 8 Thenable.Self
              (conj eq_refl (conj eq_refl (conj eq_refl eq_refl))))
    as (_ & _ & H3 & _ & _ & H6).
  split; [exact H3|exact H6].
Defined.

(** ** Histories of the 3D world's index *)

Module World3DHistoryFacts.
Import World3D World3DHistory World3DFacts.

Lemma queuedIn_insert (m : option (gmap nat Object3D)) (o : Object3D) id :
  queuedIn (Some (<[objectId o := o]> (default ∅ m))) id =
  Nat.eqb (objectId o) id || queuedIn m id.
Proof.
  unfold queuedIn. destruct (Nat.eqb_spec (objectId o) id) as [->|Hne]; cbn [orb].
  - apply bool_decide_eq_true_2. rewrite lookup_insert_eq. eauto.
  - rewrite lookup_insert_ne by exact Hne. destruct m as [m|]; cbn [default]; [reflexivity|].
    apply bool_decide_eq_false_2. rewrite lookup_empty. intros [x Hx]. discriminate.
Qed.

Lemma removeQueue_put o s :
  removeQueue (_queueForOctreeChange Put o s) = removeQueue s.
Proof.
  unfold removeQueue, _queueForOctreeChange. cbn.
  now destruct (_octreeChangeset s).
Qed.

Lemma removeQueue_remove o s id :
  queuedIn (removeQueue (_queueForOctreeChange Remove o s)) id =
  Nat.eqb (objectId o) id || queuedIn (removeQueue s) id.
Proof.
  unfold removeQueue, _queueForOctreeChange. cbn [_octreeChangeset remove].
  rewrite queuedIn_insert. now destruct (_octreeChangeset s).
Qed.

Lemma putQueue_put o s id :
  queuedIn (putQueue (_queueForOctreeChange Put o s)) id =
  Nat.eqb (objectId o) id || queuedIn (putQueue s) id.
Proof.
  unfold putQueue, _queueForOctreeChange. cbn [_octreeChangeset put].
  rewrite queuedIn_insert. now destruct (_octreeChangeset s).
Qed.

Lemma putQueue_remove o s :
  putQueue (_queueForOctreeChange Remove o s) = putQueue s.
Proof.
  unfold putQueue, _queueForOctreeChange. cbn.
  now destruct (_octreeChangeset s).
Qed.

Lemma flush_lookup s id :
  indexedAt (fst (_updateOctree s)) id =
  if queuedIn (removeQueue s) id then None
  else if queuedIn (putQueue s) id
       then putAt (_object3DFacadesById s) id (indexedAt s id)
       else indexedAt s id.
Proof.
  unfold _updateOctree, indexedAt, removeQueue, putQueue.
  destruct (_octreeChangeset s) as [changes|]; cbn.
  - apply applyChanges_lookup.
  - reflexivity.
Qed.

Lemma flush_returns s :
  snd (_updateOctree s) = _boundingSphereOctree (fst (_updateOctree s)).
Proof. unfold _updateOctree. now destruct (_octreeChangeset s). Qed.

Lemma flush_registry s :
  _object3DFacadesById (fst (_updateOctree s)) = _object3DFacadesById s.
Proof. unfold _updateOctree. now destruct (_octreeChangeset s). Qed.

Lemma flush_empties s :
  _octreeChangeset (fst (_updateOctree s)) = None.
Proof. unfold _updateOctree. now destruct (_octreeChangeset s) eqn:E. Qed.

Lemma notice_within n s :
  IndexWithinRegistry s -> IndexWithinRegistry (notice n s).
Proof.
  intros Hs id sph. destruct n as [o|o|o|]; cbn [notice].
  - unfold object3DAdded. rewrite removeQueue_put. cbn.
    intro Hi. destruct (Hs id sph Hi) as [Hreg|Hq]; [left|now right].
    destruct (decide (objectId o = id)) as [->|Hne].
    + rewrite lookup_insert_eq. eauto.
    + now rewrite lookup_insert_ne.
  - unfold object3DBoundsChanged. rewrite removeQueue_put. apply Hs.
  - unfold object3DRemoved. rewrite removeQueue_remove.
    change (removeQueue (mkState (_boundingSphereOctree s) (_octreeChangeset s)
                           (delete (objectId o) (_object3DFacadesById s))))
      with (removeQueue s).
    change (indexedAt (_queueForOctreeChange Remove o
              (mkState (_boundingSphereOctree s) (_octreeChangeset s)
                 (delete (objectId o) (_object3DFacadesById s)))) id)
      with (indexedAt s id).
    cbn [_queueForOctreeChange _object3DFacadesById].
    intro Hi. destruct (Nat.eqb_spec (objectId o) id) as [->|Hne]; [now right|].
    cbn [orb]. destruct (Hs id sph Hi) as [Hreg|Hq]; [left|now right].
    now rewrite lookup_delete_ne.
  - rewrite flush_lookup, flush_registry.
    destruct (queuedIn (removeQueue s) id) eqn:Hr; [discriminate|].
    destruct (queuedIn (putQueue s) id) eqn:Hp.
    + unfold putAt. destruct (_object3DFacadesById s !! id) as [fac|] eqn:Hf; [eauto|].
      intro Hi. destruct (Hs id sph Hi) as [[x Hx]|Hq]; congruence.
    + intro Hi. destruct (Hs id sph Hi) as [Hreg|Hq]; [now left|congruence].
Qed.

Lemma after_within ns : forall s,
  IndexWithinRegistry s -> IndexWithinRegistry (after ns s).
Proof.
  unfold after. induction ns as [|n ns IH]; intros s Hs; [exact Hs|].
  cbn [List.fold_left]. apply IH. now apply notice_within.
Qed.

Lemma initial_within : IndexWithinRegistry initial.
Proof. intros id sph H. unfold indexedAt in H. cbn in H. now rewrite lookup_empty in H. Qed.

Lemma removed_stays_queued ns : forall s id,
  forallb (fun n => negb (isQuery n)) ns = true ->
  queuedIn (removeQueue s) id = true ->
  queuedIn (removeQueue (after ns s)) id = true.
Proof.
  unfold after. induction ns as [|n ns IH]; intros s id Hns Hq; [exact Hq|].
  cbn [forallb] in Hns. apply andb_true_iff in Hns as [Hn Hrest].
  cbn [List.fold_left]. apply IH; [exact Hrest|].
  destruct n as [o|o|o|]; cbn [notice]; [| | |discriminate].
  - unfold object3DAdded. now rewrite removeQueue_put.
  - unfold object3DBoundsChanged. now rewrite removeQueue_put.
  - unfold object3DRemoved. rewrite removeQueue_remove.
    unfold removeQueue in Hq |- *. cbn [_octreeChangeset]. rewrite Hq. apply orb_true_r.
Qed.

Lemma removed_is_queued ns : forall s id,
  forallb (fun n => negb (isQuery n)) ns = true ->
  existsb (removes id) ns = true ->
  queuedIn (removeQueue (after ns s)) id = true.
Proof.
  induction ns as [|n ns IH]; intros s id Hns Hex; [discriminate|].
  cbn [forallb] in Hns. apply andb_true_iff in Hns as [Hn Hrest].
  cbn [existsb] in Hex. apply orb_true_iff in Hex as [Hhere|Hlater].
  - change (after (n :: ns) s) with (after ns (notice n s)).
    apply removed_stays_queued; [exact Hrest|].
    destruct n as [o|o|o|]; try discriminate. cbn [removes] in Hhere.
    cbn [notice]. unfold object3DRemoved. rewrite removeQueue_remove. now rewrite Hhere.
  - change (after (n :: ns) s) with (after ns (notice n s)). now apply IH.
Qed.

(** What a batch that neither adds nor removes the id leaves of it. *)
Lemma kept_batch ns : forall s id,
  forallb (keeps id) ns = true ->
  _object3DFacadesById (after ns s) !! id = _object3DFacadesById s !! id /\
  queuedIn (removeQueue (after ns s)) id = queuedIn (removeQueue s) id /\
  (queuedIn (putQueue s) id = true -> queuedIn (putQueue (after ns s)) id = true) /\
  indexedAt (after ns s) id = indexedAt s id.
Proof.
  induction ns as [|n ns IH]; intros s id Hns; [repeat split; auto|].
  cbn [forallb] in Hns. apply andb_true_iff in Hns as [Hn Hrest].
  change (after (n :: ns) s) with (after ns (notice n s)).
  destruct (IH (notice n s) id Hrest) as (H1 & H2 & H3 & H4).
  rewrite H1, H2, H4. clear H1 H2 H4 IH.
  unfold keeps in Hn. apply andb_true_iff in Hn as [Hn Hadd].
  apply andb_true_iff in Hn as [Hq Hrm].
  destruct n as [o|o|o|]; cbn [notice]; [| | |discriminate].
  - cbn [adds] in Hadd. apply negb_true_iff, Nat.eqb_neq in Hadd.
    repeat split.
    + unfold object3DAdded. cbn. now rewrite lookup_insert_ne.
    + unfold object3DAdded. now rewrite removeQueue_put.
    + intro Hp. apply H3. cbn [notice]. unfold object3DAdded. rewrite putQueue_put.
      cbn. unfold putQueue in Hp |- *. cbn. rewrite Hp. apply orb_true_r.
  - repeat split.
    + unfold object3DBoundsChanged. now rewrite removeQueue_put.
    + intro Hp. apply H3. cbn [notice]. unfold object3DBoundsChanged. rewrite putQueue_put.
      rewrite Hp. apply orb_true_r.
  - cbn [removes] in Hrm. apply negb_true_iff in Hrm.
    assert (Hne : objectId o <> id) by now apply Nat.eqb_neq.
    repeat split.
    + unfold object3DRemoved. cbn. now rewrite lookup_delete_ne.
    + unfold object3DRemoved. rewrite removeQueue_remove. rewrite Hrm. reflexivity.
    + intro Hp. apply H3. cbn [notice]. unfold object3DRemoved. rewrite putQueue_remove.
      exact Hp.
Qed.
End World3DHistoryFacts.

(** X22. The index never holds a facade the world does not know: after any
    sequence of [object3DAdded], [object3DBoundsChanged] and
    [object3DRemoved] notifications and ray queries of a new world, every id
    with a sphere in the octree that [_updateOctree] returns is a key of
    [_object3DFacadesById]. *)
Theorem indexed_facades_are_registered (ns : list World3DHistory.Notice)
    (octree : gmap nat World3D.Sphere) (facadeId : nat) (sphere : World3D.Sphere) :
  let s := World3DHistory.after ns World3DHistory.initial in
  snd (World3D._updateOctree s) = Some octree ->
  octree !! facadeId = Some sphere ->
  is_Some (World3D._object3DFacadesById s !! facadeId).
Proof.
  intros s Ho Hi.
  pose proof (World3DHistoryFacts.after_within (ns ++ [World3DHistory.Query])
                World3DHistory.initial World3DHistoryFacts.initial_within) as Hw.
  unfold World3DHistory.after in Hw. rewrite fold_left_app in Hw.
  cbn [List.fold_left World3DHistory.notice] in Hw. fold (World3DHistory.after ns World3DHistory.initial) in Hw.
  fold s in Hw.
  destruct (Hw facadeId sphere) as [Hreg|Hq].
  - unfold World3DHistory.indexedAt. rewrite <- World3DHistoryFacts.flush_returns, Ho. exact Hi.
  - now rewrite World3DHistoryFacts.flush_registry in Hreg.
  - unfold World3DHistory.removeQueue in Hq.
    rewrite World3DHistoryFacts.flush_empties in Hq. discriminate.
Qed.

Lemma indexed_facades_are_registered_witness :
  let ns := [World3DHistory.Added (World3DHistory.box 1);
             World3DHistory.Added (World3DHistory.box 2);
             World3DHistory.Query;
             World3DHistory.Removed (World3DHistory.box 1)] in
  let s := World3DHistory.after ns World3DHistory.initial in
  snd (World3D._updateOctree s) = Some {[ 2%nat := World3D.unitSphere ]} /\
  ({[ 2%nat := World3D.unitSphere ]} : gmap nat World3D.Sphere) !! 2%nat
    = Some World3D.unitSphere /\
  is_Some (World3D._object3DFacadesById s !! 2%nat).
Proof.
  intros ns s.
  assert (Ho : snd (World3D._updateOctree s) = Some {[ 2%nat := World3D.unitSphere ]})
    by (vm_compute; reflexivity).
  assert (Hi : ({[ 2%nat := World3D.unitSphere ]} : gmap nat World3D.Sphere) !! 2%nat
               = Some World3D.unitSphere) by reflexivity.
  split; [exact Ho|]. split; [exact Hi|].
  exact (indexed_facades_are_registered ns _ 2%nat World3D.unitSphere Ho Hi).
Defined.

(** X23. Between two queries a removal is final: if a facade is removed at
    any point of a batch of notifications, the next flush leaves no entry
    for its id, also where an [object3DAdded] or [object3DBoundsChanged] for
    the same id came after the removal. *)
Theorem removal_wins_within_a_batch (s : World3D.State) (ns : list World3DHistory.Notice)
    (facadeId : nat) :
  forallb (fun n => negb (World3DHistory.isQuery n)) ns = true ->
  existsb (World3DHistory.removes facadeId) ns = true ->
  exists octree,
    snd (World3D._updateOctree (World3DHistory.after ns s)) = Some octree /\
    octree !! facadeId = None.
Proof.
  intros Hns Hex.
  pose proof (World3DHistoryFacts.removed_is_queued ns s facadeId Hns Hex) as Hq.
  pose proof (World3DHistoryFacts.flush_lookup (World3DHistory.after ns s) facadeId) as Hl.
  rewrite Hq in Hl. unfold World3DHistory.indexedAt in Hl.
  rewrite <- World3DHistoryFacts.flush_returns in Hl.
  unfold World3DHistory.removeQueue in Hq.
  destruct (World3D._octreeChangeset (World3DHistory.after ns s)) as [changes|] eqn:Hc;
    [|discriminate].
  unfold World3D._updateOctree in Hl |- *. rewrite Hc in Hl |- *. cbn in Hl |- *.
  eexists. split; [reflexivity|exact Hl].
Qed.

Lemma removal_wins_within_a_batch_witness :
  let s := World3DHistory.after [World3DHistory.Added (World3DHistory.box 1);
                                 World3DHistory.Query] World3DHistory.initial in
  let ns := [World3DHistory.Removed (World3DHistory.box 1);
             World3DHistory.Added (World3DHistory.box 1)] in
  World3DHistory.indexedAt s 1 = Some World3D.unitSphere /\
  is_Some (World3D._object3DFacadesById (World3DHistory.after ns s) !! 1%nat) /\
  exists octree,
    snd (World3D._updateOctree (World3DHistory.after ns s)) = Some octree /\
    octree !! 1%nat = None.
Proof.
  intros s ns. split; [vm_compute; reflexivity|]. split; [vm_compute; eauto|].
  exact (removal_wins_within_a_batch s ns 1%nat eq_refl eq_refl).
Defined.

(** X24. A facade that is added is indexed at the next query with the sphere
    the flush reads from it: after [object3DAdded] for a facade that is not
    being destroyed and whose id is not queued for removal, and any
    notifications for other ids or bounds changes of the facade itself, the
    flush makes the entry of its id the bounding sphere it has when the
    flush reads it, and no entry where it has none. *)
Theorem added_facade_is_indexed (s : World3D.State) (source : World3D.Object3D)
    (ns : list World3DHistory.Notice) :
  World3D.isDestroying source = false ->
  World3D.queuedIn (World3DHistory.removeQueue s) (World3D.objectId source) = false ->
  Forall (World3DHistory.besideOrFrom source) ns ->
  exists octree,
    snd (World3D._updateOctree
           (World3DHistory.after ns (World3D.object3DAdded source s))) = Some octree /\
    octree !! World3D.objectId source = World3D.boundingSphere source.
Proof.
  intros Hd Hr Hall.
  assert (Hns : forallb (World3DHistory.keeps (World3D.objectId source)) ns = true).
  { apply forallb_forall. intros n Hn.
    rewrite List.Forall_forall in Hall. now destruct (Hall n Hn). }
  clear Hall.
  set (id := World3D.objectId source) in *.
  set (s1 := World3D.object3DAdded source s).
  destruct (World3DHistoryFacts.kept_batch ns s1 id Hns) as (Hreg & Hrm & Hput & Hidx).
  assert (Hreg1 : World3D._object3DFacadesById s1 !! id = Some source).
  { unfold s1, World3D.object3DAdded. cbn. apply lookup_insert_eq. }
  assert (Hrm1 : World3D.queuedIn (World3DHistory.removeQueue s1) id = false).
  { unfold s1, World3D.object3DAdded. now rewrite World3DHistoryFacts.removeQueue_put. }
  assert (Hput1 : World3D.queuedIn (World3DHistory.putQueue s1) id = true).
  { unfold s1, World3D.object3DAdded. rewrite World3DHistoryFacts.putQueue_put.
    unfold id. now rewrite Nat.eqb_refl. }
  pose proof (World3DHistoryFacts.flush_lookup (World3DHistory.after ns s1) id) as Hl.
  rewrite Hrm, Hrm1, (Hput Hput1) in Hl. unfold World3D.putAt in Hl.
  rewrite Hreg, Hreg1, Hd in Hl.
  unfold World3DHistory.indexedAt in Hl at 1.
  rewrite <- World3DHistoryFacts.flush_returns in Hl.
  specialize (Hput Hput1). unfold World3DHistory.putQueue in Hput.
  destruct (World3D._octreeChangeset (World3DHistory.after ns s1)) as [changes|] eqn:Hc;
    [|discriminate].
  unfold World3D._updateOctree in Hl |- *. rewrite Hc in Hl |- *. cbn in Hl |- *.
  eexists. split; [reflexivity|exact Hl].
Qed.

Lemma added_facade_is_indexed_witness :
  let ns := [World3DHistory.Added (World3DHistory.box 2);
             World3DHistory.BoundsChanged (World3DHistory.box 1);
             World3DHistory.Removed (World3DHistory.box 2)] in
  World3D.isDestroying (World3DHistory.box 1) = false /\
  Forall (World3DHistory.besideOrFrom (World3DHistory.box 1)) ns /\
  exists octree,
    snd (World3D._updateOctree
           (World3DHistory.after ns
              (World3D.object3DAdded (World3DHistory.box 1) World3DHistory.initial)))
      = Some octree /\
    octree !! 1%nat = Some World3D.unitSphere.
Proof.
  intro ns.
  assert (Hall : Forall (World3DHistory.besideOrFrom (World3DHistory.box 1)) ns).
  { repeat constructor; try reflexivity; intros o Ho; try discriminate Ho.
    injection Ho as <-. reflexivity. }
  split; [reflexivity|]. split; [exact Hall|].
  exact (added_facade_is_indexed World3DHistory.initial (World3DHistory.box 1) ns
           eq_refl eq_refl Hall).
Defined.

(** ** [getFacadesOnRay] *)

Module RayQueryFacts.
Import World3D RayQuery.

Section OnRay.
Context {RayHit : Type}.
Variable onRay : Sphere -> bool.
Variable raycast : Object3D -> option (list RayHit).

Lemma visit_hitOf byId acc entry :
  visitSphere raycast byId acc entry =
  match hitOf raycast byId entry with
  | Some hit => Some (default [] acc ++ [hit])
  | None => acc
  end.
Proof.
  unfold visitSphere, hitOf. destruct (byId !! fst entry) as [facade|]; [|reflexivity].
  now destruct (raycast facade) as [[|hit rest]|].
Qed.

(** The loop that pushes onto [allHits] collects the hits of the visited
    entries in order, and leaves [null] where there is none. *)
Lemma visit_fold byId entries : forall acc,
  acc <> Some [] ->
  List.fold_left (visitSphere raycast byId) entries acc =
  match default [] acc ++ omap (hitOf raycast byId) entries with
  | [] => None
  | hits => Some hits
  end.
Proof.
  induction entries as [|entry entries IH]; intros acc Hacc.
  - cbn. rewrite app_nil_r. destruct acc as [[|h hs]|]; [congruence|reflexivity|reflexivity].
  - cbn [List.fold_left omap list_omap]. rewrite visit_hitOf.
    destruct (hitOf raycast byId entry) as [hit|]; [|now apply IH].
    rewrite IH.
    + change (default [] (Some (default [] acc ++ [hit]))) with (default [] acc ++ [hit]).
      now rewrite <- app_assoc.
    + destruct (default [] acc); discriminate.
Qed.

(** What [getFacadesOnRay] returns, with the octree it searched. *)
Lemma query_spec s :
  exists visited,
    match snd (_updateOctree s) with
    | Some octree => visited = forEachSphereOnRay onRay octree
    | None => visited = []
    end /\
    snd (getFacadesOnRay onRay raycast s) =
      match omap (hitOf raycast (_object3DFacadesById s)) visited with
      | [] => None
      | hits => Some hits
      end.
Proof.
  unfold getFacadesOnRay.
  pose proof (World3DHistoryFacts.flush_registry s) as Hreg.
  destruct (_updateOctree s) as [s' [octree|]] eqn:Hu; cbn [fst snd] in *.
  - eexists. split; [reflexivity|]. rewrite visit_fold by discriminate.
    cbn [default app]. now rewrite Hreg.
  - exists []. split; reflexivity.
Qed.

Lemma visited_entries (octree : gmap nat Sphere) :
  NoDup (List.map fst (forEachSphereOnRay onRay octree)) /\
  forall entry, In entry (forEachSphereOnRay onRay octree) <->
                octree !! fst entry = Some (snd entry) /\ onRay (snd entry) = true.
Proof.
  unfold forEachSphereOnRay. split.
  - pose proof (NoDup_fst_map_to_list octree) as Hnd.
    change (NoDup (List.map fst (map_to_list octree))) in Hnd.
    induction (map_to_list octree) as [|e l IH]; [constructor|].
    cbn [List.map] in Hnd. apply NoDup_cons in Hnd as [Hnotin Hnd].
    cbn [List.filter]. destruct (onRay (snd e)); [|now apply IH].
    cbn [List.map]. apply NoDup_cons. split; [|now apply IH].
    intro Hin. apply Hnotin. apply list_elem_of_In in Hin. apply list_elem_of_In.
    apply in_map_iff in Hin as (e' & He' & Hin). apply in_map_iff. exists e'.
    split; [exact He'|]. now apply filter_In in Hin as [Hin _].
  - intros [id sph]. rewrite filter_In. cbn [fst snd].
    rewrite <- list_elem_of_In, elem_of_map_to_list. reflexivity.
Qed.

(** The hits of a list of entries with distinct ids, one per entry that has
    one. *)
Lemma hits_of_entries byId (l : list (nat * Sphere)) :
  NoDup (List.map fst l) ->
  exists entries,
    NoDup (List.map fst entries) /\
    (forall e, In e entries -> In e l) /\
    Forall2 (fun e fh => byId !! fst e = Some (fst fh) /\
                         exists rest, raycast (fst fh) = Some (snd fh :: rest))
      entries (omap (hitOf raycast byId) l).
Proof.
  induction l as [|e l IH]; intro Hnd.
  - exists []. repeat split; [constructor|intros e []|constructor].
  - cbn [List.map] in Hnd. apply NoDup_cons in Hnd as [Hnotin Hnd].
    destruct (IH Hnd) as (entries & Hnd' & Hsub & Hall).
    cbn [omap list_omap].
    destruct (hitOf raycast byId e) as [[facade hit]|] eqn:Hh.
    + exists (e :: entries). repeat split.
      * cbn [List.map]. apply NoDup_cons. split; [|exact Hnd'].
        intro Hin. apply Hnotin. apply list_elem_of_In in Hin. apply list_elem_of_In.
        apply in_map_iff in Hin as (x & Hx & Hin). apply in_map_iff. exists x.
        split; [exact Hx|now apply Hsub].
      * intros x [->|Hx]; [now left|right; now apply Hsub].
      * constructor; [|exact Hall]. cbn [fst snd]. unfold hitOf in Hh.
        destruct (byId !! fst e) as [fac|]; [|discriminate].
        destruct (raycast fac) as [[|h rest]|] eqn:Hr; try discriminate.
        injection Hh as <- <-. split; [reflexivity|]. eauto.
    + exists entries. repeat split; [exact Hnd'|intros x Hx; right; now apply Hsub|exact Hall].
Qed.

Lemma hit_of_entry byId (l : list (nat * Sphere)) e fh :
  In e l -> hitOf raycast byId e = Some fh -> In fh (omap (hitOf raycast byId) l).
Proof.
  intros Hin Hh. apply list_elem_of_In. apply list_elem_of_omap. exists e.
  split; [now apply list_elem_of_In|exact Hh].
Qed.
End OnRay.
End RayQueryFacts.

(** X25. [getFacadesOnRay] never returns an empty array: it returns [null]
    or hits, and every hit is the first hit of the [raycast] of a registered
    facade whose indexed sphere is on the ray, with no facade id
    contributing twice. *)
Theorem ray_query_hits_are_first_hits {RayHit : Type}
    (onRay : World3D.Sphere -> bool) (raycast : World3D.Object3D -> option (list RayHit))
    (s : World3D.State) (hits : list (World3D.Object3D * RayHit)) :
  snd (RayQuery.getFacadesOnRay onRay raycast s) = Some hits ->
  hits <> [] /\
  exists octree entries,
    snd (World3D._updateOctree s) = Some octree /\
    NoDup (List.map fst entries) /\
    Forall2 (fun entry hit =>
               octree !! fst entry = Some (snd entry) /\
               onRay (snd entry) = true /\
               World3D._object3DFacadesById s !! fst entry = Some (fst hit) /\
               exists rest, raycast (fst hit) = Some (snd hit :: rest))
      entries hits.
Proof.
  intro Hq.
  destruct (RayQueryFacts.query_spec onRay raycast s) as (visited & Hv & Hr).
  rewrite Hq in Hr.
  destruct (omap (RayQuery.hitOf raycast (World3D._object3DFacadesById s)) visited)
    as [|h hs] eqn:Hom; [discriminate|].
  injection Hr as ->. split; [discriminate|].
  destruct (snd (World3D._updateOctree s)) as [octree|];
    [|subst visited; discriminate].
  subst visited.
  destruct (RayQueryFacts.visited_entries onRay octree) as [Hnd Hin].
  destruct (RayQueryFacts.hits_of_entries raycast (World3D._object3DFacadesById s) _ Hnd)
    as (entries & Hnd' & Hsub & Hall).
  rewrite Hom in Hall.
  exists octree, entries. split; [reflexivity|]. split; [exact Hnd'|].
  assert (Hent : List.Forall (fun e => octree !! fst e = Some (snd e) /\ onRay (snd e) = true)
                   entries).
  { apply List.Forall_forall. intros e He. apply Hin. now apply Hsub. }
  clear - Hall Hent. revert Hent.
  induction Hall as [|e fh entries hits He Hall IH]; intro Hent; [constructor|].
  inversion Hent as [|? ? [H1 H2] Hrest]; subst.
  constructor; [tauto|now apply IH].
Qed.

Lemma ray_query_hits_are_first_hits_witness :
  let onRay := fun sphere : World3D.Sphere => World3D.centerX sphere <=? 0 in
  let raycast := fun facade : World3D.Object3D =>
                   if Nat.eqb (World3D.objectId facade) 2 then Some []
                   else Some [Z.of_nat (World3D.objectId facade); 100] in
  let s := World3DHistory.after [World3DHistory.Added (World3DHistory.box 1);
                                 World3DHistory.Added (World3DHistory.box 2)]
             World3DHistory.initial in
  snd (RayQuery.getFacadesOnRay onRay raycast s) = Some [(World3DHistory.box 1, 1)] /\
  [(World3DHistory.box 1, 1)] <> [].
Proof.
  intros onRay raycast s.
  assert (Hq : snd (RayQuery.getFacadesOnRay onRay raycast s)
               = Some [(World3DHistory.box 1, 1)]) by (vm_compute; reflexivity).
  split; [exact Hq|].
  exact (proj1 (ray_query_hits_are_first_hits onRay raycast s _ Hq)).
Defined.

(** X26. [getFacadesOnRay] misses no facade: where the octree it searches
    holds a sphere on the ray for an id, the id is registered and the
    [raycast] of its facade returns hits, the first of them is among the hits
    returned, tagged with that facade. *)
Theorem ray_query_finds_every_hit {RayHit : Type}
    (onRay : World3D.Sphere -> bool) (raycast : World3D.Object3D -> option (list RayHit))
    (s : World3D.State) (octree : gmap nat World3D.Sphere) (facadeId : nat)
    (sphere : World3D.Sphere) (facade : World3D.Object3D) (hit : RayHit) (rest : list RayHit) :
  snd (World3D._updateOctree s) = Some octree ->
  octree !! facadeId = Some sphere ->
  onRay sphere = true ->
  World3D._object3DFacadesById s !! facadeId = Some facade ->
  raycast facade = Some (hit :: rest) ->
  exists hits,
    snd (RayQuery.getFacadesOnRay onRay raycast s) = Some hits /\
    In (facade, hit) hits.
Proof.
  intros Ho Hi Hray Hreg Hcast.
  destruct (RayQueryFacts.query_spec onRay raycast s) as (visited & Hv & Hr).
  rewrite Ho in Hv. subst visited.
  assert (Hin : In (facade, hit)
                  (omap (RayQuery.hitOf raycast (World3D._object3DFacadesById s))
                     (RayQuery.forEachSphereOnRay onRay octree))).
  { apply (RayQueryFacts.hit_of_entry raycast _ _ (facadeId, sphere)).
    - apply (RayQueryFacts.visited_entries onRay octree). cbn [fst snd]. now split.
    - unfold RayQuery.hitOf. cbn [fst]. now rewrite Hreg, Hcast. }
  destruct (omap (RayQuery.hitOf raycast (World3D._object3DFacadesById s))
              (RayQuery.forEachSphereOnRay onRay octree)) as [|h hs]; [destruct Hin|].
  exists (h :: hs). split; [exact Hr|exact Hin].
Qed.

Lemma ray_query_finds_every_hit_witness :
  let onRay := fun sphere : World3D.Sphere => World3D.centerX sphere <=? 0 in
  let raycast := fun facade : World3D.Object3D =>
                   Some [Z.of_nat (World3D.objectId facade); 100] in
  let s := World3DHistory.after [World3DHistory.Added (World3DHistory.box 1);
                                 World3DHistory.Added (World3DHistory.box 2)]
             World3DHistory.initial in
  snd (World3D._updateOctree s)
    = Some {[ 1%nat := World3D.unitSphere; 2%nat := World3D.unitSphere ]} /\
  exists hits,
    snd (RayQuery.getFacadesOnRay onRay raycast s) = Some hits /\
    In (World3DHistory.box 2, 2) hits.
Proof.
  intros onRay raycast s.
  assert (Ho : snd (World3D._updateOctree s)
               = Some {[ 1%nat := World3D.unitSphere; 2%nat := World3D.unitSphere ]})
    by (vm_compute; reflexivity).
  split; [exact Ho|].
  exact (ray_query_finds_every_hit onRay raycast s _ 2%nat World3D.unitSphere
           (World3DHistory.box 2) 2 [100] Ho eq_refl eq_refl eq_refl eq_refl).
Defined.

(** ** The render loop *)

Module RenderLoopFacts.
Import RenderLoop.

Lemma apply_oneFrame op s : OneFrame s -> OneFrame (apply op s).
Proof.
  intros (Hlen & Htimer & Hcount). destruct op as [|calls|on]; cbn [apply].
  - unfold _queueRender. destruct (_nextFrameTimer s) eqn:Ht;
      [repeat split; try assumption; rewrite Ht; discriminate|].
    destruct (scheduledFrames s) as [|x l] eqn:Hs;
      [|exfalso; apply Htimer; [discriminate|reflexivity]].
    repeat split; cbn in *; try lia. discriminate.
  - destruct (scheduledFrames s) as [|x l] eqn:Hs;
      [repeat split; rewrite ?Hs; cbn; try lia; intro Hne; now destruct Hne|].
    cbn [length] in Hlen, Hcount. destruct l; [|cbn in Hlen; lia].
    unfold _nextFrameHandler. cbn.
    destruct (beforeThrows calls); [repeat split; cbn; try lia; congruence|].
    destruct (renderThrows calls || afterThrows calls);
      [repeat split; cbn in *; try lia; congruence|].
    destruct (continuousRender s); unfold _queueRender; cbn; repeat split; cbn in *;
      try lia; try congruence.
  - repeat split; assumption.
Qed.

Lemma run_oneFrame ops : forall s, OneFrame s -> OneFrame (run ops s).
Proof.
  unfold run. induction ops as [|op ops IH]; intros s Hs; [exact Hs|].
  cbn [List.fold_left]. apply IH. now apply apply_oneFrame.
Qed.

Lemma initial_oneFrame : OneFrame initial.
Proof. repeat split; cbn; try lia. congruence. Qed.

Lemma apply_stalled op s :
  Stalled s ->
  Stalled (apply op s) /\ requests (apply op s) = requests s /\
  renders (apply op s) = renders s.
Proof.
  intros [Ht Hs]. unfold Stalled. destruct op as [|calls|on]; cbn [apply].
  - unfold _queueRender. destruct (_nextFrameTimer s) eqn:E; [|congruence].
    rewrite E. repeat split; auto.
  - rewrite Hs. repeat split; auto.
  - repeat split; auto.
Qed.

Lemma run_stalled ops : forall s,
  Stalled s ->
  Stalled (run ops s) /\ requests (run ops s) = requests s /\ renders (run ops s) = renders s.
Proof.
  unfold run. induction ops as [|op ops IH]; intros s Hs; [repeat split; apply Hs|].
  cbn [List.fold_left]. destruct (apply_stalled op s Hs) as (Hs' & Hr & Hd).
  destruct (IH _ Hs') as (H1 & H2 & H3). repeat split; try apply H1; congruence.
Qed.

(** Where no frame throws, the timer is set exactly while a frame is held,
    and every frame requested and run has rendered once. *)
Lemma run_quiet ops : forall s,
  forallb quiet ops = true ->
  (scheduledFrames s = [] <-> _nextFrameTimer s = None) ->
  (length (scheduledFrames s) <= 1)%nat ->
  (renders s + length (scheduledFrames s) = requests s)%nat ->
  (scheduledFrames (run ops s) = [] <-> _nextFrameTimer (run ops s) = None) /\
  (renders (run ops s) + length (scheduledFrames (run ops s)) = requests (run ops s))%nat.
Proof.
  unfold run. induction ops as [|op ops IH]; intros s Hq Hiff Hlen Hcount; [now split|].
  cbn [forallb] in Hq. apply andb_true_iff in Hq as [Hop Hrest].
  cbn [List.fold_left].
  assert (H : (scheduledFrames (apply op s) = [] <-> _nextFrameTimer (apply op s) = None) /\
              (length (scheduledFrames (apply op s)) <= 1)%nat /\
              (renders (apply op s) + length (scheduledFrames (apply op s))
               = requests (apply op s))%nat).
  { destruct op as [|calls|on]; cbn [apply].
    - unfold _queueRender. destruct (_nextFrameTimer s) eqn:Ht;
        [rewrite ?Ht; split; [exact Hiff|split; assumption]|].
      destruct Hiff as [_ Hnone]. rewrite (Hnone eq_refl) in *. cbn in *.
      repeat split; try lia; discriminate.
    - destruct (scheduledFrames s) as [|x l] eqn:Hs;
        [rewrite Hs; split; [exact Hiff|split; assumption]|].
      cbn [length] in Hlen, Hcount. destruct l; [|cbn in Hlen; lia].
      cbn [quiet] in Hop. unfold throwsIn in Hop. apply negb_true_iff in Hop.
      apply orb_false_iff in Hop as [Hop Ha]. apply orb_false_iff in Hop as [Hb Hr].
      unfold _nextFrameHandler. rewrite Hb, Hr, Ha. cbn.
      destruct (continuousRender s); unfold _queueRender; cbn; cbn in Hcount;
        repeat split; try lia; try discriminate.
    - split; [exact Hiff|split; assumption]. }
  destruct H as (H1 & H2 & H3). now apply IH.
Qed.
End RenderLoopFacts.

(** X27. [_queueRender] holds at most one frame: after any requests to
    render, frames run and changes of [continuousRender] on a new world, the
    scheduler holds at most one callback, and [doRender] has run at most
    once per frame requested. Where no frame threw, every frame requested
    has rendered or is still held, and the timer is set exactly while one
    is held. *)
Theorem render_requests_are_coalesced (ops : list RenderLoop.Op) :
  let s := RenderLoop.run ops RenderLoop.initial in
  (length (RenderLoop.scheduledFrames s) <= 1)%nat /\
  (RenderLoop.renders s + length (RenderLoop.scheduledFrames s) <= RenderLoop.requests s)%nat /\
  (forallb RenderLoop.quiet ops = true ->
   (RenderLoop.renders s + length (RenderLoop.scheduledFrames s) = RenderLoop.requests s)%nat /\
   (RenderLoop.scheduledFrames s = [] <-> RenderLoop._nextFrameTimer s = None)).
Proof.
  intro s.
  destruct (RenderLoopFacts.run_oneFrame ops _ RenderLoopFacts.initial_oneFrame)
    as (Hlen & _ & Hcount).
  split; [exact Hlen|]. split; [exact Hcount|].
  intro Hq.
  destruct (RenderLoopFacts.run_quiet ops RenderLoop.initial Hq) as [Hiff Heq];
    cbn; try lia; [tauto|].
  split; [exact Heq|exact Hiff].
Qed.

(** X28. A frame that throws ends the render loop: [_nextFrameTimer] is
    cleared only at the end of the frame callback, so once [onBeforeRender],
    [doRender] or a later call of a frame has thrown, no request to render
    asks for a frame again and [doRender] is never run again. *)
Theorem throwing_frame_stalls_rendering (before later : list RenderLoop.Op)
    (calls : RenderLoop.FrameCalls) :
  RenderLoop.throwsIn calls = true ->
  let s1 := RenderLoop.run (before ++ [RenderLoop.NeedsRender; RenderLoop.Frame calls])
              RenderLoop.initial in
  let s2 := RenderLoop.run later s1 in
  RenderLoop.requests s2 = RenderLoop.requests s1 /\
  RenderLoop.renders s2 = RenderLoop.renders s1 /\
  RenderLoop.scheduledFrames s2 = [] /\
  RenderLoop._nextFrameTimer s2 <> None.
Proof.
  intros Hthrow s1 s2.
  assert (Hst : RenderLoop.Stalled s1).
  { unfold s1, RenderLoop.run. rewrite fold_left_app.
    fold (RenderLoop.run before RenderLoop.initial).
    pose proof (RenderLoopFacts.run_oneFrame before _ RenderLoopFacts.initial_oneFrame)
      as (Hlen & Htimer & _).
    set (s0 := RenderLoop.run before RenderLoop.initial) in *.
    cbn [List.fold_left RenderLoop.apply]. unfold RenderLoop._queueRender.
    unfold RenderLoop.throwsIn in Hthrow.
    destruct (RenderLoop._nextFrameTimer s0) as [t|] eqn:Ht.
    - destruct (RenderLoop.scheduledFrames s0) as [|x l] eqn:Hs.
      + split; [congruence|exact Hs].
      + destruct l; [|cbn in Hlen; lia].
        unfold RenderLoop._nextFrameHandler. cbn [RenderLoop.beforeThrows].
        destruct (RenderLoop.beforeThrows calls); [split; cbn; congruence|].
        cbn [orb] in Hthrow. rewrite Hthrow. split; cbn; congruence.
    - destruct (RenderLoop.scheduledFrames s0) as [|x l] eqn:Hs;
        [|exfalso; apply Htimer; [discriminate|reflexivity]].
      cbn. unfold RenderLoop._nextFrameHandler.
      destruct (RenderLoop.beforeThrows calls); [split; cbn; congruence|].
      cbn [orb] in Hthrow. rewrite Hthrow. split; cbn; congruence. }
  destruct (RenderLoopFacts.run_stalled later s1 Hst) as ([Ht Hs] & Hr & Hd).
  repeat split; assumption.
Qed.

Lemma throwing_frame_stalls_rendering_witness :
  let s1 := RenderLoop.run [RenderLoop.NeedsRender; RenderLoop.Frame RenderLoop.failing]
              RenderLoop.initial in
  let s2 := RenderLoop.run [RenderLoop.NeedsRender; RenderLoop.Frame RenderLoop.fine;
                            RenderLoop.SetContinuous true; RenderLoop.NeedsRender] s1 in
  RenderLoop.throwsIn RenderLoop.failing = true /\
  RenderLoop.requests s2 = 1%nat /\
  RenderLoop.renders s2 = RenderLoop.renders s1.
Proof.
  intros s1 s2. split; [reflexivity|].
  destruct (throwing_frame_stalls_rendering []
              [RenderLoop.NeedsRender; RenderLoop.Frame RenderLoop.fine;
               RenderLoop.SetContinuous true; RenderLoop.NeedsRender]
              RenderLoop.failing eq_refl) as (Hr & Hd & _).
  split; [exact Hr|exact Hd].
Defined.

(** ** The earlier [World] class *)

Module LegacyFacts.
Import LegacyWorld LegacyHistory.

Lemma sameFacadeId_refl a : sameFacadeId a a = true.
Proof. destruct a; cbn; [apply Nat.eqb_refl|reflexivity]. Qed.

Lemma callIfHandler_keeps handler target related s :
  eventRegistry (fst (callIfHandler handler target related s)) = eventRegistry s /\
  hoveredFacade (fst (callIfHandler handler target related s)) = hoveredFacade s /\
  sceneId (fst (callIfHandler handler target related s)) = sceneId s /\
  sceneOnClick (fst (callIfHandler handler target related s)) = sceneOnClick s.
Proof. unfold callIfHandler. destruct handler; repeat split. Qed.

(** After a move the hovered facade is what was found, where the world
    listens for hover at all, and the registry is as before. *)
Lemma move_fields found s :
  eventRegistry (fst (handleMouseMove found s)) = eventRegistry s /\
  (fst (handleMouseMove found s) = s /\ snd (handleMouseMove found s) = false \/
   hoveredFacade (fst (handleMouseMove found s)) = found).
Proof.
  unfold handleMouseMove. destruct (eventRegistry s) as [registry|] eqn:Hreg;
    [|split; [first [exact Hreg|reflexivity]|left; now split]].
  destruct (hasType registry "onMouseOver" || hasType registry "onMouseOut");
    [|split; [first [exact Hreg|reflexivity]|left; now split]].
  destruct (negb (sameFacadeId found (hoveredFacade s))); [|split; [first [exact Hreg|reflexivity]|now right]].
  set (s1 := mkState (Some registry) found (sceneId s) (sceneOnClick s) (calls s)).
  set (out := match hoveredFacade s with
              | Some last => callIfHandler (listenerOf registry "onMouseOut" last) last found s1
              | None => (s1, false)
              end).
  assert (Hout : eventRegistry (fst out) = Some registry /\ hoveredFacade (fst out) = found).
  { unfold out. destruct (hoveredFacade s) as [last|]; [|now split].
    destruct (callIfHandler_keeps (listenerOf registry "onMouseOut" last) last found s1)
      as (H1 & H2 & _). now rewrite H1, H2. }
  destruct Hout as [Hr Hh].
  destruct (snd out); [split; [first [exact Hr|reflexivity]|now right]|].
  destruct found as [hovered|]; [|split; [first [exact Hr|reflexivity]|now right]].
  destruct (callIfHandler_keeps (listenerOf registry "onMouseOver" hovered) hovered
              (hoveredFacade s) (fst out)) as (H1 & H2 & _).
  rewrite H1, H2. split; [first [exact Hr|reflexivity]|now right].
Qed.

Lemma state_eta s found :
  hoveredFacade s = found ->
  mkState (eventRegistry s) found (sceneId s) (sceneOnClick s) (calls s) = s.
Proof. intros <-. now destruct s. Qed.

Lemma hasType_insert registry type (listeners : gmap nat (option Handler)) other :
  hasType (<[type := listeners]> registry) other =
  String.eqb type other || hasType registry other.
Proof.
  unfold hasType. destruct (String.eqb_spec type other) as [->|Hne]; cbn [orb].
  - now rewrite lookup_insert_eq.
  - now rewrite lookup_insert_ne.
Qed.

Lemma click_without_type found s :
  noClickType s -> handleClick found s = (s, false).
Proof.
  unfold noClickType, handleClick. destruct (eventRegistry s) as [registry|]; [|reflexivity].
  now intros ->.
Qed.

Lemma apply_noClickType op s :
  listensForClick op = false -> noClickType s -> noClickType (apply op s).
Proof.
  intros Hop Hs. destruct op as [source type handler|found|found]; cbn [apply].
  - unfold noClickType, addEventListener. cbn [eventRegistry].
    rewrite hasType_insert. cbn [listensForClick] in Hop. rewrite Hop. cbn [orb].
    unfold noClickType in Hs. destruct (eventRegistry s) as [registry|]; [exact Hs|reflexivity].
  - unfold noClickType. destruct (move_fields found s) as [Hr _]. now rewrite Hr.
  - now rewrite click_without_type.
Qed.
End LegacyFacts.

(** X29. In the earlier [World], a mouse move that finds the facade already
    hovered calls no handler: [handleMouseMove] run again with the same
    facade found changes nothing and throws nothing, whatever the first run
    did, also where a handler threw in it. *)
Theorem legacy_hover_is_idempotent (found : option nat) (s : LegacyWorld.State) :
  LegacyWorld.handleMouseMove found (fst (LegacyWorld.handleMouseMove found s))
  = (fst (LegacyWorld.handleMouseMove found s), false).
Proof.
  destruct (LegacyFacts.move_fields found s) as [Hreg [[Hsame Hq]|Hhov]].
  - rewrite Hsame. rewrite (surjective_pairing (LegacyWorld.handleMouseMove found s)).
    now rewrite Hsame, Hq.
  - set (s' := fst (LegacyWorld.handleMouseMove found s)) in *.
    unfold LegacyWorld.handleMouseMove at 1.
    destruct (LegacyWorld.eventRegistry s') as [registry|] eqn:Hr; [|reflexivity].
    destruct (LegacyWorld.hasType registry "onMouseOver"
              || LegacyWorld.hasType registry "onMouseOut"); [|reflexivity].
    rewrite Hhov, LegacyFacts.sameFacadeId_refl. cbn [negb].
    rewrite <- Hr. now rewrite LegacyFacts.state_eta.
Qed.

(** X30. In the earlier [World], clicks do nothing until a facade listens
    for [onClick]: in a history of registrations, moves and clicks in which
    no listener of type [onClick] is registered, the clicks can be left out
    without changing the outcome, so also a click on the background never
    reaches the [onClick] of the scene. *)
Theorem legacy_clicks_need_a_click_listener (ops : list LegacyHistory.Op)
    (sceneOnClick : option LegacyWorld.Handler) :
  existsb LegacyHistory.listensForClick ops = false ->
  LegacyHistory.run ops (LegacyWorld.initial sceneOnClick)
  = LegacyHistory.run (List.filter (fun op => negb (LegacyHistory.isClick op)) ops)
      (LegacyWorld.initial sceneOnClick).
Proof.
  intro Hops.
  assert (Hgen : forall s, LegacyHistory.noClickType s ->
            LegacyHistory.run ops s
            = LegacyHistory.run (List.filter (fun op => negb (LegacyHistory.isClick op)) ops) s).
  { unfold LegacyHistory.run. induction ops as [|op ops IH]; intros s Hs; [reflexivity|].
    cbn [existsb] in Hops. apply orb_false_iff in Hops as [Hop Hrest].
    cbn [List.fold_left List.filter].
    destruct op as [source type handler|found|found]; cbn [LegacyHistory.isClick negb].
    - cbn [List.fold_left]. apply IH; [exact Hrest|].
      now apply (LegacyFacts.apply_noClickType (LegacyHistory.Listen source type handler)).
    - cbn [List.fold_left]. apply IH; [exact Hrest|].
      now apply (LegacyFacts.apply_noClickType (LegacyHistory.Move found)).
    - cbn [LegacyHistory.apply]. rewrite LegacyFacts.click_without_type by exact Hs.
      cbn [fst]. now apply IH. }
  apply Hgen. exact Logic.I.
Qed.

Lemma legacy_clicks_need_a_click_listener_witness :
  let ops := [LegacyHistory.Listen 1 "onMouseOver" (Some (LegacyWorld.mkHandler 11 false));
              LegacyHistory.Click None;
              LegacyHistory.Move (Some 1%nat);
              LegacyHistory.Click (Some 1%nat)] in
  existsb LegacyHistory.listensForClick ops = false /\
  LegacyWorld.calls
    (LegacyHistory.run ops (LegacyWorld.initial (Some (LegacyWorld.mkHandler 9 false))))
  = [LegacyWorld.mkCall 11 1 None].
Proof.
  intro ops. split; [reflexivity|].
  rewrite (legacy_clicks_need_a_click_listener ops
             (Some (LegacyWorld.mkHandler 9 false)) eq_refl).
  vm_compute. reflexivity.
Defined.
